(** * ICPC scoreboard: ranking, freeze and scroll engine

    A shallow embedding of [src/main.cpp] (class [ICPCSystem]) and the
    properties of its ranking calculator, freeze controller, scroll engine
    and query services.

    Conventions of the embedding.
    - [std::map<string, V>] is [gmap string V]; [operator[]] on a missing key
      inserts a default-constructed value, which is written out ([touch],
      [team_of], [status_of]).
    - [int] is a 32-bit integer held in [Z].  The penalty arithmetic, which
      overflows for times and attempts within the range of [int], wraps
      around ([wrap_int], [int_add], [int_mul]): overflow is undefined
      behaviour in C++, and two's complement wrap-around is what the usual
      implementations do.  The counters that advance by one per problem,
      per submission or per team ([solved], [wrongAttempts], ranks) are
      written without it: a solved count is bounded by the number of
      problems, which [start] builds with an [int] loop counter.
    - [std::sort] is an unspecified algorithm; it is modelled by insertion
      sort ([std_sort]).  Whenever the comparator is a strict total order on
      the elements, every algorithm returns the same list
      ([std_sort_unique]); the ranking does not depend on the algorithm
      ([ranking_any_sort]).
    - What the program prints is a list of [Output] lines, one constructor
      per output statement of the source. *)

From stdpp Require Import gmap strings list fin_maps sorting.
From Stdlib Require Import ZArith Ascii.

Local Open Scope Z_scope.

(** ** Machine integers *)

(** The value of an [int] after an operation whose exact result is [z]. *)
Definition wrap_int (z : Z) : Z := (z + 2 ^ 31) `mod` 2 ^ 32 - 2 ^ 31.

Definition int_add (a b : Z) : Z := wrap_int (a + b).

Definition int_mul (a b : Z) : Z := wrap_int (a * b).

(** ** Data model *)

Record Submission := mkSubmission {
  problem : string;
  status : string;
  time : Z
}.

Record ProblemStatus := mkProblemStatus {
  solved : bool;
  solveTime : Z;
  wrongAttempts : Z;
  frozenSubs : list Submission;
  wasSolvedBeforeFreeze : bool
}.

(** [ProblemStatus()] *)
Definition new_ProblemStatus : ProblemStatus :=
  mkProblemStatus false 0 0 [] false.

Record Team := mkTeam {
  name : string;
  problems : gmap string ProblemStatus;
  submissions : list Submission
}.

(** [Team(n)], and [Team()] for [n = ""] *)
Definition new_Team (n : string) : Team := mkTeam n ∅ [].

Record ICPCSystem := mkICPCSystem {
  teams : gmap string Team;
  teamNames : list string;
  started : bool;
  frozen : bool;
  durationTime : Z;
  problemCount : Z;
  problemList : list string;
  lastRanking : list (string * Z)
}.

(** [ICPCSystem()] *)
Definition new_ICPCSystem : ICPCSystem :=
  mkICPCSystem ∅ [] false false 0 0 [] [].

Record TeamRankInfo := mkTeamRankInfo {
  info_name : string;
  info_solved : Z;
  info_penalty : Z;
  info_times : list Z
}.

Definition set_teams (ts : gmap string Team) (s : ICPCSystem) : ICPCSystem :=
  mkICPCSystem ts (teamNames s) (started s) (frozen s) (durationTime s)
    (problemCount s) (problemList s) (lastRanking s).

Definition set_lastRanking (r : list (string * Z)) (s : ICPCSystem) : ICPCSystem :=
  mkICPCSystem (teams s) (teamNames s) (started s) (frozen s) (durationTime s)
    (problemCount s) (problemList s) r.

Definition set_frozen (b : bool) (s : ICPCSystem) : ICPCSystem :=
  mkICPCSystem (teams s) (teamNames s) (started s) b (durationTime s)
    (problemCount s) (problemList s) (lastRanking s).

Definition set_problems (ps : gmap string ProblemStatus) (t : Team) : Team :=
  mkTeam (name t) ps (submissions t).

(** ** Output lines *)

(** One scoreboard cell, as [printScoreboard] chooses it:
    ["+"] or ["+w"], ["w/n"] or ["-w/n"], ["-w"], ["."]. *)
Inductive Cell :=
| CellSolved (wrong : Z)
| CellFrozen (wrong : Z) (pending : nat)
| CellWrong (wrong : Z)
| CellNone.

Inductive Output :=
| Msg (text : string)
| ScoreRow (team : string) (rank solvedCount penalty : Z) (cells : list Cell)
| ScrollChange (team replaced : string) (solvedCount penalty : Z)
| RankLine (team : string) (rank : Z)
| SubLine (team prob stat : string) (at_time : Z).

(** ** [std::map::operator[]] on the team table *)

(** The team a reference obtained by [teams[n]] designates. *)
Definition team_of (ts : gmap string Team) (n : string) : Team :=
  default (new_Team "") (ts !! n).

(** The table after [teams[n]] was evaluated. *)
Definition touch (n : string) (ts : gmap string Team) : gmap string Team :=
  match ts !! n with
  | Some _ => ts
  | None => <[n := new_Team ""]> ts
  end.

Definition touch_all (ns : list string) (ts : gmap string Team) : gmap string Team :=
  foldl (λ acc n, touch n acc) ts ns.

(** The status a reference obtained by [t.problems[p]] designates. *)
Definition status_of (t : Team) (p : string) : ProblemStatus :=
  default new_ProblemStatus (problems t !! p).

(** ** [std::sort] and the comparisons it is called with *)

Fixpoint sort_insert {A : Type} (comp : A → A → bool) (x : A) (l : list A) : list A :=
  match l with
  | [] => [x]
  | y :: l' => if comp x y then x :: l else y :: sort_insert comp x l'
  end.

Definition std_sort {A : Type} (comp : A → A → bool) (l : list A) : list A :=
  foldr (sort_insert comp) [] l.

(** [operator<] on [vector<int>]: [std::lexicographical_compare]. *)
Fixpoint vec_lt (a b : list Z) : bool :=
  match a, b with
  | _, [] => false
  | [], _ :: _ => true
  | x :: a', y :: b' =>
      if x <? y then true else if y <? x then false else vec_lt a' b'
  end.

(** [sort(v.rbegin(), v.rend())]: the vector ends up in descending order. *)
Definition sort_descending (l : list Z) : list Z :=
  std_sort (λ a b, b <? a) l.

(** The lambda passed to [std::sort] in [calculateRanking]. *)
Definition compare_infos (ta tb : TeamRankInfo) : bool :=
  if negb (info_solved ta =? info_solved tb) then info_solved tb <? info_solved ta
  else if negb (info_penalty ta =? info_penalty tb) then info_penalty ta <? info_penalty tb
  else if negb (bool_decide (info_times ta = info_times tb))
       then vec_lt (info_times ta) (info_times tb)
  else String.ltb (info_name ta) (info_name tb).

(** ** Ranking calculator *)

(** One iteration of the loop over [problemList] in [getTeamRankInfo]. *)
Definition rank_info_step (t : Team) (info : TeamRankInfo) (prob : string)
  : TeamRankInfo :=
  match problems t !! prob with
  | Some ps =>
      if solved ps && wasSolvedBeforeFreeze ps then
        let penalty := int_add (solveTime ps) (int_mul 20 (wrongAttempts ps)) in
        mkTeamRankInfo (info_name info) (info_solved info + 1)
          (int_add (info_penalty info) penalty)
          (info_times info ++ [solveTime ps])
      else info
  | None => info
  end.

(** The value [getTeamRankInfo] returns; it reads [teams[teamName]]. *)
Definition rank_info (ts : gmap string Team) (pl : list string) (teamName : string)
  : TeamRankInfo :=
  let info := foldl (rank_info_step (team_of ts teamName))
                (mkTeamRankInfo teamName 0 0 []) pl in
  mkTeamRankInfo (info_name info) (info_solved info) (info_penalty info)
    (sort_descending (info_times info)).

Definition getTeamRankInfo (teamName : string) (s : ICPCSystem)
  : TeamRankInfo * ICPCSystem :=
  (rank_info (teams s) (problemList s) teamName,
   set_teams (touch teamName (teams s)) s).

(** The first loop of [calculateRanking]: [infos.push_back(getTeamRankInfo(name))]. *)
Fixpoint collect_infos (ns : list string) (s : ICPCSystem)
  : list TeamRankInfo * ICPCSystem :=
  match ns with
  | [] => ([], s)
  | n :: ns' =>
      let '(info, s1) := getTeamRankInfo n s in
      let '(infos, s2) := collect_infos ns' s1 in
      (info :: infos, s2)
  end.

Definition dummy_info : TeamRankInfo := mkTeamRankInfo "" 0 0 [].

(** [calculateRanking(ranking)]: the ranking written to the out-parameter,
    and the system (its team table was indexed with [operator[]]). *)
Definition calculateRanking (s : ICPCSystem) : list (string * Z) * ICPCSystem :=
  let '(infos, s1) := collect_infos (teamNames s) s in
  let indices := seq 0 (length (teamNames s)) in
  let sorted :=
    std_sort (λ a b, compare_infos (nth a infos dummy_info) (nth b infos dummy_info))
      indices in
  (imap (λ i idx, (nth idx (teamNames s) "", Z.of_nat i + 1)) sorted, s1).

(** ** Scoreboard printer *)

(** The two counters [printScoreboard] accumulates for one team. *)
Definition score_step (t : Team) (acc : Z * Z) (prob : string) : Z * Z :=
  match problems t !! prob with
  | Some ps =>
      if solved ps && wasSolvedBeforeFreeze ps
      then (acc.1 + 1,
            int_add acc.2 (int_add (solveTime ps) (int_mul 20 (wrongAttempts ps))))
      else acc
  | None => acc
  end.

(** The cell printed for one problem of one team. *)
Definition cell_of (t : Team) (prob : string) : Cell :=
  match problems t !! prob with
  | Some ps =>
      if solved ps && wasSolvedBeforeFreeze ps then CellSolved (wrongAttempts ps)
      else if negb (bool_decide (frozenSubs ps = []))
           then CellFrozen (wrongAttempts ps) (length (frozenSubs ps))
      else if 0 <? wrongAttempts ps then CellWrong (wrongAttempts ps)
      else CellNone
  | None => CellNone
  end.

Definition score_row (t : Team) (pl : list string) (rank : Z) : Output :=
  let totals := foldl (score_step t) (0, 0) pl in
  ScoreRow (name t) rank totals.1 totals.2 (map (cell_of t) pl).

(** The loop over the ranking in [printScoreboard]. *)
Fixpoint print_rows (ranking : list (string * Z)) (s : ICPCSystem)
  : list Output * ICPCSystem :=
  match ranking with
  | [] => ([], s)
  | p :: rest =>
      let s1 := set_teams (touch p.1 (teams s)) s in
      let row := score_row (team_of (teams s1) p.1) (problemList s1) p.2 in
      let '(rows, s2) := print_rows rest s1 in
      (row :: rows, s2)
  end.

Definition printScoreboard (s : ICPCSystem) : list Output * ICPCSystem :=
  let '(ranking, s1) := calculateRanking s in
  print_rows ranking s1.

(** ** Commands *)

Definition addTeam (n : string) (s : ICPCSystem) : ICPCSystem * list Output :=
  if started s then (s, [Msg "[Error]Add failed: competition has started."])
  else if bool_decide (is_Some (teams s !! n))
  then (s, [Msg "[Error]Add failed: duplicated team name."])
  else (mkICPCSystem (<[n := new_Team n]> (teams s)) (teamNames s ++ [n])
          (started s) (frozen s) (durationTime s) (problemCount s)
          (problemList s) (lastRanking s),
        [Msg "[Info]Add successfully."]).

(** [string(1, 'A' + i)]: the sum is narrowed to one [char]. *)
Definition problem_name (i : Z) : string :=
  String (Ascii.ascii_of_N (Z.to_N ((65 + i) `mod` 256))) EmptyString.

Definition problem_names (problems : Z) : list string :=
  map (λ i, problem_name (Z.of_nat i)) (seq 0 (Z.to_nat problems)).

(** [start].  [problemList.reserve(problems)] with a negative count asks for
    more than [max_size()] elements and throws [std::length_error], which
    nothing catches: the process ends, written [None].  Running out of
    memory is not modelled. *)
Definition start (duration problems : Z) (s : ICPCSystem)
  : option (ICPCSystem * list Output) :=
  if started s then Some (s, [Msg "[Error]Start failed: competition has started."])
  else if problems <? 0 then None
  else Some (mkICPCSystem (teams s) (teamNames s) true (frozen s) duration problems
               (problemList s ++ problem_names problems) (lastRanking s),
             [Msg "[Info]Competition starts."]).

Definition set_frozenSubs (q : list Submission) (ps : ProblemStatus) : ProblemStatus :=
  mkProblemStatus (solved ps) (solveTime ps) (wrongAttempts ps) q
    (wasSolvedBeforeFreeze ps).

(** The branch [else if (!ps.solved) { ... }] of [submit]. *)
Definition apply_visible (stat : string) (tm : Z) (ps : ProblemStatus) : ProblemStatus :=
  if negb (solved ps) then
    if String.eqb stat "Accepted"
    then mkProblemStatus true tm (wrongAttempts ps) (frozenSubs ps) true
    else mkProblemStatus (solved ps) (solveTime ps) (wrongAttempts ps + 1)
           (frozenSubs ps) (wasSolvedBeforeFreeze ps)
  else ps.

(** The whole [if] of [submit] on the problem status. *)
Definition submit_status (frz : bool) (sub : Submission) (ps : ProblemStatus)
  : ProblemStatus :=
  if frz && negb (wasSolvedBeforeFreeze ps)
  then set_frozenSubs (frozenSubs ps ++ [sub]) ps
  else apply_visible (status sub) (time sub) ps.

Definition submit (prob teamName stat : string) (tm : Z) (s : ICPCSystem)
  : ICPCSystem :=
  let ts := touch teamName (teams s) in
  let team := team_of ts teamName in
  let sub := mkSubmission prob stat tm in
  let ledger := submissions team ++ [sub] in
  let probs :=
    match problems team !! prob with
    | Some _ => problems team
    | None => <[prob := new_ProblemStatus]> (problems team)
    end in
  let ps := default new_ProblemStatus (probs !! prob) in
  let ps' := submit_status (frozen s) sub ps in
  set_teams (<[teamName := mkTeam (name team) (<[prob := ps']> probs) ledger]> ts) s.

Definition flush (silent : bool) (s : ICPCSystem) : ICPCSystem * list Output :=
  let '(ranking, s1) := calculateRanking s in
  (set_lastRanking ranking s1,
   if silent then [] else [Msg "[Info]Flush scoreboard."]).

(** The body of the two nested loops of [freeze]. *)
Definition freeze_status (ps : ProblemStatus) : ProblemStatus :=
  if solved ps
  then mkProblemStatus (solved ps) (solveTime ps) (wrongAttempts ps) (frozenSubs ps) true
  else ps.

Definition freeze_team (t : Team) : Team :=
  set_problems (freeze_status <$> problems t) t.

Definition freeze (s : ICPCSystem) : ICPCSystem * list Output :=
  if frozen s then (s, [Msg "[Error]Freeze failed: scoreboard has been frozen."])
  else (set_teams (freeze_team <$> teams s) (set_frozen true s),
        [Msg "[Info]Freeze scoreboard."]).

(** ** Scroll *)

(** The three locals the scan at the head of the [while] loop computes. *)
Record Selection := mkSelection {
  hasFrozen : bool;
  lowestTeam : string;
  lowestRank : Z
}.

(** [t.problems.count(prob) && !t.problems.at(prob).frozenSubs.empty()] *)
Definition has_frozen (t : Team) (prob : string) : bool :=
  match problems t !! prob with
  | Some ps => negb (bool_decide (frozenSubs ps = []))
  | None => false
  end.

(** The scan over [lastRanking]; the inner loop stops at the first problem
    of the team that has frozen submissions. *)
Fixpoint select_loop (ranking : list (string * Z)) (pl : list string)
    (ts : gmap string Team) (acc : Selection) : Selection * gmap string Team :=
  match ranking with
  | [] => (acc, ts)
  | p :: rest =>
      let ts1 := touch p.1 ts in
      let t := team_of ts1 p.1 in
      let acc1 :=
        match find (has_frozen t) pl with
        | Some _ =>
            if lowestRank acc <? p.2
            then mkSelection true p.1 p.2
            else mkSelection true (lowestTeam acc) (lowestRank acc)
        | None => acc
        end in
      select_loop rest pl ts1 acc1
  end.

(** The body of the loop over [ps.frozenSubs]. *)
Definition replay_step (ps : ProblemStatus) (sub : Submission) : ProblemStatus :=
  if String.eqb (status sub) "Accepted" && negb (solved ps)
  then mkProblemStatus true (time sub) (wrongAttempts ps) (frozenSubs ps) true
  else if negb (String.eqb (status sub) "Accepted") && negb (solved ps)
  then mkProblemStatus (solved ps) (solveTime ps) (wrongAttempts ps + 1)
         (frozenSubs ps) (wasSolvedBeforeFreeze ps)
  else ps.

(** The replay loop followed by [ps.frozenSubs.clear()]. *)
Definition replay (ps : ProblemStatus) : ProblemStatus :=
  set_frozenSubs [] (foldl replay_step ps (frozenSubs ps)).

(** [find] over a ranking: the rank of a team, 0 when it is absent. *)
Definition rank_in (ranking : list (string * Z)) (n : string) : Z :=
  default 0 (snd <$> find (λ p, bool_decide (p.1 = n)) ranking).

(** [find] over a ranking: the team holding a rank, [""] when there is none. *)
Definition team_at (ranking : list (string * Z)) (r : Z) : string :=
  default "" (fst <$> find (λ p, p.2 =? r) ranking).

Inductive StepResult :=
| Finished (s : ICPCSystem)
| Revealed (s : ICPCSystem) (out : list Output).

(** One iteration of the [while (true)] loop of [scroll]: either the
    [break], or one reveal. *)
Definition scroll_step (s : ICPCSystem) : StepResult :=
  let '(sel, ts1) :=
    select_loop (lastRanking s) (problemList s) (teams s) (mkSelection false "" 0) in
  if negb (hasFrozen sel) then Finished (set_teams ts1 s)
  else
    let ts2 := touch (lowestTeam sel) ts1 in
    let t := team_of ts2 (lowestTeam sel) in
    let unfreezeProb := default "" (find (has_frozen t) (problemList s)) in
    let ps := status_of t unfreezeProb in
    let t' := set_problems (<[unfreezeProb := replay ps]> (problems t)) t in
    let s3 := set_teams (<[lowestTeam sel := t']> ts2) s in
    let oldRank := lowestRank sel in
    let '(ranking, s4) := calculateRanking s3 in
    let s5 := set_lastRanking ranking s4 in
    let newRank := rank_in ranking (lowestTeam sel) in
    if newRank <? oldRank then
      let '(info, s6) := getTeamRankInfo (lowestTeam sel) s5 in
      let replacedTeam := team_at ranking (newRank + 1) in
      Revealed s6 [ScrollChange (lowestTeam sel) replacedTeam
                     (info_solved info) (info_penalty info)]
    else Revealed s5 [].

(** The [while (true)] loop, cut after [fuel] reveals. *)
Fixpoint scroll_loop (fuel : nat) (s : ICPCSystem) : option (ICPCSystem * list Output) :=
  match scroll_step s with
  | Finished s' => Some (s', [])
  | Revealed s' out =>
      match fuel with
      | O => None
      | S fuel' =>
          match scroll_loop fuel' s' with
          | Some (s'', out') => Some (s'', out ++ out')
          | None => None
          end
      end
  end.

(** The system at the head of the loop: after [flush(true)] and the first
    [printScoreboard()]. *)
Definition scroll_enter (s : ICPCSystem) : ICPCSystem * list Output :=
  let '(s1, _) := flush true s in
  let '(board, s2) := printScoreboard s1 in
  (s2, Msg "[Info]Scroll scoreboard." :: board).

(** The number of reveals [scroll] is given; [scroll_loop_enough] shows the
    loop never needs more. *)
Definition scroll_fuel (s : ICPCSystem) : nat :=
  (length (teamNames s) * length (problemList s))%nat.

Definition scroll (s : ICPCSystem) : option (ICPCSystem * list Output) :=
  if negb (frozen s)
  then Some (s, [Msg "[Error]Scroll failed: scoreboard has not been frozen."])
  else
    let '(s2, out1) := scroll_enter s in
    match scroll_loop (scroll_fuel s2) s2 with
    | Some (s3, changes) =>
        let '(board, s4) := printScoreboard s3 in
        Some (set_frozen false s4, out1 ++ changes ++ board)
    | None => None
    end.

(** ** Queries *)

Definition queryRanking (n : string) (s : ICPCSystem) : list Output :=
  if negb (bool_decide (is_Some (teams s !! n)))
  then [Msg "[Error]Query ranking failed: cannot find the team."]
  else
    let rank :=
      if negb (bool_decide (lastRanking s = [])) then rank_in (lastRanking s) n
      else
        let sortedNames := std_sort String.ltb (teamNames s) in
        default 0 ((λ ix : nat * string, Z.of_nat ix.1 + 1)
                     <$> list_find (λ x, x = n) sortedNames) in
    Msg "[Info]Complete query ranking."
    :: (if frozen s
        then [Msg "[Warning]Scoreboard is frozen. The ranking may be inaccurate until it were scrolled."]
        else [])
    ++ [RankLine n rank].

Definition matches (prob stat : string) (sub : Submission) : bool :=
  (String.eqb prob "ALL" || String.eqb (problem sub) prob)
  && (String.eqb stat "ALL" || String.eqb (status sub) stat).

Definition querySubmission (teamName prob stat : string) (s : ICPCSystem)
  : list Output :=
  if negb (bool_decide (is_Some (teams s !! teamName)))
  then [Msg "[Error]Query submission failed: cannot find the team."]
  else
    Msg "[Info]Complete query submission."
    :: match find (matches prob stat) (rev (submissions (team_of (teams s) teamName))) with
       | Some sub => [SubLine teamName (problem sub) (status sub) (time sub)]
       | None => [Msg "Cannot find any submission."]
       end.

(** ** The [QUERY_SUBMISSION] line of [main] *)

(** [std::string::npos], with a [size_t] of 64 bits. *)
Definition npos : Z := 2 ^ 64 - 1.

(** Arithmetic on [size_t] wraps around. *)
Definition wrap_size (z : Z) : Z := z `mod` 2 ^ 64.

(** [s] starts with [pat]. *)
Fixpoint starts_with (pat s : string) : bool :=
  match pat with
  | EmptyString => true
  | String a pat' =>
      match s with
      | EmptyString => false
      | String b s' => Ascii.eqb a b && starts_with pat' s'
      end
  end.

(** The first position at which [pat] occurs in [s]. *)
Fixpoint find_pos (pat s : string) : option nat :=
  if starts_with pat s then Some O
  else match s with
       | EmptyString => None
       | String _ s' => S <$> find_pos pat s'
       end.

(** [s.find(pat)]. *)
Definition str_find (s pat : string) : Z :=
  match find_pos pat s with
  | Some i => Z.of_nat i
  | None => npos
  end.

(** [s.substr(pos, len)]: [None] is [std::out_of_range], thrown when [pos]
    is beyond the end. *)
Definition substr (s : string) (pos len : Z) : option string :=
  let size := Z.of_nat (String.length s) in
  if size <? pos then None
  else Some (String.substring (Z.to_nat pos) (Z.to_nat (Z.min len (size - pos))) s).

(** What [main] computes from the rest of a [QUERY_SUBMISSION] line, after
    the team name and the word that follows it: the problem and the status
    passed to [querySubmission].  The exception of [substr] is not caught:
    [None] is the process ending abnormally. *)
Definition parse_query_rest (rest : string) : option (string * string) :=
  let probPos := str_find rest "PROBLEM=" in
  let statPos := str_find rest "STATUS=" in
  match substr rest (wrap_size (probPos + 8)) (wrap_size (statPos - probPos - 13)) with
  | None => None
  | Some problem =>
      match substr rest (wrap_size (statPos + 7)) npos with
      | None => None
      | Some status => Some (problem, status)
      end
  end.

(** ** The command loop of [main] *)

Inductive Command :=
| ADDTEAM (n : string)
| START (duration problems : Z)
| SUBMIT (prob team stat : string) (tm : Z)
| FLUSH
| FREEZE
| SCROLL
| QUERY_RANKING (n : string)
| QUERY_SUBMISSION (team prob stat : string)
| END.

(** One command other than [END]; [None] when the process ends abnormally. *)
Definition dispatch (c : Command) (s : ICPCSystem) : option (ICPCSystem * list Output) :=
  match c with
  | ADDTEAM n => Some (addTeam n s)
  | START d p => start d p s
  | SUBMIT p t st tm => Some (submit p t st tm s, [])
  | FLUSH => Some (flush false s)
  | FREEZE => Some (freeze s)
  | SCROLL => scroll s
  | QUERY_RANKING n => Some (s, queryRanking n s)
  | QUERY_SUBMISSION t p st => Some (s, querySubmission t p st s)
  | END => Some (s, [Msg "[Info]Competition ends."])
  end.

(** The [while (getline ...)] loop: [END] prints its line and leaves. *)
Fixpoint run (cmds : list Command) (s : ICPCSystem) : option (ICPCSystem * list Output) :=
  match cmds with
  | [] => Some (s, [])
  | END :: _ => dispatch END s
  | c :: rest =>
      match dispatch c s with
      | Some (s1, out1) =>
          match run rest s1 with
          | Some (s2, out2) => Some (s2, out1 ++ out2)
          | None => None
          end
      | None => None
      end
  end.

(** The systems a run of the program can be in between two commands. *)
Definition reachable (s : ICPCSystem) : Prop :=
  ∃ cmds out, run cmds new_ICPCSystem = Some (s, out).

(** * Vocabulary of the properties *)

(** ** Orders and rankings *)

(** "not after": the non-strict order of a comparator *)
Definition not_after {A : Type} (comp : A → A → bool) (a b : A) : Prop :=
  comp b a = false.

(** A comparator that is a strict total order, as [std::sort] needs to have
    one possible result. *)
Record StrictTotal {A : Type} (comp : A → A → bool) : Prop := {
  st_irrefl : ∀ a, comp a a = false;
  st_trans : ∀ a b c, comp a b = true → comp b c = true → comp a c = true;
  st_total : ∀ a b, comp a b = false → comp b a = false → a = b
}.

(** [before s a b]: the comparator of [calculateRanking] on two team names. *)
Definition before (s : ICPCSystem) (a b : string) : bool :=
  compare_infos (rank_info (teams s) (problemList s) a)
                (rank_info (teams s) (problemList s) b).

(** The team names in ranking order. *)
Definition ranking_names (s : ICPCSystem) : list string :=
  std_sort (before s) (teamNames s).

(** Numbering the places from 1. *)
Definition number_ranks (l : list string) : list (string * Z) :=
  imap (λ i n, (n, Z.of_nat i + 1)) l.

(** The number of teams placed before [n]. *)
Definition ahead (s : ICPCSystem) (n : string) : nat :=
  length (filter (λ u, before s u n = true) (teamNames s)).

(** A system produced by a sequence of commands; used for the examples. *)
Definition state_after (cmds : list Command) : ICPCSystem :=
  match run cmds new_ICPCSystem with
  | Some (s, _) => s
  | None => new_ICPCSystem
  end.

(** The four fields of a problem status the scoreboard totals depend on. *)
Definition visible_fields (ps : ProblemStatus) : bool * Z * Z * bool :=
  (solved ps, solveTime ps, wrongAttempts ps, wasSolvedBeforeFreeze ps).

(** Two systems with the same registered teams and problems whose team-problem
    states agree on the visible fields; the [frozenSubs] queues are free. *)
Definition agree_visible (s1 s2 : ICPCSystem) : Prop :=
  teamNames s1 = teamNames s2
  ∧ problemList s1 = problemList s2
  ∧ ∀ n p, n ∈ teamNames s1 → p ∈ problemList s1 →
      visible_fields (status_of (team_of (teams s1) n) p)
      = visible_fields (status_of (team_of (teams s2) n) p).

(** ** The scroll loop *)

(** A team is a candidate for a reveal when one of the contest's problems has
    frozen submissions for it. *)
Definition candidate (ts : gmap string Team) (pl : list string) (n : string) : Prop :=
  ∃ p, p ∈ pl ∧ has_frozen (team_of ts n) p = true.

(** The problem a reveal picks for team [t]: the first one of the problem
    list with frozen submissions. *)
Definition reveal_prob (t : Team) (pl : list string) : string :=
  default "" (find (has_frozen t) pl).

(** The team after its picked queue was replayed and cleared. *)
Definition reveal_team (t : Team) (pl : list string) : Team :=
  set_problems
    (<[reveal_prob t pl := replay (status_of t (reveal_prob t pl))]> (problems t)) t.

(** Two systems that differ at most in entries [operator[]] has created. *)
Definition same_view (s s' : ICPCSystem) : Prop :=
  teamNames s' = teamNames s ∧ problemList s' = problemList s
  ∧ ∀ n, team_of (teams s') n = team_of (teams s) n.

(** The result of the scan at the head of the loop. *)
Definition selection (s : ICPCSystem) : Selection :=
  (select_loop (lastRanking s) (problemList s) (teams s) (mkSelection false "" 0)).1.

(** The system after the queue of the selected team was replayed, before the
    ranking is recomputed. *)
Definition revealed (s : ICPCSystem) : ICPCSystem :=
  let t := lowestTeam (selection s) in
  let ts1 := touch_all (map fst (lastRanking s)) (teams s) in
  set_teams (<[t := reveal_team (team_of (teams s) t) (problemList s)]> (touch t ts1)) s.

(** At the head of every iteration of the scroll loop [lastRanking] is the
    ranking of the current state: [flush(true)] computes it before the loop
    and every reveal recomputes it. *)
Definition loop_head (s : ICPCSystem) : Prop :=
  lastRanking s = (calculateRanking s).1.

(** A problem counts for the ranking when both flags are set. *)
Definition counted (ps : ProblemStatus) : bool :=
  solved ps && wasSolvedBeforeFreeze ps.

(** The queue of frozen submissions of a team for a problem. *)
Definition queue (s : ICPCSystem) (n p : string) : list Submission :=
  frozenSubs (status_of (team_of (teams s) n) p).

(** The number of non-empty queues the scan can see: over the registered
    teams and the problems of the contest. *)
Definition pending_of (s : ICPCSystem) (n : string) : nat :=
  length (filter (λ p, has_frozen (team_of (teams s) n) p = true) (problemList s)).

(** The measure that decreases with every reveal. *)
Definition pending (s : ICPCSystem) : nat :=
  sum_list_with (pending_of s) (teamNames s).

(** A team has something to reveal when one of the contest's problems has a
    non-empty queue for it. *)
Definition has_pending (s : ICPCSystem) (n : string) : Prop :=
  ∃ p, p ∈ problemList s ∧ queue s n p ≠ [].

(** The loop head of the scroll that follows a sequence of commands. *)
Definition scroll_head_after (cmds : list Command) : ICPCSystem :=
  (scroll_enter (state_after cmds)).1.

(** Three teams without a solved problem; team ["c"] has an [Accepted]
    submission in its queue. *)
Definition three_teams_head : ICPCSystem :=
  scroll_head_after
    [ADDTEAM "a"; ADDTEAM "b"; ADDTEAM "c"; START 10 1; FREEZE;
     SUBMIT "A" "c" "Accepted" 5].

(** ** Runs *)

(** What holds between any two commands of a run: the registered names are
    distinct, every registered name has its entry in the team table, the
    cached ranking names registered teams only, the two flags of every
    problem status agree, and the problem list is the one [start] built. *)
Record Inv (s : ICPCSystem) : Prop := {
  inv_nodup : NoDup (teamNames s);
  inv_registered :
    ∀ n, n ∈ teamNames s → ∃ t, teams s !! n = Some t ∧ name t = n;
  inv_ranking : ∀ p, p ∈ lastRanking s → p.1 ∈ teamNames s;
  inv_flags :
    ∀ n t p ps, teams s !! n = Some t → problems t !! p = Some ps →
      solved ps = wasSolvedBeforeFreeze ps;
  inv_problems :
    problemList s = if started s then problem_names (problemCount s) else []
}.

(** What a later system keeps of an earlier one: known teams stay known,
    registered teams stay registered, and a name registered later was
    unknown before. *)
Definition extends (s s' : ICPCSystem) : Prop :=
  (∀ g, is_Some (teams s !! g) → is_Some (teams s' !! g))
  ∧ (∀ n, n ∈ teamNames s → n ∈ teamNames s')
  ∧ (∀ n, n ∈ teamNames s' → n ∈ teamNames s ∨ teams s !! n = None).

(** The loop body of [getTeamRankInfo] with the test [ps.solved] alone. *)
Definition rank_info_step_solved (t : Team) (info : TeamRankInfo) (prob : string)
  : TeamRankInfo :=
  match problems t !! prob with
  | Some ps =>
      if solved ps then
        let penalty := int_add (solveTime ps) (int_mul 20 (wrongAttempts ps)) in
        mkTeamRankInfo (info_name info) (info_solved info + 1)
          (int_add (info_penalty info) penalty)
          (info_times info ++ [solveTime ps])
      else info
  | None => info
  end.

(** The fallback of [queryRanking]: the place of a name in the sorted list of
    registered names, 0 when it is not there. *)
Definition alphabetical_rank (names : list string) (n : string) : Z :=
  default 0 ((λ ix : nat * string, Z.of_nat ix.1 + 1)
               <$> list_find (λ x, x = n) (std_sort String.ltb names)).

(** The rank [queryRanking] prints. *)
Definition reported_rank (s : ICPCSystem) (n : string) : Z :=
  if negb (bool_decide (lastRanking s = [])) then rank_in (lastRanking s) n
  else alphabetical_rank (teamNames s) n.

(** The ranking cached by the last [FLUSH] command of a run, if there was
    one: the last explicitly flushed snapshot. *)
Fixpoint last_flushed (cmds : list Command) (s : ICPCSystem)
    (snapshot : option (list (string * Z))) : option (list (string * Z)) :=
  match cmds with
  | [] => snapshot
  | c :: rest =>
      match dispatch c s with
      | Some (s', _) =>
          last_flushed rest s'
            (match c with FLUSH => Some (lastRanking s') | _ => snapshot end)
      | None => snapshot
      end
  end.

(** The team a scoreboard row is printed for. *)
Definition row_team (o : Output) : option string :=
  match o with
  | ScoreRow n _ _ _ _ => Some n
  | _ => None
  end.

(** Every scoreboard row among the lines [out] is the row of a team
    registered in [s]. *)
Definition rows_registered (s : ICPCSystem) (out : list Output) : Prop :=
  ∀ o n, o ∈ out → row_team o = Some n → n ∈ teamNames s.

(** ** Example systems *)

(** Two teams, one of which has solved a problem. *)
Definition two_teams : ICPCSystem :=
  state_after [ADDTEAM "a"; ADDTEAM "b"; START 10 2; SUBMIT "A" "b" "Accepted" 5].

(** The system a reveal step leaves, when there is one. *)
Definition step_state (r : StepResult) : ICPCSystem :=
  match r with
  | Finished s => s
  | Revealed s _ => s
  end.

(** A frozen board with one hidden accepted submission, and the same board
    without any submission. *)
Definition hidden_accept : ICPCSystem :=
  state_after [ADDTEAM "a"; START 10 1; FREEZE; SUBMIT "A" "a" "Accepted" 5].

Definition nothing_submitted : ICPCSystem :=
  state_after [ADDTEAM "a"; START 10 1; FREEZE].

(** A problem solved before the freeze, and a submission to it after. *)
Definition solved_then_frozen : ICPCSystem :=
  state_after [ADDTEAM "a"; START 10 1; SUBMIT "A" "a" "Wrong" 3;
               SUBMIT "A" "a" "Accepted" 5; FREEZE; SUBMIT "A" "a" "Wrong" 7].

(** Two teams with two solved problems and the same penalty each; the
    solve times decide, against the order of the names. *)
Definition times_decide : ICPCSystem :=
  state_after [ADDTEAM "Zed"; ADDTEAM "amy"; START 100 2;
               SUBMIT "A" "Zed" "Accepted" 10; SUBMIT "B" "Zed" "Accepted" 30;
               SUBMIT "A" "amy" "Wrong" 2; SUBMIT "A" "amy" "Accepted" 5;
               SUBMIT "B" "amy" "Accepted" 15].

(** A started contest with one registered team. *)
Definition one_team : ICPCSystem := state_after [ADDTEAM "a"; START 10 1].

(** ** Relations between an earlier and a later system of a run *)

(** Once the contest has started its configuration stays: the registered
    teams, the problems, the duration. *)
Definition config_kept (s s' : ICPCSystem) : Prop :=
  started s = true →
  started s' = true ∧ teamNames s' = teamNames s ∧ problemList s' = problemList s
  ∧ problemCount s' = problemCount s ∧ durationTime s' = durationTime s.

(** A solved problem stays solved, with its solve time and its wrong
    attempts. *)
Definition solved_kept (s s' : ICPCSystem) : Prop :=
  ∀ n p,
    solved (status_of (team_of (teams s) n) p) = true →
    solved (status_of (team_of (teams s') n) p) = true
    ∧ solveTime (status_of (team_of (teams s') n) p)
      = solveTime (status_of (team_of (teams s) n) p)
    ∧ wrongAttempts (status_of (team_of (teams s') n) p)
      = wrongAttempts (status_of (team_of (teams s) n) p).

(** ** Ledgers *)

(** The submissions a sequence of commands makes for team [n], in order, up
    to the first [END]. *)
Fixpoint submitted_by (n : string) (cmds : list Command) : list Submission :=
  match cmds with
  | [] => []
  | END :: _ => []
  | SUBMIT prob team stat tm :: rest =>
      (if decide (team = n) then [mkSubmission prob stat tm] else [])
      ++ submitted_by n rest
  | _ :: rest => submitted_by n rest
  end.

(** ** Totals of a team *)

Definition sum_Z (l : list Z) : Z := foldr Z.add 0 l.

(** The problems of the list that count for a team. *)
Definition counted_problems (t : Team) (pl : list string) : list string :=
  filter (λ p, counted (status_of t p) = true) pl.

(** The penalty a counted problem contributes. *)
Definition problem_penalty (t : Team) (p : string) : Z :=
  solveTime (status_of t p) + 20 * wrongAttempts (status_of t p).

(** A line the reveal loop prints. *)
Definition is_change (o : Output) : Prop :=
  ∃ t replaced sc pen, o = ScrollChange t replaced sc pen.

(** The cells of a scoreboard row, none for another line. *)
Definition row_cells (o : Output) : list Cell :=
  match o with
  | ScoreRow _ _ _ _ cells => cells
  | _ => []
  end.

Definition is_frozen_cell (c : Cell) : Prop :=
  match c with
  | CellFrozen _ _ => True
  | _ => False
  end.

(** The names of the first 26 problems. *)
Definition alphabet : list string :=
  ["A"; "B"; "C"; "D"; "E"; "F"; "G"; "H"; "I"; "J"; "K"; "L"; "M";
   "N"; "O"; "P"; "Q"; "R"; "S"; "T"; "U"; "V"; "W"; "X"; "Y"; "Z"].

(** The result of a run followed by [END]. *)
Definition ended (r : option (ICPCSystem * list Output))
  : option (ICPCSystem * list Output) :=
  match r with
  | Some (s, out) => Some (s, out ++ [Msg "[Info]Competition ends."])
  | None => None
  end.

(** ** Submissions of a run *)

Definition is_submit (c : Command) : Prop :=
  match c with
  | SUBMIT _ _ _ _ => True
  | _ => False
  end.

(** The submissions a sequence of commands makes for team [n] on problem
    [p], in order, up to the first [END]. *)
Fixpoint submitted_on (n p : string) (cmds : list Command) : list Submission :=
  match cmds with
  | [] => []
  | END :: _ => []
  | SUBMIT prob team stat tm :: rest =>
      (if decide (n = team ∧ p = prob) then [mkSubmission prob stat tm] else [])
      ++ submitted_on n p rest
  | _ :: rest => submitted_on n p rest
  end.

(** ** Strings *)

(** A string without the character [c]. *)
Fixpoint no_char (c : Ascii.ascii) (s : string) : bool :=
  match s with
  | EmptyString => true
  | String d s' => negb (Ascii.eqb c d) && no_char c s'
  end.

(** ** More example systems *)

(** A frozen board: team ["a"] solved a problem before the freeze, and both
    teams have submissions in their queues. *)
Definition frozen_board : ICPCSystem :=
  state_after [ADDTEAM "a"; ADDTEAM "b"; START 10 2; SUBMIT "A" "a" "Accepted" 5;
               FREEZE; SUBMIT "A" "b" "Accepted" 7; SUBMIT "B" "a" "Wrong" 9].

(** Two teams with a wrong attempt and nothing solved. *)
Definition unsolved_teams : ICPCSystem :=
  state_after [ADDTEAM "b"; ADDTEAM "a"; START 10 1; SUBMIT "A" "a" "Wrong" 3].

(** A few submissions. *)
Definition some_submits : list Command :=
  [SUBMIT "A" "a" "Wrong" 6; SUBMIT "A" "a" "Accepted" 8; SUBMIT "B" "b" "Accepted" 9].

(** The result of a computation that gives one. *)
Definition result_state (r : option (ICPCSystem * list Output)) : ICPCSystem :=
  default new_ICPCSystem (fst <$> r).

Definition result_out (r : option (ICPCSystem * list Output)) : list Output :=
  default [] (snd <$> r).

(** Two problems solved late: the sum of the penalties is beyond the range
    of [int]. *)
Definition penalty_overflow : ICPCSystem :=
  state_after [ADDTEAM "a"; START 10 2; SUBMIT "A" "a" "Accepted" 2000000000;
               SUBMIT "B" "a" "Accepted" 2000000000].

(** * Properties *)

(** ** Lists *)

Lemma filter_all {A} (P : A → Prop) `{!∀ x, Decision (P x)} (l : list A) :
  (∀ x, x ∈ l → P x) → filter P l = l.
Proof.
  induction l as [|x l IH]; intros Hi; [done|].
  rewrite filter_cons_True by (apply Hi; set_solver).
  f_equal. apply IH. intros; apply Hi; set_solver.
Qed.

Lemma filter_none {A} (P : A → Prop) `{!∀ x, Decision (P x)} (l : list A) :
  (∀ x, x ∈ l → ¬ P x) → filter P l = [].
Proof.
  induction l as [|x l IH]; intros Hi; [done|].
  rewrite filter_cons_False by (apply Hi; set_solver).
  apply IH. intros; apply Hi; set_solver.
Qed.

Lemma filter_length_mono {A} (P Q : A → Prop)
    `{!∀ x, Decision (P x)} `{!∀ x, Decision (Q x)} (l : list A) :
  (∀ x, x ∈ l → P x → Q x) → (length (filter P l) ≤ length (filter Q l))%nat.
Proof.
  induction l as [|x l IH]; intros Hi; [done|].
  assert (length (filter P l) ≤ length (filter Q l))%nat
    by (apply IH; intros; apply Hi; set_solver).
  rewrite !filter_cons.
  destruct (decide (P x)) as [HP|]; destruct (decide (Q x)) as [|HQ]; simpl; try lia.
  destruct HQ. apply Hi; [set_solver|done].
Qed.

Lemma filter_length_lt {A} (P Q : A → Prop)
    `{!∀ x, Decision (P x)} `{!∀ x, Decision (Q x)} (l : list A) x :
  (∀ y, y ∈ l → P y → Q y) → x ∈ l → ¬ P x → Q x →
  (length (filter P l) < length (filter Q l))%nat.
Proof.
  induction l as [|y l IH]; intros Hi Hx HP HQ; [set_solver|].
  rewrite !filter_cons.
  assert (length (filter P l) ≤ length (filter Q l))%nat
    by (apply filter_length_mono; intros z Hz; apply Hi; by apply list_elem_of_further).
  apply elem_of_cons in Hx as [Heq|Hx].
  - subst y. rewrite decide_False, decide_True by done. simpl. lia.
  - assert (length (filter P l) < length (filter Q l))%nat
      by (apply IH; [intros; apply Hi; set_solver|done..]).
    destruct (decide (P y)); destruct (decide (Q y)); simpl; try lia.
    destruct n. apply Hi; [set_solver|done].
Qed.

(** ** [std_sort] *)

Section StdSortFacts.
Context {A : Type} (comp : A → A → bool).

Lemma sort_insert_perm x l : sort_insert comp x l ≡ₚ x :: l.
Proof.
  induction l as [|y l IH]; simpl; [done|].
  destruct (comp x y); [done|].
  rewrite IH. apply Permutation_swap.
Qed.

Lemma std_sort_perm l : std_sort comp l ≡ₚ l.
Proof.
  induction l as [|x l IH]; simpl; [done|].
  rewrite sort_insert_perm. by rewrite IH.
Qed.

Lemma std_sort_length l : length (std_sort comp l) = length l.
Proof. by rewrite std_sort_perm. Qed.

Lemma std_sort_elem x l : x ∈ std_sort comp l ↔ x ∈ l.
Proof. by rewrite std_sort_perm. Qed.

Lemma std_sort_NoDup l : NoDup l → NoDup (std_sort comp l).
Proof. by rewrite std_sort_perm. Qed.

Context (Hst : StrictTotal comp).

Lemma st_asym a b : comp a b = true → comp b a = false.
Proof.
  intros Hab. destruct (comp b a) eqn:Hba; [|done].
  pose proof (st_trans _ Hst _ _ _ Hab Hba) as Haa.
  by rewrite (st_irrefl _ Hst) in Haa.
Qed.

Lemma st_connex a b : a ≠ b → comp a b = true ∨ comp b a = true.
Proof.
  intros Hne. destruct (comp a b) eqn:Hab; [by left|].
  destruct (comp b a) eqn:Hba; [by right|].
  destruct Hne. by apply (st_total _ Hst).
Qed.

Lemma not_after_trans a b c : not_after comp a b → not_after comp b c → not_after comp a c.
Proof.
  unfold not_after. intros Hba Hcb.
  destruct (comp c a) eqn:Hca; [|done].
  destruct (comp a b) eqn:Hab.
  - by rewrite (st_trans _ Hst _ _ _ Hca Hab) in Hcb.
  - assert (a = b) as -> by by apply (st_total _ Hst). congruence.
Qed.

Lemma not_after_antisym a b : not_after comp a b → not_after comp b a → a = b.
Proof. unfold not_after. intros. by apply (st_total _ Hst). Qed.

Lemma sort_insert_sorted x l :
  StronglySorted (not_after comp) l → StronglySorted (not_after comp) (sort_insert comp x l).
Proof.
  induction 1 as [|y l Hl IH Hy]; simpl.
  - repeat constructor.
  - destruct (comp x y) eqn:Hxy.
    + constructor; [by constructor|].
      assert (not_after comp x y) by by apply st_asym.
      constructor; [done|].
      eapply Forall_impl; [exact Hy|]. intros z ?. by eapply not_after_trans.
    + constructor; [done|].
      rewrite sort_insert_perm. by constructor.
Qed.

Lemma std_sort_sorted l : StronglySorted (not_after comp) (std_sort comp l).
Proof.
  induction l as [|x l IH]; simpl; [constructor|by apply sort_insert_sorted].
Qed.

(** Any algorithm that returns a sorted rearrangement returns this list. *)
Lemma std_sort_unique l l' :
  l' ≡ₚ l → StronglySorted (not_after comp) l' → l' = std_sort comp l.
Proof.
  intros Hp Hs. eapply StronglySorted_unique_strong; [| exact Hs | apply std_sort_sorted |].
  - intros x y _ _ ??. by apply not_after_antisym.
  - by rewrite std_sort_perm.
Qed.

(** In a sorted list without repetition the elements in front of [x] are
    exactly those the comparator puts before [x]. *)
Lemma sorted_prefix_filter l1 x l2 :
  NoDup (l1 ++ x :: l2) → StronglySorted (not_after comp) (l1 ++ x :: l2) →
  filter (λ y, comp y x = true) (l1 ++ x :: l2) = l1.
Proof.
  intros Hnd Hs.
  apply StronglySorted_app in Hs as (H12 & Hs1 & Hs2).
  apply NoDup_app in Hnd as (Hnd1 & Hnd12 & Hnd2).
  apply NoDup_cons in Hnd2 as [Hx2 _].
  apply StronglySorted_inv in Hs2 as [_ Hx].
  rewrite filter_app, filter_cons_False by (by rewrite (st_irrefl _ Hst)).
  rewrite (filter_none _ l2), app_nil_r.
  - apply filter_all. intros y Hy.
    assert (not_after comp y x) as Hyx by (apply (H12 y x); set_solver).
    destruct (st_connex y x) as [?|Hc]; [set_solver|done|].
    unfold not_after in Hyx. congruence.
  - intros y Hy.
    rewrite Forall_forall in Hx. specialize (Hx y Hy). unfold not_after in Hx.
    congruence.
Qed.
End StdSortFacts.

(** Sorting commutes with a map the comparator factors through. *)
Lemma std_sort_map {A B : Type} (f : A → B) (c1 : A → A → bool) (c2 : B → B → bool) l :
  (∀ a b, a ∈ l → b ∈ l → c1 a b = c2 (f a) (f b)) →
  map f (std_sort c1 l) = std_sort c2 (map f l).
Proof.
  induction l as [|x l IH]; intros Hc; simpl; [done|].
  rewrite <- IH by (intros; apply Hc; set_solver).
  assert (∀ y, y ∈ std_sort c1 l → c1 x y = c2 (f x) (f y)) as Hx.
  { intros y Hy. apply Hc; [set_solver|]. apply std_sort_elem in Hy. set_solver. }
  revert Hx. generalize (std_sort c1 l). intros m Hx.
  induction m as [|y m IHm]; simpl; [done|].
  rewrite <- Hx by set_solver.
  destruct (c1 x y); simpl; [done|].
  f_equal. apply IHm. intros; apply Hx; set_solver.
Qed.

Lemma std_sort_ext {A : Type} (c1 c2 : A → A → bool) l :
  (∀ a b, a ∈ l → b ∈ l → c1 a b = c2 a b) → std_sort c1 l = std_sort c2 l.
Proof.
  intros Hc. pose proof (std_sort_map id c1 c2 l Hc) as Hm.
  by rewrite !map_id in Hm.
Qed.

(** ** The comparisons are strict total orders *)

Lemma string_ltb_leb a b : String.ltb a b = negb (String.leb b a).
Proof.
  unfold String.ltb, String.leb. rewrite (String.compare_antisym a b).
  by destruct (String.compare b a).
Qed.

Lemma string_ltb_strict : StrictTotal String.ltb.
Proof.
  split.
  - intros a. rewrite string_ltb_leb.
    assert (String.le a a) as Hr by reflexivity.
    unfold String.le in Hr. by destruct (String.leb a a).
  - intros a b c. rewrite !string_ltb_leb, !negb_true_iff.
    intros Hba Hcb. destruct (String.leb c a) eqn:Hca; [|done].
    assert (String.le c a) as Hca' by (unfold String.le; by rewrite Hca).
    destruct (total String.le a b) as [Hab|Hab].
    + assert (String.le c b) as Hcb' by (by transitivity a).
      unfold String.le in Hcb'. by rewrite Hcb in Hcb'.
    + unfold String.le in Hab. by rewrite Hba in Hab.
  - intros a b. rewrite !string_ltb_leb, !negb_false_iff. intros Hba Hab.
    apply (anti_symm String.le); unfold String.le; by rewrite ?Hab, ?Hba.
Qed.

Lemma vec_lt_irrefl a : vec_lt a a = false.
Proof. induction a as [|x a IH]; simpl; [done|]. by rewrite Z.ltb_irrefl. Qed.

Lemma vec_lt_trans a b c : vec_lt a b = true → vec_lt b c = true → vec_lt a c = true.
Proof.
  revert b c. induction a as [|x a IH]; intros [|y b] [|z c]; simpl; try done.
  destruct (Z.ltb_spec x y), (Z.ltb_spec y x), (Z.ltb_spec y z), (Z.ltb_spec z y),
    (Z.ltb_spec x z), (Z.ltb_spec z x); try done; try lia.
  apply IH.
Qed.

Lemma vec_lt_total a b : vec_lt a b = false → vec_lt b a = false → a = b.
Proof.
  revert b. induction a as [|x a IH]; intros [|y b]; simpl; try done.
  destruct (Z.ltb_spec x y), (Z.ltb_spec y x); try done; try lia.
  intros ??. assert (x = y) as -> by lia. f_equal. by apply IH.
Qed.

(** The comparator of [calculateRanking], read as a lexicographic order:
    more solved first, then less penalty, then the smaller sequence of solve
    times, then the smaller name. *)
Lemma compare_infos_spec ta tb :
  compare_infos ta tb = true ↔
    info_solved tb < info_solved ta
    ∨ (info_solved ta = info_solved tb
       ∧ (info_penalty ta < info_penalty tb
          ∨ (info_penalty ta = info_penalty tb
             ∧ (vec_lt (info_times ta) (info_times tb) = true
                ∨ (info_times ta = info_times tb
                   ∧ String.ltb (info_name ta) (info_name tb) = true))))).
Proof.
  unfold compare_infos.
  destruct (Z.eqb_spec (info_solved ta) (info_solved tb)) as [Hs|Hs]; simpl.
  2: { rewrite Z.ltb_lt. lia. }
  destruct (Z.eqb_spec (info_penalty ta) (info_penalty tb)) as [Hp|Hp]; simpl.
  2: { rewrite Z.ltb_lt. lia. }
  destruct (bool_decide_reflect (info_times ta = info_times tb)) as [Ht|Ht]; simpl.
  - rewrite Ht, vec_lt_irrefl. intuition (try lia; try done).
  - intuition (try lia; try done).
Qed.

Lemma compare_infos_strict : StrictTotal compare_infos.
Proof.
  split.
  - intros a. destruct (compare_infos a a) eqn:H; [|done].
    apply compare_infos_spec in H. rewrite vec_lt_irrefl in H.
    rewrite (st_irrefl _ string_ltb_strict) in H. intuition (try lia; try done).
  - intros a b c Hab Hbc. apply compare_infos_spec in Hab, Hbc.
    apply compare_infos_spec.
    destruct Hab as [?|(? & [?|(? & [Ht1|(Ht1 & Hn1)])])];
      destruct Hbc as [?|(? & [?|(? & [Ht2|(Ht2 & Hn2)])])];
      try (left; lia); try (right; split; [lia|left; lia]);
      right; (split; [lia|]); right; (split; [lia|]).
    + left. by eapply vec_lt_trans.
    + left. by rewrite <- Ht2.
    + left. by rewrite Ht1.
    + right. split; [congruence|]. by eapply (st_trans _ string_ltb_strict).
  - intros a b Hab Hba.
    assert (¬ (compare_infos a b = true)) as Hab' by (by rewrite Hab).
    assert (¬ (compare_infos b a = true)) as Hba' by (by rewrite Hba).
    rewrite compare_infos_spec in Hab', Hba'.
    assert (info_solved a = info_solved b) as Hs by lia.
    assert (info_penalty a = info_penalty b) as Hp by lia.
    assert (info_times a = info_times b) as Ht.
    { apply vec_lt_total.
      - destruct (vec_lt (info_times a) (info_times b)); [|done].
        destruct Hab'. right. split; [done|]. right. split; [done|]. by left.
      - destruct (vec_lt (info_times b) (info_times a)); [|done].
        destruct Hba'. right. split; [done|]. right. split; [done|]. by left. }
    assert (info_name a = info_name b) as Hn.
    { apply (st_total _ string_ltb_strict).
      - destruct (String.ltb (info_name a) (info_name b)); [|done].
        destruct Hab'. right. split; [done|]. right. split; [done|]. by right.
      - destruct (String.ltb (info_name b) (info_name a)); [|done].
        destruct Hba'. right. split; [done|]. right. split; [done|]. by right. }
    destruct a, b; simpl in *; congruence.
Qed.

(** ** The ranking calculator, in closed form *)

Lemma team_of_touch n ts m : team_of (touch n ts) m = team_of ts m.
Proof.
  unfold team_of, touch. destruct (ts !! n) eqn:Hn; [done|].
  destruct (decide (n = m)) as [->|Hne].
  - by rewrite lookup_insert_eq, Hn.
  - by rewrite lookup_insert_ne.
Qed.

Lemma team_of_touch_all ns ts m : team_of (touch_all ns ts) m = team_of ts m.
Proof.
  revert ts. induction ns as [|n ns IH]; intros ts; simpl; [done|].
  unfold touch_all in *. simpl. by rewrite IH, team_of_touch.
Qed.

Lemma rank_info_team ts ts' pl n :
  team_of ts n = team_of ts' n → rank_info ts pl n = rank_info ts' pl n.
Proof. unfold rank_info. by intros ->. Qed.

Lemma rank_info_name ts pl n : info_name (rank_info ts pl n) = n.
Proof.
  unfold rank_info. simpl.
  generalize (team_of ts n). intros t.
  assert (∀ init, info_name (foldl (rank_info_step t) init pl) = info_name init) as H.
  { induction pl as [|p pl IH]; intros init; simpl; [done|].
    rewrite IH. unfold rank_info_step.
    destruct (problems t !! p) as [ps|]; [|done].
    by destruct (solved ps && wasSolvedBeforeFreeze ps). }
  by rewrite H.
Qed.

Lemma before_strict s : StrictTotal (before s).
Proof.
  pose proof compare_infos_strict as [Hi Ht Hc]. unfold before. split.
  - intros a. apply Hi.
  - intros a b c. apply Ht.
  - intros a b Hab Hba. pose proof (Hc _ _ Hab Hba) as Heq.
    apply (f_equal info_name) in Heq. by rewrite !rank_info_name in Heq.
Qed.

Lemma collect_infos_spec ns s :
  collect_infos ns s =
    (map (rank_info (teams s) (problemList s)) ns,
     set_teams (touch_all ns (teams s)) s).
Proof.
  revert s. induction ns as [|n ns IH]; intros s; simpl.
  - by destruct s.
  - rewrite IH. simpl. f_equal.
    f_equal. apply map_ext. intros m. apply rank_info_team, team_of_touch.
Qed.

Lemma map_nth_seq {A} (l : list A) d :
  map (λ i, nth i l d) (seq 0 (length l)) = l.
Proof.
  apply list_eq. intros i. rewrite list_lookup_fmap.
  destruct (decide (i < length l)%nat) as [Hi|Hi].
  - rewrite lookup_seq_lt by done. simpl.
    destruct (lookup_lt_is_Some_2 l i Hi) as [x Hx].
    by rewrite (nth_lookup_Some _ _ _ _ Hx).
  - rewrite lookup_seq_ge by lia. simpl. symmetry. apply lookup_ge_None. lia.
Qed.

Lemma calculateRanking_spec s :
  calculateRanking s =
    (number_ranks (ranking_names s),
     set_teams (touch_all (teamNames s) (teams s)) s).
Proof.
  unfold calculateRanking. rewrite collect_infos_spec. f_equal.
  unfold number_ranks, ranking_names.
  set (c1 := λ a b : nat, compare_infos _ _).
  assert (map (λ idx, nth idx (teamNames s) "") (std_sort c1 (seq 0 (length (teamNames s))))
          = std_sort (before s) (teamNames s)) as <-.
  { rewrite (std_sort_map _ c1 (before s)); [by rewrite map_nth_seq|].
    intros a b Ha Hb. unfold c1, before.
    apply elem_of_seq in Ha, Hb.
    destruct (lookup_lt_is_Some_2 (teamNames s) a) as [x Hx]; [lia|].
    destruct (lookup_lt_is_Some_2 (teamNames s) b) as [y Hy]; [lia|].
    rewrite (nth_lookup_Some _ _ _ _ Hx), (nth_lookup_Some _ _ _ _ Hy).
    rewrite !nth_lookup, !list_lookup_fmap, Hx, Hy. done. }
  by rewrite imap_fmap.
Qed.

(** Whatever algorithm [std::sort] runs: if the indices come back as a
    rearrangement in which no element is followed by one the comparator puts
    before it, the names in that order are [ranking_names]. *)
Lemma ranking_any_sort s (sorted : list nat) :
  sorted ≡ₚ seq 0 (length (teamNames s)) →
  StronglySorted
    (λ a b, before s (nth b (teamNames s) "") (nth a (teamNames s) "") = false) sorted →
  map (λ idx, nth idx (teamNames s) "") sorted = ranking_names s.
Proof.
  intros Hp Hs. apply (std_sort_unique _ (before_strict s)).
  - rewrite Hp. by rewrite map_nth_seq.
  - eapply (StronglySorted_fmap (λ idx, nth idx (teamNames s) "")); [|exact Hs].
    by intros a b.
Qed.

(** ** Looking up a ranking *)

Lemma find_first {A} (P : A → bool) (l : list A) i x :
  l !! i = Some x → P x = true →
  (∀ j y, (j < i)%nat → l !! j = Some y → P y = false) →
  find P l = Some x.
Proof.
  revert i. induction l as [|y l IH]; intros [|i] Hi Hx Hlt; simpl in *; try done.
  - injection Hi as ->. by rewrite Hx.
  - rewrite (Hlt 0%nat y) by (done || lia).
    apply (IH i); [done..|]. intros j z Hj Hz. apply (Hlt (S j) z); [lia|done].
Qed.

Lemma find_absent {A} (P : A → bool) (l : list A) :
  (∀ x, x ∈ l → P x = false) → find P l = None.
Proof.
  induction l as [|y l IH]; intros Hl; simpl; [done|].
  rewrite Hl by apply list_elem_of_here.
  apply IH. intros x Hx. apply Hl. by apply list_elem_of_further.
Qed.

Lemma number_ranks_lookup l i :
  number_ranks l !! i = (λ n, (n, Z.of_nat i + 1)) <$> l !! i.
Proof. unfold number_ranks. by rewrite list_lookup_imap. Qed.

Lemma number_ranks_fst l : map fst (number_ranks l) = l.
Proof.
  apply list_eq. intros i. rewrite list_lookup_fmap, number_ranks_lookup.
  by destruct (l !! i).
Qed.

Lemma number_ranks_snd l :
  map snd (number_ranks l) = map (λ i, Z.of_nat i + 1) (seq 0 (length l)).
Proof.
  apply list_eq. intros i. rewrite !list_lookup_fmap, number_ranks_lookup.
  destruct (l !! i) as [x|] eqn:Hx; simpl.
  - rewrite lookup_seq_lt by (by eapply lookup_lt_Some). done.
  - rewrite lookup_seq_ge; [done|]. apply lookup_ge_None in Hx. lia.
Qed.

Lemma number_ranks_elem l n r :
  (n, r) ∈ number_ranks l ↔ ∃ i : nat, l !! i = Some n ∧ r = Z.of_nat i + 1.
Proof.
  rewrite list_elem_of_lookup. split.
  - intros [i Hi]. exists i. rewrite number_ranks_lookup in Hi.
    destruct (l !! i); simpl in Hi; [|done]. by simplify_eq.
  - intros (i & Hi & ->). exists i. by rewrite number_ranks_lookup, Hi.
Qed.

Lemma rank_in_first l i n :
  l !! i = Some n → (∀ j, (j < i)%nat → l !! j ≠ Some n) →
  rank_in (number_ranks l) n = Z.of_nat i + 1.
Proof.
  intros Hi Hlt. unfold rank_in.
  rewrite (find_first _ _ i (n, Z.of_nat i + 1)); [done| |by apply bool_decide_eq_true|].
  - by rewrite number_ranks_lookup, Hi.
  - intros j [m r] Hj Hm. rewrite number_ranks_lookup in Hm.
    destruct (l !! j) as [m'|] eqn:Hm'; simpl in Hm; [|done].
    simplify_eq. apply bool_decide_eq_false. simpl. intros ->.
    by apply (Hlt j).
Qed.

Lemma rank_in_split l1 n l2 :
  n ∉ l1 → rank_in (number_ranks (l1 ++ n :: l2)) n = Z.of_nat (length l1) + 1.
Proof.
  intros Hn. apply rank_in_first.
  - by rewrite list_lookup_middle.
  - intros j Hj Hjn. rewrite lookup_app_l in Hjn by done.
    apply Hn. by eapply list_elem_of_lookup_2.
Qed.

Lemma rank_in_absent l n : n ∉ l → rank_in (number_ranks l) n = 0.
Proof.
  intros Hn. unfold rank_in. rewrite find_absent; [done|].
  intros [m r] Hm. apply bool_decide_eq_false. simpl. intros ->.
  apply number_ranks_elem in Hm as (i & Hi & _). apply Hn.
  by eapply list_elem_of_lookup_2.
Qed.

Lemma team_at_lookup l i n :
  l !! i = Some n → team_at (number_ranks l) (Z.of_nat i + 1) = n.
Proof.
  intros Hi. unfold team_at.
  rewrite (find_first _ _ i (n, Z.of_nat i + 1)); [done| |simpl; lia|].
  - by rewrite number_ranks_lookup, Hi.
  - intros j [m r] Hj Hm. rewrite number_ranks_lookup in Hm.
    destruct (l !! j); simpl in Hm; [|done]. simplify_eq. simpl. lia.
Qed.

(** ** Places in the ranking *)

Lemma ranking_names_perm s : ranking_names s ≡ₚ teamNames s.
Proof. apply std_sort_perm. Qed.

Lemma ranking_names_sorted s :
  StronglySorted (not_after (before s)) (ranking_names s).
Proof. apply std_sort_sorted, before_strict. Qed.

(** With distinct team names, the rank of a registered team is one more
    than the number of teams the comparator puts before it. *)
Lemma rank_in_ahead s n :
  NoDup (teamNames s) → n ∈ teamNames s →
  rank_in (number_ranks (ranking_names s)) n = Z.of_nat (ahead s n) + 1.
Proof.
  intros Hnd Hn. unfold ahead.
  rewrite <- (ranking_names_perm s) in Hnd, Hn |- *.
  pose proof (ranking_names_sorted s) as Hs.
  apply list_elem_of_split in Hn as (l1 & l2 & Heq). rewrite Heq in *.
  rewrite (sorted_prefix_filter _ (before_strict s)) by done.
  apply rank_in_split.
  apply NoDup_app in Hnd as (_ & Hd & _). intros Hin. apply (Hd n Hin). set_solver.
Qed.

Lemma sort_descending_sorted l :
  StronglySorted (λ x y, y ≤ x) (sort_descending l).
Proof.
  assert (StrictTotal (λ a b : Z, b <? a)) as Hst.
  { split.
    - intros a. apply Z.ltb_irrefl.
    - intros a b c. rewrite !Z.ltb_lt. lia.
    - intros a b. rewrite !Z.ltb_ge. lia. }
  pose proof (std_sort_sorted _ Hst l) as Hs.
  unfold sort_descending. revert Hs.
  generalize (std_sort (λ a b : Z, b <? a) l). intros m Hs.
  induction Hs as [|x m Hm IH Hx]; constructor; [done|].
  eapply Forall_impl; [exact Hx|].
  intros y. unfold not_after. rewrite Z.ltb_ge. lia.
Qed.

Lemma ahead_lt s a b :
  a ∈ teamNames s → before s a b = true → (ahead s a < ahead s b)%nat.
Proof.
  intros Ha Hab. pose proof (before_strict s) as Hst. unfold ahead.
  apply (filter_length_lt _ _ _ a); [|done| |done].
  - intros u _ Hu. by apply (st_trans _ Hst u a b).
  - by rewrite (st_irrefl _ Hst).
Qed.

Lemma ahead_bound s a : a ∈ teamNames s → (ahead s a < length (teamNames s))%nat.
Proof.
  intros Ha. unfold ahead. apply (length_filter_lt _ _ a); [done|].
  by rewrite (st_irrefl _ (before_strict s)).
Qed.

(** ** The key of a team *)

Lemma wrap_int_small z : - 2 ^ 31 ≤ z < 2 ^ 31 → wrap_int z = z.
Proof. intros Hz. unfold wrap_int. rewrite Z.mod_small; lia. Qed.

Lemma wrap_int_add_l a b : wrap_int (wrap_int a + b) = wrap_int (a + b).
Proof.
  unfold wrap_int. f_equal.
  replace ((a + 2 ^ 31) `mod` 2 ^ 32 - 2 ^ 31 + b + 2 ^ 31)
    with ((a + 2 ^ 31) `mod` 2 ^ 32 + b) by lia.
  rewrite Zplus_mod_idemp_l. f_equal. lia.
Qed.

Lemma wrap_int_add_r a b : wrap_int (a + wrap_int b) = wrap_int (a + b).
Proof. rewrite Z.add_comm, wrap_int_add_l. f_equal. lia. Qed.

(** The three operations of a penalty step wrap as one. *)
Lemma int_penalty pen tm w :
  int_add pen (int_add tm (int_mul 20 w)) = wrap_int (pen + (tm + 20 * w)).
Proof. unfold int_add, int_mul. by rewrite (wrap_int_add_r tm), wrap_int_add_r. Qed.

Lemma wrap_int_idem z : wrap_int (wrap_int z) = wrap_int z.
Proof. pose proof (wrap_int_add_l z 0) as H0. by rewrite !Z.add_0_r in H0. Qed.

Lemma rank_info_step_status t info p :
  rank_info_step t info p =
    let ps := status_of t p in
    if solved ps && wasSolvedBeforeFreeze ps then
      mkTeamRankInfo (info_name info) (info_solved info + 1)
        (int_add (info_penalty info)
           (int_add (solveTime ps) (int_mul 20 (wrongAttempts ps))))
        (info_times info ++ [solveTime ps])
    else info.
Proof.
  unfold rank_info_step, status_of. by destruct (problems t !! p).
Qed.

(** The loop of [getTeamRankInfo], in closed form. *)
Lemma rank_info_fold t init pl :
  wrap_int (info_penalty init) = info_penalty init →
  foldl (rank_info_step t) init pl =
    mkTeamRankInfo (info_name init)
      (info_solved init + Z.of_nat (length (counted_problems t pl)))
      (wrap_int (info_penalty init
                 + sum_Z (map (problem_penalty t) (counted_problems t pl))))
      (info_times init ++ map (λ p, solveTime (status_of t p)) (counted_problems t pl)).
Proof.
  revert init. induction pl as [|p pl IH]; intros init Hint; simpl.
  - rewrite !Z.add_0_r, Hint. destruct init; simpl. by rewrite app_nil_r.
  - rewrite rank_info_step_status. cbv zeta. fold (counted (status_of t p)).
    unfold counted_problems. rewrite filter_cons.
    destruct (decide (counted (status_of t p) = true)) as [E|E].
    + rewrite E, int_penalty, IH by apply wrap_int_idem.
      cbn [info_penalty info_solved info_name info_times length map sum_Z foldr].
      rewrite wrap_int_add_l. fold (problem_penalty t p).
      fold (counted_problems t pl). fold (sum_Z (map (problem_penalty t) (counted_problems t pl))).
      f_equal; [lia|f_equal; lia|by rewrite <- app_assoc].
    + apply not_true_is_false in E. rewrite E. by apply IH.
Qed.

(** C1. The ranking calculator orders the teams by more problems solved,
    then less penalty, then the lexicographically smaller descending
    sequence of solve times, then the smaller team name (byte-wise, hence
    case-sensitive).  The solved count of a team is the number of problems
    of the contest for which both of its flags are set; its penalty is the
    sum over these problems of the solve time plus 20 for every wrong
    attempt, as a 32-bit [int] (the sum itself whenever it is in range);
    its sequence of times holds the solve times of these problems, each
    once, in descending order.  Of two distinct registered teams exactly
    one is placed before the other; the ranks written are 1, 2, ..., n in
    list order, the ranked names are a rearrangement of the registered
    names, a team is ranked before another exactly when the comparator says
    so, and no two teams share a rank. *)
Theorem C1_ranking_total_order (s : ICPCSystem) (a b : string) :
  NoDup (teamNames s) → a ∈ teamNames s → b ∈ teamNames s → a ≠ b →
  let ia := rank_info (teams s) (problemList s) a in
  let ib := rank_info (teams s) (problemList s) b in
  let ranking := (calculateRanking s).1 in
  let counted_a := counted_problems (team_of (teams s) a) (problemList s) in
  let total_a := sum_Z (map (problem_penalty (team_of (teams s) a)) counted_a) in
  (compare_infos ia ib = true ↔
     info_solved ib < info_solved ia
     ∨ (info_solved ia = info_solved ib
        ∧ (info_penalty ia < info_penalty ib
           ∨ (info_penalty ia = info_penalty ib
              ∧ (vec_lt (info_times ia) (info_times ib) = true
                 ∨ (info_times ia = info_times ib ∧ String.ltb a b = true))))))
  ∧ StronglySorted (λ x y, y ≤ x) (info_times ia)
  ∧ info_solved ia = Z.of_nat (length counted_a)
  ∧ info_penalty ia = wrap_int total_a
  ∧ (- 2 ^ 31 ≤ total_a < 2 ^ 31 → info_penalty ia = total_a)
  ∧ info_times ia
    ≡ₚ map (λ p, solveTime (status_of (team_of (teams s) a) p)) counted_a
  ∧ (compare_infos ia ib = true ∧ compare_infos ib ia = false
     ∨ compare_infos ia ib = false ∧ compare_infos ib ia = true)
  ∧ map snd ranking = map (λ i, Z.of_nat i + 1) (seq 0 (length (teamNames s)))
  ∧ map fst ranking ≡ₚ teamNames s
  ∧ (rank_in ranking a < rank_in ranking b ↔ compare_infos ia ib = true)
  ∧ rank_in ranking a ≠ rank_in ranking b
  ∧ 1 ≤ rank_in ranking a ≤ Z.of_nat (length (teamNames s)).
Proof.
  intros Hnd Ha Hb Hne ia ib ranking counted_a total_a.
  pose proof (before_strict s) as Hst.
  assert (ia = mkTeamRankInfo a (Z.of_nat (length counted_a)) (wrap_int total_a)
                 (sort_descending
                    (map (λ p, solveTime (status_of (team_of (teams s) a) p)) counted_a)))
    as Hia.
  { unfold ia, rank_info. rewrite rank_info_fold by reflexivity.
    cbn [info_name info_solved info_penalty info_times app]. by rewrite !Z.add_0_l. }
  assert (before s a b = compare_infos ia ib) as Eab by done.
  assert (before s b a = compare_infos ib ia) as Eba by done.
  assert (compare_infos ia ib = true ∧ compare_infos ib ia = false
          ∨ compare_infos ia ib = false ∧ compare_infos ib ia = true) as Hone.
  { rewrite <- Eab, <- Eba. destruct (st_connex _ Hst a b Hne) as [H|H].
    - left. split; [done|]. by apply (st_asym _ Hst).
    - right. split; [|done]. by apply (st_asym _ Hst). }
  assert (rank_in ranking a = Z.of_nat (ahead s a) + 1) as Ra.
  { unfold ranking. rewrite calculateRanking_spec. by apply rank_in_ahead. }
  assert (rank_in ranking b = Z.of_nat (ahead s b) + 1) as Rb.
  { unfold ranking. rewrite calculateRanking_spec. by apply rank_in_ahead. }
  assert (rank_in ranking a < rank_in ranking b ↔ compare_infos ia ib = true) as Hlt.
  { rewrite Ra, Rb. split.
    - intros Hr. destruct Hone as [[? _]|[_ Hba]]; [done|].
      rewrite <- Eba in Hba. pose proof (ahead_lt s b a Hb Hba). lia.
    - intros Hab. rewrite <- Eab in Hab. pose proof (ahead_lt s a b Ha Hab). lia. }
  split_and!; try done.
  - rewrite compare_infos_spec. subst ia ib. by rewrite !rank_info_name.
  - apply sort_descending_sorted.
  - by rewrite Hia.
  - by rewrite Hia.
  - intros Hrange. rewrite Hia. by apply wrap_int_small.
  - rewrite Hia. unfold sort_descending. apply std_sort_perm.
  - unfold ranking. rewrite calculateRanking_spec. simpl.
    unfold ranking_names. by rewrite number_ranks_snd, std_sort_length.
  - unfold ranking. rewrite calculateRanking_spec. simpl.
    rewrite number_ranks_fst. apply ranking_names_perm.
  - rewrite Ra, Rb. intros Heq.
    destruct Hone as [[Hab _]|[_ Hba]].
    + rewrite <- Eab in Hab. pose proof (ahead_lt s a b Ha Hab). lia.
    + rewrite <- Eba in Hba. pose proof (ahead_lt s b a Hb Hba). lia.
  - lia.
  - rewrite Ra. pose proof (ahead_bound s a Ha). lia.
Qed.

(** ** The ranking reads the visible fields only *)

Lemma foldl_ext_in {A B} (f g : A → B → A) (l : list B) a :
  (∀ acc x, x ∈ l → f acc x = g acc x) → foldl f a l = foldl g a l.
Proof.
  revert a. induction l as [|x l IH]; intros a Hfg; simpl; [done|].
  rewrite Hfg by apply list_elem_of_here.
  apply IH. intros acc y Hy. apply Hfg. by apply list_elem_of_further.
Qed.

Lemma score_step_status t acc p :
  score_step t acc p =
    let ps := status_of t p in
    if solved ps && wasSolvedBeforeFreeze ps
    then (acc.1 + 1,
          int_add acc.2 (int_add (solveTime ps) (int_mul 20 (wrongAttempts ps))))
    else acc.
Proof.
  unfold score_step, status_of. by destruct (problems t !! p).
Qed.

Lemma rank_info_visible (t1 t2 : gmap string Team) pl n :
  (∀ p, p ∈ pl → visible_fields (status_of (team_of t1 n) p)
                 = visible_fields (status_of (team_of t2 n) p)) →
  rank_info t1 pl n = rank_info t2 pl n.
Proof.
  intros Hv. unfold rank_info.
  rewrite (foldl_ext_in (rank_info_step (team_of t1 n)) (rank_info_step (team_of t2 n)));
    [done|].
  intros acc p Hp. rewrite !rank_info_step_status. simpl.
  specialize (Hv p Hp). unfold visible_fields in Hv.
  injection Hv as H1 H2 H3 H4. by rewrite H1, H2, H3, H4.
Qed.

(** C6. The ranking (order, ranks, solved counts, penalties) is a function
    of the [solved], [solveTime], [wrongAttempts] and [wasSolvedBeforeFreeze]
    fields of the registered teams' problem states: two systems that agree on
    them give the same ranking, the same rank information for every
    registered team and the same scoreboard totals, whatever their
    [frozenSubs] queues hold. *)
Theorem C6_ranking_ignores_hidden (s1 s2 : ICPCSystem) :
  agree_visible s1 s2 →
  (calculateRanking s1).1 = (calculateRanking s2).1
  ∧ (∀ n, n ∈ teamNames s1 →
       rank_info (teams s1) (problemList s1) n = rank_info (teams s2) (problemList s2) n)
  ∧ (∀ n, n ∈ teamNames s1 →
       foldl (score_step (team_of (teams s1) n)) (0, 0) (problemList s1)
       = foldl (score_step (team_of (teams s2) n)) (0, 0) (problemList s2)).
Proof.
  intros (Hn & Hp & Hv).
  assert (∀ n, n ∈ teamNames s1 →
    rank_info (teams s1) (problemList s1) n = rank_info (teams s2) (problemList s2) n)
    as Hinfo.
  { intros n Hin. rewrite <- Hp. apply rank_info_visible. intros p Hpl. by apply Hv. }
  split_and!; [|done|].
  - rewrite !calculateRanking_spec. simpl. f_equal.
    unfold ranking_names. rewrite <- Hn. apply std_sort_ext.
    intros a b Ha Hb. unfold before. by rewrite !Hinfo.
  - intros n Hin. rewrite <- Hp. apply foldl_ext_in.
    intros acc p Hpl. rewrite !score_step_status. simpl.
    specialize (Hv n p Hin Hpl). unfold visible_fields in Hv.
    injection Hv as H1 H2 H3 H4. by rewrite H1, H2, H3, H4.
Qed.

(** ** [submit] *)

Lemma touch_lookup_ne n ts m : n ≠ m → touch n ts !! m = ts !! m.
Proof.
  intros Hne. unfold touch. destruct (ts !! n); [done|]. by rewrite lookup_insert_ne.
Qed.

Lemma touch_is_Some n ts m : is_Some (ts !! m) → touch n ts !! m = ts !! m.
Proof.
  intros Hm. unfold touch. destruct (ts !! n) eqn:Hn; [done|].
  rewrite lookup_insert_ne; [done|]. intros ->. rewrite Hn in Hm. by destruct Hm.
Qed.

Lemma touch_known n ts : is_Some (ts !! n) → touch n ts = ts.
Proof. intros [t Ht]. unfold touch. by rewrite Ht. Qed.

Lemma touch_self n ts : touch n ts !! n = Some (team_of ts n).
Proof.
  unfold touch, team_of. destruct (ts !! n) eqn:Hn; simpl; [done|].
  by rewrite lookup_insert_eq.
Qed.

(** The entry [submit] leaves for the submitting team. *)
Lemma submit_team prob teamName stat tm s :
  let t0 := team_of (teams s) teamName in
  teams (submit prob teamName stat tm s) !! teamName =
    Some (mkTeam (name t0)
            (<[prob := submit_status (frozen s) (mkSubmission prob stat tm)
                         (status_of t0 prob)]> (problems t0))
            (submissions t0 ++ [mkSubmission prob stat tm])).
Proof.
  intros t0. unfold submit. simpl. rewrite lookup_insert_eq.
  rewrite team_of_touch. fold t0. f_equal. f_equal.
  unfold status_of. destruct (problems t0 !! prob) as [ps|] eqn:Hps; simpl.
  - by rewrite Hps.
  - by rewrite lookup_insert_eq, insert_insert_eq.
Qed.

Lemma submit_other prob teamName stat tm s n :
  n ≠ teamName → teams (submit prob teamName stat tm s) !! n = teams s !! n.
Proof.
  intros Hne. unfold submit. simpl.
  rewrite lookup_insert_ne by congruence. apply touch_lookup_ne. congruence.
Qed.

(** C2. Every [submit] appends the submission to the team's ledger.  If the
    board is not frozen, or the problem's [wasSolvedBeforeFreeze] is set, the
    submission applies normally: on a problem not yet solved, [Accepted] sets
    [solved], [solveTime = time] and [wasSolvedBeforeFreeze], any other
    verdict adds one to [wrongAttempts]; on a solved problem the status stays
    as it is; the queue [frozenSubs] is untouched, so a submission made while
    frozen to a problem whose flag is set is not hidden.  Otherwise (frozen,
    flag not set) the submission is appended to [frozenSubs] and the other
    fields, [solved] and [wrongAttempts] among them, stay.  Nothing else in
    the system changes. *)
Theorem C2_submit_write_path (s : ICPCSystem) (prob teamName stat : string) (tm : Z) :
  let sub := mkSubmission prob stat tm in
  let t0 := team_of (teams s) teamName in
  let ps0 := status_of t0 prob in
  let s' := submit prob teamName stat tm s in
  let t1 := team_of (teams s') teamName in
  let ps1 := status_of t1 prob in
  is_Some (teams s' !! teamName)
  ∧ submissions t1 = submissions t0 ++ [sub]
  ∧ (frozen s = false ∨ wasSolvedBeforeFreeze ps0 = true →
       frozenSubs ps1 = frozenSubs ps0
       ∧ (solved ps0 = false → stat = "Accepted" →
            ps1 = mkProblemStatus true tm (wrongAttempts ps0) (frozenSubs ps0) true)
       ∧ (solved ps0 = false → stat ≠ "Accepted" →
            ps1 = mkProblemStatus false (solveTime ps0) (wrongAttempts ps0 + 1)
                    (frozenSubs ps0) (wasSolvedBeforeFreeze ps0))
       ∧ (solved ps0 = true → ps1 = ps0))
  ∧ (frozen s = true → wasSolvedBeforeFreeze ps0 = false →
       ps1 = mkProblemStatus (solved ps0) (solveTime ps0) (wrongAttempts ps0)
               (frozenSubs ps0 ++ [sub]) (wasSolvedBeforeFreeze ps0))
  ∧ (∀ p, p ≠ prob → problems t1 !! p = problems t0 !! p)
  ∧ name t1 = name t0
  ∧ (∀ n, n ≠ teamName → teams s' !! n = teams s !! n)
  ∧ teamNames s' = teamNames s ∧ frozen s' = frozen s ∧ started s' = started s
  ∧ problemList s' = problemList s ∧ lastRanking s' = lastRanking s.
Proof.
  intros sub t0 ps0 s' t1 ps1.
  pose proof (submit_team prob teamName stat tm s) as Ht. cbv zeta in Ht.
  fold t0 ps0 sub s' in Ht.
  assert (t1 = mkTeam (name t0) (<[prob := submit_status (frozen s) sub ps0]> (problems t0))
                 (submissions t0 ++ [sub])) as Et1.
  { unfold t1, team_of. by rewrite Ht. }
  assert (ps1 = submit_status (frozen s) sub ps0) as Eps1.
  { unfold ps1, status_of. rewrite Et1. simpl. by rewrite lookup_insert_eq. }
  assert (is_Some (teams s' !! teamName)) as Hknown by (by rewrite Ht).
  assert (∀ n, n ≠ teamName → teams s' !! n = teams s !! n) as Hother
    by (intros n Hn; by apply submit_other).
  assert (teamNames s' = teamNames s ∧ frozen s' = frozen s ∧ started s' = started s
          ∧ problemList s' = problemList s ∧ lastRanking s' = lastRanking s) as Hrest
    by done.
  clearbody s' t1 ps1. subst t1 ps1.
  split_and!; try done; try apply Hrest.
  - intros Hvis. unfold submit_status.
    assert (frozen s && negb (wasSolvedBeforeFreeze ps0) = false) as ->.
    { destruct Hvis as [-> | ->]; [done|]. by rewrite andb_false_r. }
    unfold apply_visible. simpl. split_and!.
    + destruct (solved ps0); [done|]. simpl. by destruct (String.eqb stat "Accepted").
    + intros -> ->. done.
    + intros Hs Hne. rewrite Hs. simpl.
      by destruct (String.eqb_spec stat "Accepted").
    + intros Hs. by rewrite Hs.
  - intros Hf Hw. unfold submit_status, set_frozenSubs. by rewrite Hf, Hw.
  - intros p Hp. simpl. by rewrite lookup_insert_ne.
Qed.

(** ** The scan at the head of the scroll loop *)

Lemma find_Some_iff {A} (P : A → bool) (l : list A) :
  is_Some (find P l) ↔ ∃ x, x ∈ l ∧ P x = true.
Proof.
  split.
  - intros [x Hx]. apply find_some in Hx as [Hin HP].
    exists x. split; [by apply list_elem_of_In|done].
  - intros (x & Hin & HP). destruct (find P l) eqn:Hf; [done|].
    rewrite (find_none _ _ Hf x) in HP; [done|]. by apply list_elem_of_In.
Qed.

(** [find] returns the first element that satisfies the test. *)
Lemma find_Some_split {A} (P : A → bool) (l : list A) x :
  find P l = Some x →
  ∃ l1 l2, l = l1 ++ x :: l2 ∧ P x = true ∧ ∀ y, y ∈ l1 → P y = false.
Proof.
  induction l as [|y l IH]; simpl; [done|].
  destruct (P y) eqn:Hy.
  - intros [= ->]. exists [], l. split_and!; [done..|]. intros z Hz. by apply elem_of_nil in Hz.
  - intros Hf. destruct (IH Hf) as (l1 & l2 & -> & Hx & Hl1).
    exists (y :: l1), l2. split_and!; [done..|].
    intros z [->|Hz]%elem_of_cons; [done|by apply Hl1].
Qed.

Lemma candidate_find ts pl n :
  candidate ts pl n ↔ is_Some (find (has_frozen (team_of ts n)) pl).
Proof. unfold candidate. by rewrite find_Some_iff. Qed.

Lemma candidate_touch n ts pl m : candidate (touch n ts) pl m ↔ candidate ts pl m.
Proof. unfold candidate. by rewrite team_of_touch. Qed.

Lemma touch_all_cons n ns ts : touch_all (n :: ns) ts = touch_all ns (touch n ts).
Proof. done. Qed.

Lemma select_loop_teams R pl ts acc :
  (select_loop R pl ts acc).2 = touch_all (map fst R) ts.
Proof.
  revert ts acc. induction R as [|p R IH]; intros ts acc; simpl; [done|].
  by rewrite IH.
Qed.

(** What the scan has computed when it ends. *)
Lemma select_loop_spec R pl ts acc :
  let acc' := (select_loop R pl ts acc).1 in
  (hasFrozen acc' = true ↔
     hasFrozen acc = true ∨ ∃ p, p ∈ R ∧ candidate ts pl p.1)
  ∧ lowestRank acc ≤ lowestRank acc'
  ∧ (∀ p, p ∈ R → candidate ts pl p.1 → p.2 ≤ lowestRank acc')
  ∧ ((lowestTeam acc' = lowestTeam acc ∧ lowestRank acc' = lowestRank acc)
     ∨ ((lowestTeam acc', lowestRank acc') ∈ R ∧ candidate ts pl (lowestTeam acc'))).
Proof.
  revert ts acc. induction R as [|p R IH]; intros ts acc; simpl.
  - split_and!; [|lia| |by left].
    + split; [by left|]. intros [?|(p & Hp & _)]; [done|]. by apply elem_of_nil in Hp.
    + intros p Hp. by apply elem_of_nil in Hp.
  - set (t := team_of (touch p.1 ts) p.1).
    set (acc1 := match find (has_frozen t) pl with Some _ => _ | None => acc end).
    destruct (IH (touch p.1 ts) acc1) as (Hh & Hle & Hmax & Hsel).
    assert (candidate ts pl p.1 ↔ is_Some (find (has_frozen t) pl)) as Hc.
    { rewrite candidate_find. unfold t. by rewrite team_of_touch. }
    assert (hasFrozen acc1 = true ↔ hasFrozen acc = true ∨ candidate ts pl p.1) as Hh1.
    { rewrite Hc. unfold acc1. destruct (find (has_frozen t) pl).
      - destruct (lowestRank acc <? p.2); simpl; split; eauto.
      - split; [by left|]. intros [?|[? ?]]; done. }
    assert (lowestRank acc ≤ lowestRank acc1) as Hle1.
    { unfold acc1. destruct (find (has_frozen t) pl); [|lia].
      destruct (Z.ltb_spec (lowestRank acc) p.2); simpl; lia. }
    assert (candidate ts pl p.1 → p.2 ≤ lowestRank acc1) as Hp1.
    { rewrite Hc. unfold acc1. intros [x Hx]. rewrite Hx.
      destruct (Z.ltb_spec (lowestRank acc) p.2); simpl; lia. }
    assert ((lowestTeam acc1 = lowestTeam acc ∧ lowestRank acc1 = lowestRank acc)
            ∨ ((lowestTeam acc1, lowestRank acc1) = p ∧ candidate ts pl p.1)) as Hs1.
    { rewrite Hc. unfold acc1. destruct (find (has_frozen t) pl); [|by left].
      destruct (lowestRank acc <? p.2); simpl; [right|by left].
      split; [by destruct p|done]. }
    split_and!.
    + rewrite Hh, Hh1. setoid_rewrite candidate_touch. split.
      * intros [[?|?]|(q & Hq & Hcq)]; [by left|right; exists p|right; exists q];
          (split; [|done]); [apply list_elem_of_here|by apply list_elem_of_further].
      * intros [?|(q & [->|Hq]%elem_of_cons & Hcq)]; [left; by left|left; by right|].
        right. by exists q.
    + lia.
    + intros q [->|Hq]%elem_of_cons Hcq.
      * specialize (Hp1 Hcq). lia.
      * apply Hmax; [done|]. by apply candidate_touch.
    + destruct Hsel as [[Ht Hr]|[Hin Hcand]].
      * rewrite Ht, Hr. destruct Hs1 as [?|[Hp Hcp]]; [by left|right].
        rewrite Hp. split; [apply list_elem_of_here|]. by rewrite <- Hp in Hcp.
      * right. split; [by apply list_elem_of_further|]. by apply candidate_touch in Hcand.
Qed.

(** ** One reveal *)

Lemma before_view s s' a b : same_view s s' → before s' a b = before s a b.
Proof.
  intros (_ & Hp & Ht). unfold before. rewrite Hp.
  by rewrite !(rank_info_team (teams s') (teams s)).
Qed.

Lemma ranking_names_view s s' : same_view s s' → ranking_names s' = ranking_names s.
Proof.
  intros Hv. unfold ranking_names. destruct Hv as (Hn & Hp & Ht) eqn:E. rewrite Hn.
  apply std_sort_ext. intros a b _ _. by apply before_view.
Qed.

Lemma scroll_step_unfold s :
  scroll_step s =
    let sel := selection s in
    let t := lowestTeam sel in
    if negb (hasFrozen sel)
    then Finished (set_teams (touch_all (map fst (lastRanking s)) (teams s)) s)
    else
      let s3 := revealed s in
      let ranking := number_ranks (ranking_names s3) in
      let s5 := set_lastRanking ranking
                  (set_teams (touch_all (teamNames s) (teams s3)) s3) in
      let newRank := rank_in ranking t in
      if newRank <? lowestRank sel then
        Revealed (set_teams (touch t (teams s5)) s5)
          [ScrollChange t (team_at ranking (newRank + 1))
             (info_solved (rank_info (teams s5) (problemList s) t))
             (info_penalty (rank_info (teams s5) (problemList s) t))]
      else Revealed s5 [].
Proof.
  unfold scroll_step.
  pose proof (select_loop_teams (lastRanking s) (problemList s) (teams s)
                (mkSelection false "" 0)) as Hts.
  assert (selection s = (select_loop (lastRanking s) (problemList s) (teams s)
                           (mkSelection false "" 0)).1) as Hsel by done.
  destruct (select_loop _ _ _ _) as [sel ts1]. simpl in Hts, Hsel.
  rewrite Hsel. subst ts1. cbv zeta.
  destruct (hasFrozen sel); simpl; [|done].
  match goal with |- context [calculateRanking ?x] =>
    assert (x = revealed s) as ->
  end.
  { unfold revealed. rewrite Hsel. cbv zeta.
    by rewrite team_of_touch, team_of_touch_all. }
  rewrite calculateRanking_spec. unfold getTeamRankInfo. simpl.
  destruct (_ <? _); reflexivity.
Qed.

Lemma loop_head_ranking s : loop_head s ↔ lastRanking s = number_ranks (ranking_names s).
Proof. unfold loop_head. by rewrite calculateRanking_spec. Qed.

Lemma ranked_registered s n r :
  (n, r) ∈ number_ranks (ranking_names s) → n ∈ teamNames s ∧ 1 ≤ r.
Proof.
  intros (i & Hi & ->)%number_ranks_elem. split; [|lia].
  rewrite <- ranking_names_perm. by eapply list_elem_of_lookup_2.
Qed.

Lemma registered_ranked s n :
  n ∈ teamNames s → ∃ r, (n, r) ∈ number_ranks (ranking_names s).
Proof.
  rewrite <- ranking_names_perm. intros (i & Hi)%list_elem_of_lookup_1.
  exists (Z.of_nat i + 1). apply number_ranks_elem. by exists i.
Qed.

Lemma rank_in_elem l n r :
  NoDup l → (n, r) ∈ number_ranks l → rank_in (number_ranks l) n = r.
Proof.
  intros Hnd (i & Hi & ->)%number_ranks_elem. apply rank_in_first; [done|].
  intros j Hj Hjn. pose proof (NoDup_lookup _ _ _ _ Hnd Hi Hjn). lia.
Qed.

(** The scan selects, among the ranked teams that are candidates, the one
    with the largest rank; it reports [hasFrozen] exactly when there is a
    candidate. *)
Lemma selection_spec s :
  loop_head s →
  let sel := selection s in
  (hasFrozen sel = true ↔ ∃ n, n ∈ teamNames s ∧ candidate (teams s) (problemList s) n)
  ∧ (hasFrozen sel = true →
       (lowestTeam sel, lowestRank sel) ∈ lastRanking s
       ∧ candidate (teams s) (problemList s) (lowestTeam sel)
       ∧ ∀ p, p ∈ lastRanking s → candidate (teams s) (problemList s) p.1 →
           p.2 ≤ lowestRank sel).
Proof.
  intros Hh%loop_head_ranking. unfold selection.
  pose proof (select_loop_spec (lastRanking s) (problemList s) (teams s)
                (mkSelection false "" 0)) as (Hf & Hle & Hmax & Hsel).
  simpl in *. set (sel := (select_loop _ _ _ _).1) in *.
  assert (hasFrozen sel = true ↔
          ∃ n, n ∈ teamNames s ∧ candidate (teams s) (problemList s) n) as Hiff.
  { rewrite Hf. split.
    - intros [?|([n r] & Hp & Hc)]; [done|]. exists n. split; [|done].
      rewrite Hh in Hp. by apply ranked_registered in Hp as [? _].
    - intros (n & Hn & Hc). right. apply registered_ranked in Hn as [r Hr].
      exists (n, r). by rewrite Hh. }
  split; [done|]. intros Hhas. apply Hf in Hhas as [?|(p & Hp & Hc)]; [done|].
  assert (1 ≤ lowestRank sel) as Hpos.
  { specialize (Hmax p Hp Hc). destruct p as [n r]. rewrite Hh in Hp.
    apply ranked_registered in Hp as [_ ?]. simpl in *. lia. }
  destruct Hsel as [[_ Hr]|[Hin Hcand]]; [lia|]. done.
Qed.

Lemma revealed_team_of s n :
  team_of (teams (revealed s)) n =
    if decide (n = lowestTeam (selection s))
    then reveal_team (team_of (teams s) n) (problemList s)
    else team_of (teams s) n.
Proof.
  unfold revealed. simpl. unfold team_of at 1.
  destruct (decide (n = lowestTeam (selection s))) as [->|Hne].
  - by rewrite lookup_insert_eq.
  - rewrite lookup_insert_ne by done.
    fold (team_of (touch (lowestTeam (selection s))
                     (touch_all (map fst (lastRanking s)) (teams s))) n).
    by rewrite team_of_touch, team_of_touch_all.
Qed.

Lemma same_view_refl s : same_view s s.
Proof. done. Qed.

Lemma same_view_touch s ns : same_view s (set_teams (touch_all ns (teams s)) s).
Proof. split_and!; [done..|]. intros n. simpl. apply team_of_touch_all. Qed.

(** The two results of one iteration, with the bookkeeping folded away. *)
Lemma scroll_step_finished s s' :
  scroll_step s = Finished s' →
  hasFrozen (selection s) = false
  ∧ s' = set_teams (touch_all (map fst (lastRanking s)) (teams s)) s.
Proof.
  rewrite scroll_step_unfold. cbv zeta.
  destruct (hasFrozen (selection s)); simpl; [|by intros [= <-]].
  by destruct (_ <? _).
Qed.

Lemma scroll_step_revealed s s' out :
  scroll_step s = Revealed s' out →
  let t := lowestTeam (selection s) in
  let ranking := number_ranks (ranking_names (revealed s)) in
  hasFrozen (selection s) = true
  ∧ same_view (revealed s) s'
  ∧ lastRanking s' = ranking
  ∧ frozen s' = frozen s ∧ started s' = started s
  ∧ out = (if rank_in ranking t <? lowestRank (selection s)
           then [ScrollChange t (team_at ranking (rank_in ranking t + 1))
                   (info_solved (rank_info (teams s') (problemList s') t))
                   (info_penalty (rank_info (teams s') (problemList s') t))]
           else []).
Proof.
  rewrite scroll_step_unfold. cbv zeta.
  destruct (hasFrozen (selection s)); simpl; [|done].
  destruct (_ <? _); intros [= <- <-]; simpl.
  - split_and!; try done.
    + split_and!; try done. intros n. simpl.
      by rewrite team_of_touch, team_of_touch_all.
    + by rewrite team_of_touch.
  - split_and!; try done.
    split_and!; try done. intros n. simpl. by rewrite team_of_touch_all.
Qed.

Lemma scroll_step_loop_head s s' out :
  scroll_step s = Revealed s' out → loop_head s'.
Proof.
  intros (_ & Hv & Hr & _)%scroll_step_revealed.
  apply loop_head_ranking. rewrite Hr. f_equal. symmetry. by apply ranking_names_view.
Qed.

(** ** Replaying a queue *)

(** The replay applies the rule of the visible branch of [submit]. *)
Lemma replay_step_apply ps sub :
  replay_step ps sub = apply_visible (status sub) (time sub) ps.
Proof.
  unfold replay_step, apply_visible.
  by destruct (String.eqb (status sub) "Accepted"), (solved ps).
Qed.

Lemma replay_step_solved ps sub : solved ps = true → replay_step ps sub = ps.
Proof.
  intros Hs. unfold replay_step. rewrite Hs.
  by destruct (String.eqb (status sub) "Accepted").
Qed.

Lemma foldl_replay_solved ps q : solved ps = true → foldl replay_step ps q = ps.
Proof.
  intros Hs. induction q as [|sub q IH]; simpl; [done|].
  by rewrite replay_step_solved.
Qed.

(** No [Accepted] in the queue: every replayed submission is one more wrong
    attempt. *)
Lemma foldl_replay_no_accept ps q :
  solved ps = false → Forall (λ sub, status sub ≠ "Accepted") q →
  foldl replay_step ps q =
    mkProblemStatus false (solveTime ps) (wrongAttempts ps + Z.of_nat (length q))
      (frozenSubs ps) (wasSolvedBeforeFreeze ps).
Proof.
  intros Hs Hq. revert ps Hs. induction Hq as [|sub q Hsub Hq IH]; intros ps Hs; simpl.
  - destruct ps; simpl in *. subst. f_equal. lia.
  - rewrite IH.
    + unfold replay_step. rewrite Hs.
      destruct (String.eqb_spec (status sub) "Accepted"); [done|]. simpl.
      f_equal. lia.
    + unfold replay_step. rewrite Hs.
      by destruct (String.eqb_spec (status sub) "Accepted").
Qed.

(** The first [Accepted] of the queue solves the problem at its time, after
    the wrong attempts that precede it; what follows has no effect. *)
Lemma foldl_replay_accept ps q1 sub q2 :
  solved ps = false → Forall (λ sub, status sub ≠ "Accepted") q1 →
  status sub = "Accepted" →
  foldl replay_step ps (q1 ++ sub :: q2) =
    mkProblemStatus true (time sub) (wrongAttempts ps + Z.of_nat (length q1))
      (frozenSubs ps) true.
Proof.
  intros Hs Hq1 Hsub. rewrite foldl_app, (foldl_replay_no_accept _ _ Hs Hq1). simpl.
  rewrite foldl_replay_solved; unfold replay_step; simpl; by rewrite Hsub.
Qed.

Lemma replay_frozenSubs ps : frozenSubs (replay ps) = [].
Proof. done. Qed.

Lemma replay_counted ps :
  counted ps = true → visible_fields (replay ps) = visible_fields ps.
Proof.
  unfold counted. intros [Hs _]%andb_true_iff. unfold replay.
  by rewrite foldl_replay_solved.
Qed.

(** The number of problems solved, as [getTeamRankInfo] counts it. *)
Lemma info_solved_fold t init pl :
  info_solved (foldl (rank_info_step t) init pl) =
    info_solved init
    + Z.of_nat (length (filter (λ p, counted (status_of t p) = true) pl)).
Proof.
  revert init. induction pl as [|p pl IH]; intros init; simpl; [lia|].
  rewrite IH, rank_info_step_status, filter_cons. simpl. unfold counted.
  destruct (solved (status_of t p) && wasSolvedBeforeFreeze (status_of t p)); simpl; lia.
Qed.

(** ** What a reveal changes *)

Lemma has_frozen_status t p :
  has_frozen t p = true ↔ frozenSubs (status_of t p) ≠ [].
Proof.
  unfold has_frozen, status_of. destruct (problems t !! p) as [ps|]; simpl.
  - rewrite negb_true_iff, bool_decide_eq_false. done.
  - split; done.
Qed.

(** The problem picked for a candidate: it is the first problem of the list
    that has frozen submissions. *)
Lemma reveal_prob_spec ts pl n :
  candidate ts pl n →
  let t := team_of ts n in
  ∃ l1 l2, pl = l1 ++ reveal_prob t pl :: l2
    ∧ has_frozen t (reveal_prob t pl) = true
    ∧ ∀ p, p ∈ l1 → has_frozen t p = false.
Proof.
  intros [prob Hf]%candidate_find. simpl. unfold reveal_prob. rewrite Hf. simpl.
  by apply find_Some_split.
Qed.

Lemma status_of_reveal t pl p :
  status_of (reveal_team t pl) p =
    if decide (p = reveal_prob t pl) then replay (status_of t p) else status_of t p.
Proof.
  unfold reveal_team, status_of at 1. simpl.
  destruct (decide (p = reveal_prob t pl)) as [->|Hne].
  - by rewrite lookup_insert_eq.
  - by rewrite lookup_insert_ne.
Qed.

Section Reveal.
Context (s : ICPCSystem).
Context (Hhead : loop_head s) (Hsel : hasFrozen (selection s) = true).

Let t := lowestTeam (selection s).
Let pl := problemList s.

Lemma reveal_candidate : candidate (teams s) pl t.
Proof. by destruct (selection_spec s Hhead) as [_ (_ & ? & _)]. Qed.

Lemma reveal_registered : t ∈ teamNames s.
Proof.
  destruct (selection_spec s Hhead) as [_ (Hin & _)]; [done|].
  apply loop_head_ranking in Hhead. rewrite Hhead in Hin.
  by apply ranked_registered in Hin as [? _].
Qed.

Lemma reveal_info_other n :
  n ≠ t → rank_info (teams (revealed s)) pl n = rank_info (teams s) pl n.
Proof.
  intros Hne. apply rank_info_team. rewrite revealed_team_of.
  by rewrite decide_False.
Qed.

(** The key of the revealed team is unchanged, or it has solved more. *)
Lemma reveal_info_self :
  rank_info (teams (revealed s)) pl t = rank_info (teams s) pl t
  ∨ info_solved (rank_info (teams s) pl t)
    < info_solved (rank_info (teams (revealed s)) pl t).
Proof.
  destruct (reveal_prob_spec _ _ _ reveal_candidate) as (l1 & l2 & Hpl & Hf & _).
  remember (team_of (teams s) t) as T eqn:ET.
  remember (reveal_prob T pl) as prob eqn:Eprob.
  assert (team_of (teams (revealed s)) t = reveal_team T pl) as HT.
  { rewrite revealed_team_of, ET. by rewrite decide_True. }
  assert (∀ p, status_of (reveal_team T pl) p =
               if decide (p = prob) then replay (status_of T p) else status_of T p)
    as Hrev.
  { intros p. by rewrite status_of_reveal, Eprob. }
  destruct (counted (status_of T prob)) eqn:Hc0.
  - left. apply rank_info_visible. intros p _. rewrite HT, <- ET, Hrev.
    destruct (decide (p = prob)) as [->|]; [|done]. by apply replay_counted.
  - destruct (counted (replay (status_of T prob))) eqn:Hc1.
    + right. unfold rank_info. cbn [info_solved].
      rewrite !info_solved_fold, HT, <- ET. cbn [info_solved].
      apply Z.add_lt_mono_l, inj_lt.
      apply (filter_length_lt _ _ _ prob).
      * intros p _. rewrite Hrev.
        destruct (decide (p = prob)) as [->|]; [|done]. by rewrite Hc0.
      * rewrite Hpl. set_solver.
      * by rewrite Hc0.
      * rewrite Hrev, decide_True by done. done.
    + left. unfold rank_info. rewrite HT, <- ET.
      rewrite (foldl_ext_in (rank_info_step (reveal_team T pl)) (rank_info_step T));
        [done|].
      intros acc p _. rewrite !rank_info_step_status, Hrev. simpl.
      destruct (decide (p = prob)) as [->|]; [|done].
      unfold counted in Hc0, Hc1. by rewrite Hc0, Hc1.
Qed.

Lemma before_revealed u v :
  before (revealed s) u v =
    compare_infos (rank_info (teams (revealed s)) pl u)
                  (rank_info (teams (revealed s)) pl v).
Proof. done. Qed.

Lemma reveal_before_others u v :
  u ≠ t → v ≠ t → before (revealed s) u v = before s u v.
Proof.
  intros Hu Hv. rewrite before_revealed. by rewrite !reveal_info_other.
Qed.

(** A team placed before the revealed team after the reveal was placed
    before it already. *)
Lemma reveal_before_self u :
  before (revealed s) u t = true → before s u t = true.
Proof.
  pose proof (before_strict s) as Hst. pose proof (before_strict (revealed s)) as Hst'.
  destruct (decide (u = t)) as [->|Hne].
  { by rewrite (st_irrefl _ Hst'). }
  intros Hut. destruct (st_connex _ Hst u t Hne) as [?|Htu]; [done|].
  assert (before (revealed s) t u = true) as Htu';
    [|by rewrite (st_asym _ Hst' _ _ Hut) in Htu'].
  rewrite before_revealed, (reveal_info_other u Hne).
  unfold before in Htu. fold pl in Htu.
  destruct reveal_info_self as [->|Hmore]; [done|].
  apply compare_infos_spec in Htu. apply compare_infos_spec. left.
  destruct Htu as [?|[? _]]; lia.
Qed.
End Reveal.

Lemma selected_rank s :
  NoDup (teamNames s) → loop_head s → hasFrozen (selection s) = true →
  rank_in (lastRanking s) (lowestTeam (selection s)) = lowestRank (selection s).
Proof.
  intros Hnd Hhead Hsel.
  destruct (selection_spec s Hhead) as [_ (Hin & _)]; [done|].
  apply loop_head_ranking in Hhead. rewrite Hhead in Hin |- *.
  apply rank_in_elem; [|done]. unfold ranking_names. by apply std_sort_NoDup.
Qed.

Lemma reveal_ahead s :
  loop_head s → hasFrozen (selection s) = true →
  (ahead (revealed s) (lowestTeam (selection s)) ≤ ahead s (lowestTeam (selection s)))%nat.
Proof.
  intros Hhead Hsel. unfold ahead.
  change (teamNames (revealed s)) with (teamNames s).
  apply filter_length_mono. intros u _. by apply reveal_before_self.
Qed.

(** The rank of the revealed team before and after its reveal. *)
Lemma reveal_rank (s s' : ICPCSystem) (out : list Output) :
  NoDup (teamNames s) → loop_head s → scroll_step s = Revealed s' out →
  let t := lowestTeam (selection s) in
  rank_in (lastRanking s) t = lowestRank (selection s)
  ∧ lastRanking s' = (calculateRanking s').1
  ∧ rank_in (lastRanking s') t ≤ rank_in (lastRanking s) t.
Proof.
  intros Hnd Hhead Hstep t.
  pose proof (scroll_step_loop_head _ _ _ Hstep) as Hhead'.
  apply scroll_step_revealed in Hstep as (Hsel & Hv & Hr & _).
  split_and!; [by apply selected_rank|done|].
  rewrite Hr. apply loop_head_ranking in Hhead as Hl. rewrite Hl.
  pose proof (reveal_registered s Hhead Hsel) as Ht.
  rewrite !rank_in_ahead by done.
  pose proof (reveal_ahead s Hhead Hsel). subst t. lia.
Qed.

(** C7. A reveal never worsens the rank of the revealed team: the rank it
    has in the ranking recomputed after its queue was replayed is at most
    the rank it held when it was selected. *)
Theorem C7_reveal_never_worsens (s s' : ICPCSystem) (out : list Output) :
  NoDup (teamNames s) → loop_head s → scroll_step s = Revealed s' out →
  let t := lowestTeam (selection s) in
  rank_in (lastRanking s) t = lowestRank (selection s)
  ∧ lastRanking s' = (calculateRanking s').1
  ∧ rank_in (lastRanking s') t ≤ rank_in (lastRanking s) t.
Proof. apply reveal_rank. Qed.

(** ** Termination of the scroll loop *)

Lemma sum_list_with_le {A} (f g : A → nat) (l : list A) :
  (∀ x, x ∈ l → (f x ≤ g x)%nat) → (sum_list_with f l ≤ sum_list_with g l)%nat.
Proof.
  induction l as [|x l IH]; intros Hfg; simpl; [done|].
  assert (f x ≤ g x)%nat by (apply Hfg, list_elem_of_here).
  assert (sum_list_with f l ≤ sum_list_with g l)%nat
    by (apply IH; intros y Hy; by apply Hfg, list_elem_of_further).
  lia.
Qed.

Lemma sum_list_with_lt {A} (f g : A → nat) (l : list A) x :
  (∀ y, y ∈ l → (f y ≤ g y)%nat) → x ∈ l → (f x < g x)%nat →
  (sum_list_with f l < sum_list_with g l)%nat.
Proof.
  induction l as [|y l IH]; intros Hfg Hx Hlt; [by apply elem_of_nil in Hx|].
  simpl.
  assert (f y ≤ g y)%nat by (apply Hfg, list_elem_of_here).
  assert (sum_list_with f l ≤ sum_list_with g l)%nat
    by (apply sum_list_with_le; intros z Hz; by apply Hfg, list_elem_of_further).
  apply elem_of_cons in Hx as [Heq|Hx].
  - subst y. lia.
  - assert (sum_list_with f l < sum_list_with g l)%nat; [|lia].
    apply IH; [|done..]. intros z Hz. by apply Hfg, list_elem_of_further.
Qed.

Lemma pending_bound s :
  (pending s ≤ length (teamNames s) * length (problemList s))%nat.
Proof.
  unfold pending. induction (teamNames s) as [|n l IH]; simpl; [done|].
  assert (pending_of s n ≤ length (problemList s))%nat by apply length_filter.
  lia.
Qed.

Lemma pending_view s s' : same_view s s' → pending s' = pending s.
Proof.
  intros (Hn & Hp & Ht). unfold pending, pending_of. rewrite Hn, Hp.
  clear Hn. generalize (teamNames s). intros l.
  induction l as [|n l IH]; simpl; [done|]. by rewrite IH, Ht.
Qed.

(** A reveal empties one queue that was not empty and leaves every other
    queue as it was. *)
Lemma reveal_queues s :
  loop_head s → hasFrozen (selection s) = true →
  let t := lowestTeam (selection s) in
  let prob := reveal_prob (team_of (teams s) t) (problemList s) in
  t ∈ teamNames s ∧ prob ∈ problemList s
  ∧ queue s t prob ≠ [] ∧ queue (revealed s) t prob = []
  ∧ ∀ n p, n ≠ t ∨ p ≠ prob → queue (revealed s) n p = queue s n p.
Proof.
  intros Hhead Hsel t prob.
  destruct (reveal_prob_spec _ _ _ (reveal_candidate s Hhead Hsel))
    as (l1 & l2 & Hpl & Hf & _).
  fold t prob in Hpl, Hf. split_and!.
  - by apply reveal_registered.
  - rewrite Hpl. set_solver.
  - by apply has_frozen_status.
  - unfold queue. rewrite revealed_team_of, decide_True by done.
    by rewrite status_of_reveal, decide_True.
  - intros n p Hnp. unfold queue. rewrite revealed_team_of.
    destruct (decide (n = lowestTeam (selection s))) as [->|Hne]; [|done].
    rewrite status_of_reveal, decide_False; [done|]. by destruct Hnp.
Qed.

Lemma reveal_pending s :
  loop_head s → hasFrozen (selection s) = true →
  (pending (revealed s) < pending s)%nat.
Proof.
  intros Hhead Hsel.
  destruct (reveal_queues s Hhead Hsel) as (Ht & Hp & Hq & Hq' & Hother).
  set (t := lowestTeam (selection s)) in *.
  set (prob := reveal_prob (team_of (teams s) t) (problemList s)) in *.
  assert (∀ n p, has_frozen (team_of (teams (revealed s)) n) p = true →
                 has_frozen (team_of (teams s) n) p = true) as Hmono.
  { intros n p. rewrite !has_frozen_status.
    destruct (decide (n = t ∧ p = prob)) as [[-> ->]|Hne].
    - intros H. by destruct H.
    - fold (queue (revealed s) n p) (queue s n p). rewrite Hother; [done|].
      destruct (decide (n = t)); [right|left]; naive_solver. }
  unfold pending. change (teamNames (revealed s)) with (teamNames s).
  apply (sum_list_with_lt _ _ _ t); [|done|].
  - intros n _. unfold pending_of. change (problemList (revealed s)) with (problemList s).
    apply filter_length_mono. intros p _. apply Hmono.
  - unfold pending_of. change (problemList (revealed s)) with (problemList s).
    apply (filter_length_lt _ _ _ prob); [|done| |].
    + intros p _. apply Hmono.
    + rewrite has_frozen_status. fold (queue (revealed s) t prob). rewrite Hq'.
      intros Hc. by apply Hc.
    + by apply has_frozen_status.
Qed.

(** The loop leaves after at most [pending s] reveals. *)
Lemma scroll_loop_enough fuel s :
  loop_head s → (pending s ≤ fuel)%nat → is_Some (scroll_loop fuel s).
Proof.
  revert s. induction fuel as [|fuel IH]; intros s Hhead Hfuel; simpl.
  - destruct (scroll_step s) as [s'|s' out] eqn:Hstep; [done|].
    apply scroll_step_revealed in Hstep as (Hsel & Hv & _).
    pose proof (reveal_pending s Hhead Hsel). lia.
  - destruct (scroll_step s) as [s'|s' out] eqn:Hstep; [done|].
    pose proof (scroll_step_loop_head _ _ _ Hstep) as Hhead'.
    apply scroll_step_revealed in Hstep as (Hsel & Hv & _).
    pose proof (reveal_pending s Hhead Hsel).
    pose proof (pending_view _ _ Hv).
    destruct (IH s' Hhead') as [[s'' out'] ->]; [lia|done].
Qed.

Lemma print_rows_state R s :
  (print_rows R s).2 = set_teams (touch_all (map fst R) (teams s)) s.
Proof.
  revert s. induction R as [|p R IH]; intros s; simpl.
  - by destruct s.
  - specialize (IH (set_teams (touch p.1 (teams s)) s)).
    destruct (print_rows R _) as [rows s2]. simpl in *. by rewrite IH.
Qed.

Lemma printScoreboard_state s :
  (printScoreboard s).2 =
    set_teams (touch_all (map fst (number_ranks (ranking_names s)))
                 (touch_all (teamNames s) (teams s))) s.
Proof.
  unfold printScoreboard. rewrite calculateRanking_spec.
  by rewrite print_rows_state.
Qed.

Lemma scroll_enter_loop_head s : loop_head (scroll_enter s).1.
Proof.
  unfold scroll_enter, flush. rewrite calculateRanking_spec.
  pose proof (printScoreboard_state
    (set_lastRanking (number_ranks (ranking_names s))
       (set_teams (touch_all (teamNames s) (teams s)) s))) as Hp.
  destruct (printScoreboard _) as [board s2]. simpl in *. subst s2.
  apply loop_head_ranking. simpl. f_equal. symmetry.
  apply ranking_names_view. split_and!; [done..|]. intros n. simpl.
  by rewrite !team_of_touch_all.
Qed.

(** C8. The scroll loop always leaves, after at most (number of registered
    teams) x (number of problems) reveals: [scroll] returns a result for
    every system, and from every loop head the loop cut after that many
    reveals returns one.  Each reveal empties exactly one queue [frozenSubs]
    that was not empty, of a registered team and a problem of the contest,
    and leaves every other queue unchanged; no queue grows. *)
Theorem C8_scroll_terminates (s : ICPCSystem) :
  is_Some (scroll s)
  ∧ (loop_head s →
       is_Some (scroll_loop (length (teamNames s) * length (problemList s)) s))
  ∧ (loop_head s → ∀ s' out, scroll_step s = Revealed s' out →
       ∃ t prob, t ∈ teamNames s ∧ prob ∈ problemList s
         ∧ queue s t prob ≠ [] ∧ queue s' t prob = []
         ∧ ∀ n p, n ≠ t ∨ p ≠ prob → queue s' n p = queue s n p).
Proof.
  split_and!.
  - unfold scroll. destruct (frozen s); simpl; [|done].
    pose proof (scroll_enter_loop_head s) as Hhead.
    destruct (scroll_enter s) as [s2 out1]. simpl in Hhead.
    destruct (scroll_loop_enough (scroll_fuel s2) s2 Hhead (pending_bound s2))
      as [[s3 changes] ->].
    by destruct (printScoreboard s3).
  - intros Hhead. apply scroll_loop_enough; [done|apply pending_bound].
  - intros Hhead s' out Hstep.
    apply scroll_step_revealed in Hstep as (Hsel & (_ & _ & Hv) & _).
    destruct (reveal_queues s Hhead Hsel) as (Ht & Hp & Hq & Hq' & Hother).
    eexists _, _. split_and!; [done..| |].
    + unfold queue in *. by rewrite Hv.
    + intros n p Hnp. unfold queue in *. rewrite Hv. by apply Hother.
Qed.

(** ** The selection rule of a reveal *)

Lemma candidate_pending s n :
  candidate (teams s) (problemList s) n ↔ has_pending s n.
Proof.
  unfold candidate, has_pending, queue. by setoid_rewrite has_frozen_status.
Qed.

Lemma foldl_replay_apply ps q :
  foldl replay_step ps q =
    foldl (λ acc sub, apply_visible (status sub) (time sub) acc) ps q.
Proof.
  revert ps. induction q as [|sub q IH]; intros ps; simpl; [done|].
  by rewrite IH, replay_step_apply.
Qed.

Lemma string_leb_ltb a b : String.ltb a b = true → String.leb a b = true.
Proof.
  unfold String.ltb, String.leb. by destruct (String.compare a b).
Qed.

Lemma string_leb_refl a : String.leb a a = true.
Proof.
  pose proof (st_irrefl _ string_ltb_strict a) as H.
  rewrite string_ltb_leb in H. by apply negb_false_iff in H.
Qed.

(** C3. In a reveal step the scan selects, among the ranked teams that have
    a non-empty queue for some problem of the contest, the one whose rank in
    the current ranking is largest; for that team it picks the first problem,
    in the order of the problem list, whose queue is not empty (the smallest
    identifier when the list is ascending, as the list ["A"; "B"; ...] built
    by [start] is); it replays the whole queue in order under the rule of the
    visible branch of [submit] and empties it.  If the problem was solved
    already the replay changes no visible field; otherwise the first
    [Accepted] of the queue sets [solved], [solveTime] and
    [wasSolvedBeforeFreeze], the submissions before it count as wrong
    attempts and those after it have no effect; without an [Accepted] every
    replayed submission is one more wrong attempt.  Nothing else changes.
    The loop leaves exactly when no registered team has anything to
    reveal. *)
Theorem C3_reveal_selection (s : ICPCSystem) :
  loop_head s →
  match scroll_step s with
  | Finished _ => ∀ n, n ∈ teamNames s → ¬ has_pending s n
  | Revealed s' out =>
      ∃ t r prob,
        (t, r) ∈ lastRanking s ∧ has_pending s t
        ∧ (∀ u r', (u, r') ∈ lastRanking s → has_pending s u → r' ≤ r)
        ∧ (∃ l1 l2, problemList s = l1 ++ prob :: l2
             ∧ queue s t prob ≠ [] ∧ ∀ p, p ∈ l1 → queue s t p = [])
        ∧ (StronglySorted (λ a b, String.ltb a b = true) (problemList s) →
             ∀ p, p ∈ problemList s → queue s t p ≠ [] → String.leb prob p = true)
        ∧ (let ps0 := status_of (team_of (teams s) t) prob in
           let ps1 := status_of (team_of (teams s') t) prob in
           ps1 = set_frozenSubs []
                   (foldl (λ acc sub, apply_visible (status sub) (time sub) acc)
                      ps0 (queue s t prob))
           ∧ (solved ps0 = true → visible_fields ps1 = visible_fields ps0)
           ∧ (solved ps0 = false →
                ∀ q1 sub q2, queue s t prob = q1 ++ sub :: q2 →
                  Forall (λ x, status x ≠ "Accepted") q1 → status sub = "Accepted" →
                  ps1 = mkProblemStatus true (time sub)
                          (wrongAttempts ps0 + Z.of_nat (length q1)) [] true)
           ∧ (solved ps0 = false →
                Forall (λ x, status x ≠ "Accepted") (queue s t prob) →
                ps1 = mkProblemStatus false (solveTime ps0)
                        (wrongAttempts ps0 + Z.of_nat (length (queue s t prob))) []
                        (wasSolvedBeforeFreeze ps0)))
        ∧ (∀ n p, n ≠ t ∨ p ≠ prob →
             status_of (team_of (teams s') n) p = status_of (team_of (teams s) n) p)
        ∧ (∀ n, submissions (team_of (teams s') n) = submissions (team_of (teams s) n))
  end.
Proof.
  intros Hhead. destruct (selection_spec s Hhead) as [Hiff Hsome].
  destruct (scroll_step s) as [s'|s' out] eqn:Hstep.
  - apply scroll_step_finished in Hstep as [Hno _].
    intros n Hn Hp. apply candidate_pending in Hp.
    assert (hasFrozen (selection s) = true) as Hyes by (apply Hiff; eauto).
    congruence.
  - apply scroll_step_revealed in Hstep as (Hsel & (_ & _ & Hv) & _).
    destruct (Hsome Hsel) as (Hin & Hcand & Hmax).
    set (t := lowestTeam (selection s)) in *.
    set (T := team_of (teams s) t).
    destruct (reveal_prob_spec _ _ _ Hcand) as (l1 & l2 & Hpl & Hf & Hl1).
    fold T in Hpl, Hf, Hl1.
    exists t, (lowestRank (selection s)), (reveal_prob T (problemList s)).
    set (prob := reveal_prob T (problemList s)) in *.
    assert (∀ n p, status_of (team_of (teams s') n) p =
              if decide (n = t ∧ p = prob) then replay (status_of T p)
              else status_of (team_of (teams s) n) p) as Hst.
    { intros n p. rewrite Hv, revealed_team_of. fold t.
      destruct (decide (n = t)) as [->|Hn].
      - rewrite status_of_reveal. fold T prob.
        destruct (decide (p = prob)) as [->|Hp].
        + by rewrite decide_True.
        + rewrite decide_False; [done|]. by intros [_ ?].
      - rewrite decide_False; [done|]. by intros [? _]. }
    split_and!.
    + done.
    + by apply candidate_pending.
    + intros u r' Hu Hpu. apply (Hmax (u, r')); [done|]. by apply candidate_pending.
    + exists l1, l2. split_and!; [done|by apply has_frozen_status|].
      intros p Hp. specialize (Hl1 p Hp). unfold queue. fold T.
      destruct (frozenSubs (status_of T p)) eqn:Hq; [done|].
      assert (has_frozen T p = true) as Hc; [|congruence].
      apply has_frozen_status. by rewrite Hq.
    + intros Hsorted p Hp Hq. rewrite Hpl in Hsorted, Hp.
      apply StronglySorted_app in Hsorted as (_ & _ & Hs2).
      apply StronglySorted_inv in Hs2 as [_ Hlt]. rewrite Forall_forall in Hlt.
      apply elem_of_app in Hp as [Hp|Hp].
      * specialize (Hl1 p Hp). apply has_frozen_status in Hq. fold T in Hq. congruence.
      * apply elem_of_cons in Hp as [->|Hp]; [apply string_leb_refl|].
        by apply string_leb_ltb, Hlt.
    + cbv zeta. rewrite Hst, decide_True by done. unfold replay, queue. fold T.
      split_and!.
      * by rewrite foldl_replay_apply.
      * intros Hs. by rewrite foldl_replay_solved.
      * intros Hs q1 sub q2 Hq Hq1 Hsub. rewrite Hq.
        by rewrite (foldl_replay_accept _ _ _ _ Hs Hq1 Hsub).
      * intros Hs Hq. by rewrite (foldl_replay_no_accept _ _ Hs Hq).
    + intros n p Hnp. rewrite Hst, decide_False; [done|]. intros [? ?]. by destruct Hnp.
    + intros n. rewrite Hv, revealed_team_of. fold t.
      destruct (decide (n = t)) as [->|]; done.
Qed.

(** ** The team named in a rank-change line *)

Lemma StronglySorted_filter {A} (R : A → A → Prop) (P : A → Prop)
    `{!∀ x, Decision (P x)} (l : list A) :
  StronglySorted R l → StronglySorted R (filter P l).
Proof.
  induction 1 as [|x l Hl IH Hx]; [constructor|].
  rewrite filter_cons. destruct (decide (P x)); [|done].
  constructor; [done|]. apply Forall_forall. intros y [_ Hy]%list_elem_of_filter.
  rewrite Forall_forall in Hx. by apply Hx.
Qed.

Lemma StronglySorted_impl_in {A} (R R' : A → A → Prop) (l : list A) :
  (∀ x y, x ∈ l → y ∈ l → R x y → R' x y) →
  StronglySorted R l → StronglySorted R' l.
Proof.
  intros Himp Hs. induction Hs as [|x l Hl IH Hx]; [constructor|].
  constructor.
  - apply IH. intros y z Hy Hz. apply Himp; by apply list_elem_of_further.
  - apply Forall_forall. intros y Hy. rewrite Forall_forall in Hx.
    apply Himp; [apply list_elem_of_here|by apply list_elem_of_further|by apply Hx].
Qed.

Lemma filter_ne_split {A} `{!EqDecision A} (t : A) (l1 l2 : list A) :
  t ∉ l1 → t ∉ l2 → filter (λ x, x ≠ t) (l1 ++ t :: l2) = l1 ++ l2.
Proof.
  intros H1 H2. rewrite filter_app, filter_cons_False by (intros H; by apply H).
  rewrite !filter_all; [done|intros x Hx ->; done..].
Qed.

(** When [t] moves up in a list whose other elements keep their order, the
    element now right behind [t] is the one that held [t]'s new place. *)
Lemma moved_up {A} `{!EqDecision A} (t : A) (L L' : list A) (i i' : nat) :
  NoDup L → NoDup L' →
  filter (λ x, x ≠ t) L' = filter (λ x, x ≠ t) L →
  L !! i = Some t → L' !! i' = Some t → (i' < i)%nat →
  ∃ x, L' !! S i' = Some x ∧ L !! i' = Some x.
Proof.
  intros Hnd Hnd' Hf Hi Hi' Hlt.
  pose proof (lookup_lt_Some _ _ _ Hi) as Hlen.
  pose proof (lookup_lt_Some _ _ _ Hi') as Hlen'.
  rewrite <- (take_drop_middle L i t Hi) in Hnd, Hf.
  rewrite <- (take_drop_middle L' i' t Hi') in Hnd', Hf.
  apply NoDup_app in Hnd as (_ & Hd1 & [Hd2 _]%NoDup_cons).
  apply NoDup_app in Hnd' as (_ & Hd1' & [Hd2' _]%NoDup_cons).
  assert (t ∉ take i L) as Ht1 by (intros Hin; apply (Hd1 t Hin), list_elem_of_here).
  assert (t ∉ take i' L') as Ht1'
    by (intros Hin; apply (Hd1' t Hin), list_elem_of_here).
  rewrite !filter_ne_split in Hf by done.
  destruct (lookup_lt_is_Some_2 L i') as [x Hx]; [lia|].
  exists x. split; [|done].
  assert ((take i' L' ++ drop (S i') L') !! i' = Some x) as Hx'.
  { rewrite Hf, lookup_app_l by (rewrite length_take; lia).
    rewrite lookup_take_lt by done. done. }
  rewrite lookup_app_r in Hx' by (rewrite length_take; lia).
  rewrite length_take, lookup_drop in Hx'.
  by replace (S i' + (i' - i' `min` length L'))%nat with (S i') in Hx' by lia.
Qed.

Lemma rank_in_lookup l n :
  NoDup l → n ∈ l → ∃ i : nat, l !! i = Some n ∧ rank_in (number_ranks l) n = Z.of_nat i + 1.
Proof.
  intros Hnd (i & Hi)%list_elem_of_lookup_1. exists i. split; [done|].
  apply rank_in_elem; [done|]. apply number_ranks_elem. by exists i.
Qed.

(** The ranked names other than the revealed team keep their order. *)
Lemma reveal_keeps_order s :
  loop_head s → hasFrozen (selection s) = true →
  let t := lowestTeam (selection s) in
  filter (λ x, x ≠ t) (ranking_names (revealed s))
  = filter (λ x, x ≠ t) (ranking_names s).
Proof.
  intros Hhead Hsel t.
  pose proof (before_strict s) as Hst.
  eapply (StronglySorted_unique_strong (not_after (before s))).
  - intros x y _ _ ??. by apply (not_after_antisym _ Hst).
  - apply (StronglySorted_impl_in (not_after (before (revealed s)))).
    + intros x y [Hx _]%list_elem_of_filter [Hy _]%list_elem_of_filter.
      unfold not_after. by rewrite reveal_before_others.
    + apply StronglySorted_filter, ranking_names_sorted.
  - apply StronglySorted_filter, ranking_names_sorted.
  - rewrite !ranking_names_perm. done.
Qed.

(** C4, as the claim states it, fails.  Team ["c"] is revealed at rank 3 and
    moves to rank 1; the line printed names ["a"], the team now at rank 2.
    Before the reveal rank 2 = newRank + 1 was held by ["b"]; ["a"] held
    rank 1 = newRank. *)
Lemma C4_counterexample :
  let s := three_teams_head in
  ∃ s', loop_head s
    ∧ lastRanking s = [("a", 1); ("b", 2); ("c", 3)]
    ∧ scroll_step s = Revealed s' [ScrollChange "c" "a" 1 5]
    ∧ lastRanking s' = [("c", 1); ("a", 2); ("b", 3)]
    ∧ rank_in (lastRanking s') "c" + 1 = 2
    ∧ team_at (lastRanking s) 2 = "b"
    ∧ ("a", 2) ∉ lastRanking s.
Proof.
  intros s.
  exists (match scroll_step s with Finished s' | Revealed s' _ => s' end).
  split_and!; try (vm_compute; reflexivity).
  intros Hin. vm_compute in Hin.
  repeat (apply elem_of_cons in Hin as [Hin|Hin]; [discriminate Hin|]).
  by apply elem_of_nil in Hin.
Qed.

(** C4 (amended). After the ranking is recomputed a rank-change line is
    printed exactly when the new rank of the revealed team is strictly
    smaller than the rank it held when selected.  The line names the
    revealed team, the team that now holds the place right below it, which is
    the team that held the revealed team's new rank before the reveal, and
    the revealed team's new solved count and penalty.  When the rank is
    unchanged nothing is printed. *)
Theorem C4_rank_change_line (s s' : ICPCSystem) (out : list Output) :
  NoDup (teamNames s) → loop_head s → scroll_step s = Revealed s' out →
  let t := lowestTeam (selection s) in
  let oldRank := rank_in (lastRanking s) t in
  let newRank := rank_in (lastRanking s') t in
  let info := rank_info (teams s') (problemList s') t in
  lastRanking s' = (calculateRanking s').1
  ∧ (newRank < oldRank →
       ∃ replaced,
         out = [ScrollChange t replaced (info_solved info) (info_penalty info)]
         ∧ (replaced, newRank + 1) ∈ lastRanking s'
         ∧ (replaced, newRank) ∈ lastRanking s)
  ∧ (¬ newRank < oldRank → out = [] ∧ newRank = oldRank).
Proof.
  intros Hnd Hhead Hstep t oldRank newRank info.
  pose proof (reveal_rank s s' out Hnd Hhead Hstep) as (Hold & Hnew & Hle).
  fold t oldRank newRank in Hold, Hle.
  apply scroll_step_revealed in Hstep as (Hsel & Hv & Hr & _ & _ & Hout).
  fold t newRank info in Hout. rewrite <- Hr in Hout. fold newRank in Hout.
  rewrite <- Hold in Hout.
  split_and!; [done| |].
  2: { intros Hge. destruct (Z.ltb_spec newRank oldRank); [done|]. split; [done|lia]. }
  intros Hlt. destruct (Z.ltb_spec newRank oldRank); [|lia].
  exists (team_at (lastRanking s') (newRank + 1)). split; [done|].
  apply loop_head_ranking in Hhead as Hl.
  pose proof (reveal_registered s Hhead Hsel) as Ht. fold t in Ht.
  assert (NoDup (ranking_names s)) as HndL by (by apply std_sort_NoDup).
  assert (NoDup (ranking_names (revealed s))) as HndL' by (by apply std_sort_NoDup).
  destruct (rank_in_lookup (ranking_names s) t HndL) as (i & Hi & Hri).
  { by rewrite ranking_names_perm. }
  destruct (rank_in_lookup (ranking_names (revealed s)) t HndL') as (i' & Hi' & Hri').
  { by rewrite ranking_names_perm. }
  unfold oldRank, newRank in *. rewrite Hr, Hl in *. rewrite Hri, Hri' in *.
  destruct (moved_up t (ranking_names s) (ranking_names (revealed s)) i i')
    as (x & Hx' & Hx); [done|done|by apply reveal_keeps_order|done|done|lia|].
  replace (Z.of_nat i' + 1 + 1) with (Z.of_nat (S i') + 1) by lia.
  rewrite (team_at_lookup _ _ _ Hx'). split.
  - apply number_ranks_elem. by exists (S i').
  - apply number_ranks_elem. by exists i'.
Qed.

(** ** Invariants of the reachable systems *)

Lemma touch_all_known ns ts :
  (∀ n, n ∈ ns → is_Some (ts !! n)) → touch_all ns ts = ts.
Proof.
  induction ns as [|n ns IH]; intros Hk; [done|].
  rewrite touch_all_cons, touch_known by (apply Hk, list_elem_of_here).
  apply IH. intros m Hm. by apply Hk, list_elem_of_further.
Qed.

Lemma set_teams_id s : set_teams (teams s) s = s.
Proof. by destruct s. Qed.

Lemma Inv_known s n : Inv s → n ∈ teamNames s → is_Some (teams s !! n).
Proof. intros HI Hn. destruct (inv_registered s HI n Hn) as (t & -> & _). done. Qed.

Lemma Inv_team_of s n : Inv s → n ∈ teamNames s → teams s !! n = Some (team_of (teams s) n).
Proof.
  intros HI Hn. destruct (inv_registered s HI n Hn) as (t & Ht & _).
  unfold team_of. by rewrite Ht.
Qed.

Lemma Inv_team_name s n : Inv s → n ∈ teamNames s → name (team_of (teams s) n) = n.
Proof.
  intros HI Hn. destruct (inv_registered s HI n Hn) as (t & Ht & Hname).
  unfold team_of. by rewrite Ht.
Qed.

(** On such a system [operator[]] never creates an entry: the ranking
    calculator and the printer leave the system as it is. *)
Lemma calculateRanking_Inv s :
  Inv s → calculateRanking s = (number_ranks (ranking_names s), s).
Proof.
  intros HI. rewrite calculateRanking_spec, touch_all_known, set_teams_id; [done|].
  intros n Hn. by apply Inv_known.
Qed.

Lemma ranking_names_registered s n : n ∈ ranking_names s ↔ n ∈ teamNames s.
Proof. by rewrite ranking_names_perm. Qed.

Lemma printScoreboard_Inv s : Inv s → (printScoreboard s).2 = s.
Proof.
  intros HI. rewrite printScoreboard_state.
  rewrite (touch_all_known (teamNames s)) by (intros n Hn; by apply Inv_known).
  rewrite touch_all_known, set_teams_id; [done|].
  rewrite number_ranks_fst. intros n Hn%list_elem_of_In%list_elem_of_In.
  apply Inv_known; [done|]. by apply ranking_names_registered.
Qed.

Lemma Inv_set_lastRanking s :
  Inv s → Inv (set_lastRanking (number_ranks (ranking_names s)) s).
Proof.
  intros [H1 H2 H3 H4 H5]. split; simpl; try done.
  intros [n r] Hp. apply ranked_registered in Hp as [? _]. done.
Qed.

Lemma Inv_set_frozen b s : Inv s → Inv (set_frozen b s).
Proof. intros [H1 H2 H3 H4 H5]. by split. Qed.

Lemma flush_Inv b s :
  Inv s → (flush b s).1 = set_lastRanking (number_ranks (ranking_names s)) s.
Proof. intros HI. unfold flush. by rewrite calculateRanking_Inv. Qed.

Lemma Inv_new : Inv new_ICPCSystem.
Proof.
  split; simpl; try done.
  - constructor.
  - intros n Hn. by apply elem_of_nil in Hn.
  - intros p Hp. by apply elem_of_nil in Hp.
Qed.

Lemma Inv_addTeam n s : Inv s → Inv (addTeam n s).1.
Proof.
  intros HI. unfold addTeam. destruct (started s) eqn:Hst; [done|].
  destruct (bool_decide_reflect (is_Some (teams s !! n))) as [Hk|Hk]; [done|].
  destruct HI as [H1 H2 H3 H4 H5]. split; simpl.
  - apply NoDup_app. split_and!; [done| |apply NoDup_singleton].
    intros m Hm ->%list_elem_of_singleton. destruct (H2 _ Hm) as (t & Ht & _).
    apply Hk. by rewrite Ht.
  - intros m [Hm| ->%list_elem_of_singleton]%elem_of_app.
    + destruct (H2 _ Hm) as (t & Ht & Hn). exists t. split; [|done].
      rewrite lookup_insert_ne; [done|]. intros ->. apply Hk. by rewrite Ht.
    + exists (new_Team n). by rewrite lookup_insert_eq.
  - intros p Hp. apply elem_of_app. left. by apply H3.
  - intros m t p ps Ht Hp. destruct (decide (n = m)) as [->|Hne].
    + rewrite lookup_insert_eq in Ht. by simplify_eq.
    + rewrite lookup_insert_ne in Ht by done. by eapply H4.
  - by rewrite Hst in H5.
Qed.

Lemma Inv_start d p s s' out : Inv s → start d p s = Some (s', out) → Inv s'.
Proof.
  intros HI. unfold start. destruct (started s) eqn:Hst; [by intros [= <- _]|].
  destruct (p <? 0); [done|]. intros [= <- _].
  destruct HI as [H1 H2 H3 H4 H5]. split; simpl; try done.
  by rewrite H5, Hst.
Qed.

Lemma submit_status_flags frz sub ps :
  solved ps = wasSolvedBeforeFreeze ps →
  solved (submit_status frz sub ps) = wasSolvedBeforeFreeze (submit_status frz sub ps).
Proof.
  intros Hps. unfold submit_status, apply_visible.
  destruct (frz && negb (wasSolvedBeforeFreeze ps)); [by simpl|].
  destruct (solved ps) eqn:Hs; simpl; [by rewrite Hs|].
  by destruct (String.eqb (status sub) "Accepted").
Qed.

Lemma Inv_status_of s n p :
  Inv s →
  solved (status_of (team_of (teams s) n) p)
  = wasSolvedBeforeFreeze (status_of (team_of (teams s) n) p).
Proof.
  intros HI. unfold status_of, team_of.
  destruct (teams s !! n) as [t|] eqn:Ht; simpl; [|done].
  destruct (problems t !! p) as [ps|] eqn:Hp; simpl; [|done].
  by eapply (inv_flags s HI).
Qed.

Lemma Inv_submit prob n stat tm s : Inv s → Inv (submit prob n stat tm s).
Proof.
  intros HI. pose proof (submit_team prob n stat tm s) as Hn. cbv zeta in Hn.
  pose proof (submit_other prob n stat tm s) as Ho.
  pose proof (Inv_status_of s n prob HI) as Hf.
  destruct HI as [H1 H2 H3 H4 H5].
  split; try done.
  - intros m Hm. change (teamNames (submit prob n stat tm s)) with (teamNames s) in Hm.
    destruct (H2 _ Hm) as (t & Ht & Hname).
    destruct (decide (m = n)) as [->|Hne].
    + eexists. split; [exact Hn|]. simpl. unfold team_of. by rewrite Ht.
    + exists t. by rewrite Ho.
  - intros m t p ps Ht Hp. destruct (decide (m = n)) as [->|Hne].
    + rewrite Hn in Ht. injection Ht as <-. simpl in Hp.
      destruct (decide (prob = p)) as [->|Hnp].
      * rewrite lookup_insert_eq in Hp. injection Hp as <-.
        by apply submit_status_flags.
      * rewrite lookup_insert_ne in Hp by done.
        unfold team_of in Hp. destruct (teams s !! n) as [t0|] eqn:Ht0; simpl in Hp.
        -- by eapply H4.
        -- by rewrite lookup_empty in Hp.
    + rewrite Ho in Ht by done. by eapply H4.
Qed.

Lemma freeze_status_flags ps :
  solved ps = wasSolvedBeforeFreeze ps →
  solved (freeze_status ps) = wasSolvedBeforeFreeze (freeze_status ps).
Proof.
  intros Hps. unfold freeze_status. destruct (solved ps) eqn:Hs; simpl; congruence.
Qed.

Lemma Inv_freeze s : Inv s → Inv (freeze s).1.
Proof.
  intros HI. unfold freeze. destruct (frozen s); [done|].
  destruct HI as [H1 H2 H3 H4 H5]. split; simpl; try done.
  - intros n Hn. destruct (H2 _ Hn) as (t & Ht & Hname).
    exists (freeze_team t). by rewrite lookup_fmap, Ht.
  - intros n t p ps Ht Hp. rewrite lookup_fmap in Ht.
    destruct (teams s !! n) as [t0|] eqn:Ht0; simpl in Ht; [|done]. injection Ht as <-.
    simpl in Hp. rewrite lookup_fmap in Hp.
    destruct (problems t0 !! p) as [ps0|] eqn:Hp0; simpl in Hp; [|done].
    injection Hp as <-. apply freeze_status_flags. by eapply H4.
Qed.

Lemma replay_step_flags ps sub :
  solved ps = wasSolvedBeforeFreeze ps →
  solved (replay_step ps sub) = wasSolvedBeforeFreeze (replay_step ps sub).
Proof.
  intros Hps. unfold replay_step.
  destruct (String.eqb (status sub) "Accepted"), (solved ps) eqn:Hs; simpl; congruence.
Qed.

Lemma replay_flags ps :
  solved ps = wasSolvedBeforeFreeze ps →
  solved (replay ps) = wasSolvedBeforeFreeze (replay ps).
Proof.
  intros Hps. unfold replay. simpl. generalize (frozenSubs ps). intros q.
  revert ps Hps. induction q as [|sub q IH]; intros ps Hps; simpl; [done|].
  by apply IH, replay_step_flags.
Qed.

Lemma extends_refl s : extends s s.
Proof. split_and!; [done..|]. intros n Hn. by left. Qed.

Lemma extends_same s s' :
  teams s' = teams s → teamNames s' = teamNames s → extends s s'.
Proof.
  intros Ht Hn. unfold extends. rewrite Ht, Hn. split_and!; [done..|].
  intros n ?. by left.
Qed.

Lemma extends_known s s' :
  (∀ g, is_Some (teams s !! g) → is_Some (teams s' !! g)) →
  teamNames s' = teamNames s → extends s s'.
Proof.
  intros Hk Hn. unfold extends. rewrite Hn. split_and!; [done..|].
  intros n ?. by left.
Qed.

Lemma extends_trans s1 s2 s3 : extends s1 s2 → extends s2 s3 → extends s1 s3.
Proof.
  intros (Hk1 & Hm1 & Hn1) (Hk2 & Hm2 & Hn2). split_and!.
  - intros g Hg. by apply Hk2, Hk1.
  - intros n Hn. by apply Hm2, Hm1.
  - intros n Hn. destruct (Hn2 n Hn) as [Hn'|Hnone]; [by apply Hn1|].
    right. destruct (teams s1 !! n) eqn:Ht; [|done].
    destruct (Hk1 n) as [t' Ht']; [by rewrite Ht|]. congruence.
Qed.

Lemma revealed_Inv s :
  Inv s → loop_head s → hasFrozen (selection s) = true →
  let t := lowestTeam (selection s) in
  revealed s
  = set_teams (<[t := reveal_team (team_of (teams s) t) (problemList s)]> (teams s)) s
  ∧ Inv (revealed s).
Proof.
  intros HI Hhead Hsel t.
  pose proof (reveal_registered s Hhead Hsel) as Ht. fold t in Ht.
  assert (revealed s = set_teams
            (<[t := reveal_team (team_of (teams s) t) (problemList s)]> (teams s)) s)
    as Hrev.
  { unfold revealed. fold t. rewrite touch_all_known, touch_known; [done|..].
    - by apply Inv_known.
    - intros n Hn. apply list_elem_of_fmap in Hn as (p & -> & Hp).
      apply Inv_known; [done|]. by apply (inv_ranking s HI). }
  split; [done|]. rewrite Hrev.
  pose proof (Inv_team_name s t HI Ht) as Hname.
  pose proof (Inv_team_of s t HI Ht) as Hteam.
  pose proof (Inv_status_of s t (reveal_prob (team_of (teams s) t) (problemList s)) HI)
    as Hflags.
  destruct HI as [H1 H2 H3 H4 H5]. split; simpl; try done.
  - intros n Hn. destruct (decide (n = t)) as [->|Hne].
    + eexists. by rewrite lookup_insert_eq.
    + rewrite lookup_insert_ne by done. by apply H2.
  - intros n T p ps HT Hp. destruct (decide (n = t)) as [->|Hne].
    + rewrite lookup_insert_eq in HT. injection HT as <-. simpl in Hp.
      destruct (decide (p = reveal_prob (team_of (teams s) t) (problemList s)))
        as [->|Hnp].
      * rewrite lookup_insert_eq in Hp. injection Hp as <-. by apply replay_flags.
      * rewrite lookup_insert_ne in Hp by done. by eapply H4.
    + rewrite lookup_insert_ne in HT by done. by eapply H4.
Qed.

Lemma scroll_step_Inv s :
  Inv s → loop_head s →
  match scroll_step s with
  | Finished s' => s' = s
  | Revealed s' out =>
      Inv s' ∧ loop_head s' ∧ extends s s'
      ∧ teamNames s' = teamNames s ∧ frozen s' = frozen s
  end.
Proof.
  intros HI Hhead.
  destruct (scroll_step s) as [s'|s' out] eqn:Hstep.
  - apply scroll_step_finished in Hstep as [_ ->].
    rewrite touch_all_known, set_teams_id; [done|].
    intros n Hn. apply list_elem_of_fmap in Hn as (p & -> & Hp).
    apply Inv_known; [done|]. by apply (inv_ranking s HI).
  - pose proof (scroll_step_loop_head _ _ _ Hstep) as Hhead'.
    pose proof (scroll_step_revealed _ _ _ Hstep) as (Hsel & _).
    destruct (revealed_Inv s HI Hhead Hsel) as [Hrev HI3].
    pose proof (reveal_registered s Hhead Hsel) as Ht.
    assert (s' = set_lastRanking (number_ranks (ranking_names (revealed s))) (revealed s))
      as ->.
    { rewrite scroll_step_unfold in Hstep. cbv zeta in Hstep. rewrite Hsel in Hstep.
      cbn [negb] in Hstep. clear Hhead' Hrev.
      assert (teamNames (revealed s) = teamNames s) as Hnames by done.
      remember (revealed s) as s3 eqn:E3.
      rewrite (touch_all_known (teamNames s)) in Hstep
        by (intros n Hn; apply (Inv_known s3); [done|by rewrite Hnames]).
      rewrite set_teams_id in Hstep.
      destruct (_ <? _); injection Hstep as <- _; [|done].
      change (teams (set_lastRanking (number_ranks (ranking_names s3)) s3))
        with (teams s3).
      rewrite touch_known; [by destruct s3|].
      apply (Inv_known s3); [done|by rewrite Hnames]. }
    split_and!; [by apply Inv_set_lastRanking|done| |done..].
    apply extends_known; [|done]. intros g Hg.
    change (teams (set_lastRanking (number_ranks (ranking_names (revealed s)))
                     (revealed s))) with (teams (revealed s)).
    rewrite Hrev. simpl.
    destruct (decide (g = lowestTeam (selection s))) as [->|Hne].
    + by rewrite lookup_insert_eq.
    + by rewrite lookup_insert_ne.
Qed.

Lemma scroll_loop_Inv fuel s s' out :
  Inv s → loop_head s → scroll_loop fuel s = Some (s', out) →
  Inv s' ∧ loop_head s' ∧ extends s s'
  ∧ teamNames s' = teamNames s ∧ frozen s' = frozen s.
Proof.
  revert s out. induction fuel as [|fuel IH]; intros s out HI Hhead; simpl;
    pose proof (scroll_step_Inv s HI Hhead) as Hstep;
    destruct (scroll_step s) as [s1|s1 out1].
  - intros [= <- _]. subst s1. split_and!; try done. apply extends_refl.
  - done.
  - intros [= <- _]. subst s1. split_and!; try done. apply extends_refl.
  - destruct Hstep as (HI1 & Hhead1 & Hext1 & Hn1 & Hf1).
    destruct (scroll_loop fuel s1) as [[s2 out2]|] eqn:Hloop; [|done].
    intros [= <- _].
    destruct (IH s1 out2 HI1 Hhead1 Hloop) as (HI2 & Hhead2 & Hext2 & Hn2 & Hf2).
    split_and!; [done..|by eapply extends_trans|congruence|congruence].
Qed.

Lemma scroll_enter_Inv s :
  Inv s → (scroll_enter s).1 = set_lastRanking (number_ranks (ranking_names s)) s.
Proof.
  intros HI. unfold scroll_enter.
  pose proof (flush_Inv true s HI) as Hf. destruct (flush true s) as [s1 o1].
  simpl in Hf. subst s1.
  pose proof (printScoreboard_Inv _ (Inv_set_lastRanking s HI)) as Hp.
  by destruct (printScoreboard _) as [board s2].
Qed.

(** [scroll] on a frozen board: the system it leaves. *)
Lemma scroll_Inv s s' out :
  Inv s → scroll s = Some (s', out) →
  Inv s' ∧ extends s s' ∧ teamNames s' = teamNames s
  ∧ (frozen s = true → frozen s' = false ∧ lastRanking s' = (calculateRanking s').1).
Proof.
  intros HI. unfold scroll. destruct (frozen s) eqn:Hfr; simpl.
  2: { intros [= <- _]. split_and!; [done|apply extends_refl|done..]. }
  pose proof (scroll_enter_Inv s HI) as He.
  pose proof (scroll_enter_loop_head s) as Hhead.
  destruct (scroll_enter s) as [s2 out1]. simpl in He, Hhead.
  assert (Inv s2) as HI2 by (subst s2; by apply Inv_set_lastRanking).
  destruct (scroll_loop (scroll_fuel s2) s2) as [[s3 changes]|] eqn:Hloop; [|done].
  destruct (scroll_loop_Inv _ _ _ _ HI2 Hhead Hloop) as (HI3 & Hhead3 & Hext & Hn & Hf).
  pose proof (printScoreboard_Inv s3 HI3) as Hp.
  destruct (printScoreboard s3) as [board s4]. simpl in Hp. subst s4.
  intros [= <- _]. split_and!.
  - by apply Inv_set_frozen.
  - destruct Hext as (Hk & _ & _). subst s2. apply extends_known; [done|].
    simpl. by rewrite Hn.
  - simpl. rewrite Hn. by subst s2.
  - intros _. split; [done|]. apply loop_head_ranking in Hhead3.
    rewrite calculateRanking_spec. simpl. by rewrite Hhead3.
Qed.

Lemma dispatch_Inv c s s' out :
  Inv s → dispatch c s = Some (s', out) → Inv s' ∧ extends s s'.
Proof.
  intros HI. destruct c as [n|d p|prob team stat tm| | | |n|team prob stat|]; simpl.
  - intros [= Heq]. assert (s' = (addTeam n s).1) as -> by (by rewrite Heq).
    clear Heq. split; [by apply Inv_addTeam|].
    unfold addTeam. destruct (started s); [apply extends_refl|].
    destruct (bool_decide_reflect (is_Some (teams s !! n))) as [Hk|Hk];
      [apply extends_refl|].
    split_and!; simpl.
    + intros g Hg. destruct (decide (n = g)) as [->|Hne].
      * by rewrite lookup_insert_eq.
      * by rewrite lookup_insert_ne.
    + intros m Hm. apply elem_of_app. by left.
    + intros m [Hm| ->%list_elem_of_singleton]%elem_of_app; [by left|right].
      destruct (teams s !! n) eqn:Ht; [|done]. by destruct Hk.
  - intros Hs. split; [by eapply Inv_start|].
    unfold start in Hs. destruct (started s); [injection Hs as <- _; apply extends_refl|].
    destruct (p <? 0); [done|]. injection Hs as <- _. by apply extends_same.
  - intros [= <- _]. split; [by apply Inv_submit|].
    apply extends_known; [|done].
    intros g Hg. destruct (decide (g = team)) as [->|Hne].
    + by rewrite submit_team.
    + by rewrite submit_other.
  - intros [= Heq]. pose proof (flush_Inv false s HI) as Hs.
    rewrite Heq in Hs. simpl in Hs. subst s'.
    split; [by apply Inv_set_lastRanking|by apply extends_same].
  - intros [= Heq]. pose proof (Inv_freeze s HI) as HI'. rewrite Heq in HI'.
    split; [done|]. clear HI'.
    unfold freeze in Heq. destruct (frozen s); injection Heq as <- _.
    + apply extends_refl.
    + apply extends_known; [|done]. simpl.
      intros g [t Ht]. by rewrite lookup_fmap, Ht.
  - intros Hs. destruct (scroll_Inv s s' out HI Hs) as (? & ? & _). done.
  - intros [= <- _]. split; [done|apply extends_refl].
  - intros [= <- _]. split; [done|apply extends_refl].
  - intros [= <- _]. split; [done|apply extends_refl].
Qed.

Lemma run_Inv cmds s s' out :
  Inv s → run cmds s = Some (s', out) → Inv s' ∧ extends s s'.
Proof.
  revert s out. induction cmds as [|c cmds IH]; intros s out HI; simpl.
  - intros [= <- _]. split; [done|apply extends_refl].
  - assert (match dispatch c s with
            | Some (s1, out1) =>
                match run cmds s1 with
                | Some (s2, out2) => Some (s2, out1 ++ out2)
                | None => None
                end
            | None => None
            end = Some (s', out) → Inv s' ∧ extends s s') as Hgen.
    { destruct (dispatch c s) as [[s1 out1]|] eqn:Hd; [|done].
      destruct (dispatch_Inv c s s1 out1 HI Hd) as [HI1 He1].
      destruct (run cmds s1) as [[s2 out2]|] eqn:Hr; [|done].
      intros [= <- _]. destruct (IH s1 out2 HI1 Hr) as [HI2 He2].
      split; [done|by eapply extends_trans]. }
    destruct c; try exact Hgen.
    intros [= <- _]. split; [done|apply extends_refl].
Qed.

Lemma reachable_Inv s : reachable s → Inv s.
Proof.
  intros (cmds & out & Hrun). by destruct (run_Inv _ _ _ _ Inv_new Hrun).
Qed.

(** ** The two flags of a problem status *)

Lemma freeze_status_id ps :
  solved ps = wasSolvedBeforeFreeze ps → freeze_status ps = ps.
Proof.
  intros Hps. unfold freeze_status. destruct ps as [sv st wa fs wb]; simpl in *.
  destruct sv; by subst.
Qed.

Lemma freeze_teams_id s : Inv s → freeze_team <$> teams s = teams s.
Proof.
  intros HI. apply map_eq. intros n. rewrite lookup_fmap.
  destruct (teams s !! n) as [t|] eqn:Ht; simpl; [|done]. f_equal.
  unfold freeze_team, set_problems. destruct t as [nm pr sb]; simpl. f_equal.
  apply map_eq. intros p. rewrite lookup_fmap.
  destruct (pr !! p) as [ps|] eqn:Hp; simpl; [|done]. f_equal.
  apply freeze_status_id. by eapply (inv_flags s HI n _ p ps Ht).
Qed.

(** C9. In every reachable system the fields [solved] and
    [wasSolvedBeforeFreeze] of every problem status are equal.  Hence the
    snapshot loop of [freeze] changes no team, and the test
    [ps.solved && ps.wasSolvedBeforeFreeze] of the ranking calculator and of
    the scoreboard is the test [ps.solved].  The three places that write the
    flags: [submit] and the replay of [scroll] set [wasSolvedBeforeFreeze]
    whenever they set [solved], and [freeze] changes the flag of solved
    problems only. *)
Theorem C9_flags_agree (s : ICPCSystem) :
  reachable s →
  (∀ n t p ps, teams s !! n = Some t → problems t !! p = Some ps →
     solved ps = wasSolvedBeforeFreeze ps)
  ∧ freeze_team <$> teams s = teams s
  ∧ teams (freeze s).1 = teams s
  ∧ (∀ n t p ps, teams s !! n = Some t → problems t !! p = Some ps →
       solved ps && wasSolvedBeforeFreeze ps = solved ps)
  ∧ (∀ n info p,
       rank_info_step (team_of (teams s) n) info p
       = rank_info_step_solved (team_of (teams s) n) info p)
  ∧ (∀ frz sub ps, solved ps = false → solved (submit_status frz sub ps) = true →
       wasSolvedBeforeFreeze (submit_status frz sub ps) = true)
  ∧ (∀ sub ps, solved ps = false → solved (replay_step ps sub) = true →
       wasSolvedBeforeFreeze (replay_step ps sub) = true)
  ∧ (∀ ps, wasSolvedBeforeFreeze (freeze_status ps) ≠ wasSolvedBeforeFreeze ps →
       solved ps = true).
Proof.
  intros HI%reachable_Inv. pose proof (inv_flags s HI) as Hflags.
  split_and!.
  6: { intros frz sub ps Hs. unfold submit_status, apply_visible. rewrite Hs.
       destruct (frz && negb (wasSolvedBeforeFreeze ps)); simpl; [congruence|].
       destruct (String.eqb (status sub) "Accepted"); simpl; congruence. }
  6: { intros sub ps Hs. unfold replay_step. rewrite Hs.
       destruct (String.eqb (status sub) "Accepted"); simpl; congruence. }
  6: { intros ps. unfold freeze_status. by destruct (solved ps). }
  - done.
  - by apply freeze_teams_id.
  - unfold freeze. destruct (frozen s); [done|]. simpl. by apply freeze_teams_id.
  - intros n t p ps Ht Hp. rewrite <- (Hflags n t p ps Ht Hp). by destruct (solved ps).
  - intros n info p. unfold rank_info_step, rank_info_step_solved, team_of.
    destruct (teams s !! n) as [t|] eqn:Ht; simpl; [|done].
    destruct (problems t !! p) as [ps|] eqn:Hp; [|done].
    rewrite <- (Hflags n t p ps Ht Hp). by destruct (solved ps).
Qed.

(** ** [queryRanking] *)

Lemma alphabetical_rank_registered names n :
  NoDup names → n ∈ names →
  alphabetical_rank names n
  = Z.of_nat (length (filter (λ m, String.ltb m n = true) names)) + 1.
Proof.
  intros Hnd Hn. unfold alphabetical_rank.
  rewrite <- (std_sort_perm String.ltb names) in Hnd, Hn |- * at 2.
  pose proof (std_sort_sorted _ string_ltb_strict names) as Hs.
  apply list_elem_of_split in Hn as (l1 & l2 & Heq). rewrite Heq in *.
  rewrite (sorted_prefix_filter _ string_ltb_strict) by done.
  assert (list_find (λ x, x = n) (l1 ++ n :: l2) = Some (length l1, n)) as ->; [|done].
  apply list_find_Some. split_and!; [by rewrite list_lookup_middle|done|].
  intros j y Hj Hlt ->. rewrite lookup_app_l in Hj by done.
  apply NoDup_app in Hnd as (_ & Hd & _).
  apply (Hd n); [by eapply list_elem_of_lookup_2|apply list_elem_of_here].
Qed.

Lemma alphabetical_rank_absent names n : n ∉ names → alphabetical_rank names n = 0.
Proof.
  intros Hn. unfold alphabetical_rank.
  assert (list_find (λ x, x = n) (std_sort String.ltb names) = None) as ->; [|done].
  apply list_find_None, Forall_forall. intros x Hx ->. by apply std_sort_elem in Hx.
Qed.

Lemma loop_head_view s s' :
  same_view s s' → lastRanking s' = lastRanking s → loop_head s → loop_head s'.
Proof.
  intros Hv Hr Hh. apply loop_head_ranking. apply loop_head_ranking in Hh.
  by rewrite Hr, Hh, (ranking_names_view s s').
Qed.

Lemma scroll_loop_loop_head fuel s s' out :
  loop_head s → scroll_loop fuel s = Some (s', out) → loop_head s'.
Proof.
  revert s out. induction fuel as [|fuel IH]; intros s out Hhead; simpl;
    destruct (scroll_step s) as [s1|s1 out1] eqn:Hstep; try done.
  - intros [= <- _]. apply scroll_step_finished in Hstep as [_ ->].
    eapply loop_head_view; [apply same_view_touch|done..].
  - intros [= <- _]. apply scroll_step_finished in Hstep as [_ ->].
    eapply loop_head_view; [apply same_view_touch|done..].
  - destruct (scroll_loop fuel s1) as [[s2 out2]|] eqn:Hloop; [|done].
    intros [= <- _]. eapply IH; [|done]. by eapply scroll_step_loop_head.
Qed.

(** After [scroll] on a frozen board the cached ranking is the ranking of
    the system it leaves. *)
Lemma scroll_caches_ranking s s' out :
  frozen s = true → scroll s = Some (s', out) →
  lastRanking s' = (calculateRanking s').1.
Proof.
  intros Hfr. unfold scroll. rewrite Hfr. simpl.
  pose proof (scroll_enter_loop_head s) as Hhead.
  destruct (scroll_enter s) as [s2 out1]. simpl in Hhead.
  destruct (scroll_loop (scroll_fuel s2) s2) as [[s3 changes]|] eqn:Hloop; [|done].
  pose proof (scroll_loop_loop_head _ _ _ _ Hhead Hloop) as Hhead3.
  pose proof (printScoreboard_state s3) as Hp.
  destruct (printScoreboard s3) as [board s4]. simpl in Hp. subst s4.
  intros [= <- _].
  apply (loop_head_view s3); [|done..].
  split_and!; [done..|]. intros n. simpl. by rewrite !team_of_touch_all.
Qed.

(** C5, as the claim states it, fails.  After [FLUSH] the snapshot ranks
    ["b"] second, and so does the ranking [scroll] caches with its own
    [flush(true)] on entry.  The reveal of ["b"]'s accepted submission then
    writes the recomputed ranking to the cache without a flush, and
    [QUERY_RANKING b] answers 1, which is not the rank of the last flushed
    snapshot.  Moreover the fallback does not wait for "no flush so far": a
    [FLUSH] before any team is registered caches an empty ranking, and a
    later query still answers with the alphabetical place. *)
Lemma C5_counterexample :
  let cmds := [ADDTEAM "a"; ADDTEAM "b"; START 10 1; FLUSH; FREEZE;
               SUBMIT "A" "b" "Accepted" 5; SCROLL] in
  let early := [FLUSH; ADDTEAM "a"; ADDTEAM "b"] in
  last_flushed cmds new_ICPCSystem None = Some [("a", 1); ("b", 2)]
  ∧ lastRanking (scroll_head_after (take 6 cmds)) = [("a", 1); ("b", 2)]
  ∧ rank_in [("a", 1); ("b", 2)] "b" = 2
  ∧ queryRanking "b" (state_after cmds)
    = [Msg "[Info]Complete query ranking."; RankLine "b" 1]
  ∧ last_flushed early new_ICPCSystem None = Some []
  ∧ queryRanking "b" (state_after early)
    = [Msg "[Info]Complete query ranking."; RankLine "b" 2].
Proof. by vm_compute. Qed.

(** C5 (amended). [queryRanking] fails exactly when the team has no entry in
    the team table.  Otherwise it prints the information line, the staleness
    warning exactly when the board is frozen, and a rank: when the cached
    ranking [lastRanking] is not empty, the team's rank in it (0 if the team
    is not in it); when it is empty, the team's place, counted from 1, in the
    sorted list of registered names (0 if it is not registered).  The cache
    is not a fresh recompute, and it is written by [flush] and also by
    [scroll], which leaves in it the ranking recomputed after its reveals. *)
Theorem C5_query_ranking (s : ICPCSystem) (n : string) :
  (queryRanking n s = [Msg "[Error]Query ranking failed: cannot find the team."]
   ↔ teams s !! n = None)
  ∧ (is_Some (teams s !! n) →
       queryRanking n s =
         Msg "[Info]Complete query ranking."
         :: (if frozen s
             then [Msg "[Warning]Scoreboard is frozen. The ranking may be inaccurate until it were scrolled."]
             else [])
         ++ [RankLine n (reported_rank s n)])
  ∧ (lastRanking s ≠ [] → reported_rank s n = rank_in (lastRanking s) n)
  ∧ (lastRanking s = [] → NoDup (teamNames s) → n ∈ teamNames s →
       reported_rank s n
       = Z.of_nat (length (filter (λ m, String.ltb m n = true) (teamNames s))) + 1)
  ∧ (lastRanking s = [] → n ∉ teamNames s → reported_rank s n = 0)
  ∧ (∀ silent, lastRanking (flush silent s).1 = (calculateRanking s).1)
  ∧ (∀ s' out, frozen s = true → scroll s = Some (s', out) →
       lastRanking s' = (calculateRanking s').1).
Proof.
  split_and!.
  - unfold queryRanking.
    destruct (bool_decide_reflect (is_Some (teams s !! n))) as [Hk|Hk]; simpl.
    + split; [done|]. intros Hnone. rewrite Hnone in Hk. by destruct Hk.
    + split; [|done]. intros _. by destruct (teams s !! n); [destruct Hk|].
  - intros Hk. unfold queryRanking. by rewrite bool_decide_eq_true_2.
  - intros Hne. unfold reported_rank. by rewrite bool_decide_eq_false_2.
  - intros Hnil Hnd Hn. unfold reported_rank. rewrite bool_decide_eq_true_2 by done.
    by apply alphabetical_rank_registered.
  - intros Hnil Hn. unfold reported_rank. rewrite bool_decide_eq_true_2 by done.
    by apply alphabetical_rank_absent.
  - intros silent. unfold flush. by destruct (calculateRanking s).
  - intros s' out. apply scroll_caches_ranking.
Qed.

(** ** The teams a scoreboard names *)

Lemma rows_registered_app s out1 out2 :
  rows_registered s out1 → rows_registered s out2 → rows_registered s (out1 ++ out2).
Proof.
  intros H1 H2 o n [Ho|Ho]%elem_of_app Hn; [by eapply H1|by eapply H2].
Qed.

Lemma rows_registered_extends s s' out :
  extends s s' → rows_registered s out → rows_registered s' out.
Proof. intros (_ & Hm & _) Hr o n Ho Hn. by eapply Hm, Hr. Qed.

Lemma rows_registered_none s out :
  (∀ o, o ∈ out → row_team o = None) → rows_registered s out.
Proof. intros Hnone o n Ho Hn. by rewrite (Hnone o Ho) in Hn. Qed.

Lemma print_rows_out R s :
  (print_rows R s).1
  = map (λ p, score_row (team_of (teams s) p.1) (problemList s) p.2) R.
Proof.
  revert s. induction R as [|p R IH]; intros s; simpl; [done|].
  specialize (IH (set_teams (touch p.1 (teams s)) s)).
  destruct (print_rows R _) as [rows s2]. simpl in *. rewrite IH, team_of_touch.
  f_equal. apply map_ext. intros q. by rewrite team_of_touch.
Qed.

Lemma printScoreboard_rows s : Inv s → rows_registered s (printScoreboard s).1.
Proof.
  intros HI o n Ho Hn. unfold printScoreboard in Ho.
  rewrite calculateRanking_Inv in Ho by done. rewrite print_rows_out in Ho.
  apply list_elem_of_fmap in Ho as ([m r] & -> & Hp). simpl in Hn.
  apply ranked_registered in Hp as [Hm _]. injection Hn as <-.
  by rewrite Inv_team_name.
Qed.

Lemma scroll_loop_no_rows fuel s s' out :
  scroll_loop fuel s = Some (s', out) → ∀ o, o ∈ out → row_team o = None.
Proof.
  revert s out. induction fuel as [|fuel IH]; intros s out; simpl;
    destruct (scroll_step s) as [s1|s1 out1] eqn:Hstep; try done.
  - intros [= _ <-] o Ho. by apply elem_of_nil in Ho.
  - intros [= _ <-] o Ho. by apply elem_of_nil in Ho.
  - destruct (scroll_loop fuel s1) as [[s2 out2]|] eqn:Hloop; [|done].
    intros [= <- <-] o [Ho|Ho]%elem_of_app; [|by apply (IH _ _ Hloop)].
    apply scroll_step_revealed in Hstep as (_ & _ & _ & _ & _ & ->).
    destruct (_ <? _); [|by apply elem_of_nil in Ho].
    by apply list_elem_of_singleton in Ho as ->.
Qed.

Lemma scroll_out s s' out :
  Inv s → scroll s = Some (s', out) → rows_registered s' out.
Proof.
  intros HI. unfold scroll. destruct (frozen s) eqn:Hfr; simpl.
  2: { intros [= <- <-]. apply rows_registered_none.
       by intros o ->%list_elem_of_singleton. }
  pose proof (scroll_enter_Inv s HI) as He.
  pose proof (scroll_enter_loop_head s) as Hhead.
  assert ((scroll_enter s).2
          = Msg "[Info]Scroll scoreboard."
            :: (printScoreboard (set_lastRanking (number_ranks (ranking_names s)) s)).1)
    as Hout.
  { unfold scroll_enter. pose proof (flush_Inv true s HI) as Hf.
    destruct (flush true s) as [s1 o1]. simpl in Hf. subst s1.
    by destruct (printScoreboard _). }
  destruct (scroll_enter s) as [s2 out1]. simpl in He, Hhead, Hout.
  assert (Inv s2) as HI2 by (subst s2; by apply Inv_set_lastRanking).
  destruct (scroll_loop (scroll_fuel s2) s2) as [[s3 changes]|] eqn:Hloop; [|done].
  destruct (scroll_loop_Inv _ _ _ _ HI2 Hhead Hloop) as (HI3 & _ & _ & Hn & _).
  pose proof (printScoreboard_rows s3 HI3) as Hrows3.
  pose proof (printScoreboard_Inv s3 HI3) as Hp.
  destruct (printScoreboard s3) as [board s4]. simpl in Hp, Hrows3. subst s4.
  intros [= <- <-].
  assert (teamNames s3 = teamNames s) as Hnames by (rewrite Hn; by subst s2).
  repeat apply rows_registered_app.
  - rewrite Hout. intros o n [->|Ho]%elem_of_cons Hrow; [done|]. simpl. rewrite Hnames.
    pose proof (printScoreboard_rows _ (Inv_set_lastRanking s HI)) as Hr.
    by apply (Hr o n).
  - apply rows_registered_none. by eapply scroll_loop_no_rows.
  - done.
Qed.

Lemma dispatch_out c s s' out :
  Inv s → dispatch c s = Some (s', out) → rows_registered s' out.
Proof.
  intros HI. destruct c as [n|d p|prob team stat tm| | | |n|team prob stat|]; simpl.
  - intros [= Heq]. apply rows_registered_none. intros o Ho.
    assert (out = (addTeam n s).2) as -> by (by rewrite Heq).
    unfold addTeam in Ho. destruct (started s); simpl in Ho.
    { by apply list_elem_of_singleton in Ho as ->. }
    destruct (bool_decide _); simpl in Ho; by apply list_elem_of_singleton in Ho as ->.
  - unfold start. destruct (started s); [|destruct (p <? 0); [done|]];
      intros [= <- <-]; apply rows_registered_none;
      by intros o ->%list_elem_of_singleton.
  - intros [= <- <-]. apply rows_registered_none. intros o Ho. by apply elem_of_nil in Ho.
  - intros [= Heq]. apply rows_registered_none. intros o Ho.
    assert (out = (flush false s).2) as -> by (by rewrite Heq).
    unfold flush in Ho. destruct (calculateRanking s). simpl in Ho.
    by apply list_elem_of_singleton in Ho as ->.
  - intros [= Heq]. apply rows_registered_none. intros o Ho.
    assert (out = (freeze s).2) as -> by (by rewrite Heq).
    unfold freeze in Ho. destruct (frozen s); simpl in Ho;
      by apply list_elem_of_singleton in Ho as ->.
  - by apply scroll_out.
  - intros [= <- <-]. apply rows_registered_none. intros o Ho.
    unfold queryRanking in Ho. destruct (negb _).
    { by apply list_elem_of_singleton in Ho as ->. }
    apply elem_of_cons in Ho as [->|Ho]; [done|].
    apply elem_of_app in Ho as [Ho|Ho].
    + destruct (frozen s); [by apply list_elem_of_singleton in Ho as ->|].
      by apply elem_of_nil in Ho.
    + by apply list_elem_of_singleton in Ho as ->.
  - intros [= <- <-]. apply rows_registered_none. intros o Ho.
    unfold querySubmission in Ho. destruct (negb _).
    { by apply list_elem_of_singleton in Ho as ->. }
    apply elem_of_cons in Ho as [->|Ho]; [done|].
    destruct (find _ _); by apply list_elem_of_singleton in Ho as ->.
  - intros [= <- <-]. apply rows_registered_none.
    by intros o ->%list_elem_of_singleton.
Qed.

Lemma run_out cmds s s' out :
  Inv s → run cmds s = Some (s', out) → rows_registered s' out.
Proof.
  revert s out. induction cmds as [|c cmds IH]; intros s out HI; simpl.
  - intros [= <- <-]. apply rows_registered_none. intros o Ho. by apply elem_of_nil in Ho.
  - assert (match dispatch c s with
            | Some (s1, out1) =>
                match run cmds s1 with
                | Some (s2, out2) => Some (s2, out1 ++ out2)
                | None => None
                end
            | None => None
            end = Some (s', out) → rows_registered s' out) as Hgen.
    { destruct (dispatch c s) as [[s1 out1]|] eqn:Hd; [|done].
      destruct (dispatch_Inv c s s1 out1 HI Hd) as [HI1 He1].
      pose proof (dispatch_out c s s1 out1 HI Hd) as Ho1.
      destruct (run cmds s1) as [[s2 out2]|] eqn:Hr; [|done].
      intros [= <- <-]. destruct (run_Inv _ _ _ _ HI1 Hr) as [HI2 He2].
      apply rows_registered_app;
        [exact (rows_registered_extends _ _ _ He2 Ho1)|exact (IH _ _ HI1 Hr)]. }
    destruct c; try exact Hgen.
    intros [= <- <-]. apply rows_registered_none.
    by intros o ->%list_elem_of_singleton.
Qed.

(** ** A submission by a team that was never registered *)

Lemma rank_in_unranked (R : list (string * Z)) n : n ∉ map fst R → rank_in R n = 0.
Proof.
  intros Hn. unfold rank_in. rewrite find_absent; [done|].
  intros [m r] Hm. apply bool_decide_eq_false. simpl. intros ->.
  apply Hn. apply list_elem_of_fmap. by exists (n, r).
Qed.

(** C10. [submit] for a team name that is not registered does not fail: the
    team gets an entry in the team table and the submission is recorded in
    its ledger, while the list of registered names stays as it is.  Whatever
    commands follow, the name stays known to [queryRanking] and
    [querySubmission], which do not report an unknown team, and it is never
    registered: it is in no computed or cached ranking, no scoreboard row is
    printed for it, and [queryRanking] reports rank 0. *)
Theorem C10_unregistered_submit (s : ICPCSystem) (prob g stat : string) (tm : Z)
    (cmds : list Command) (s2 : ICPCSystem) (out : list Output) :
  reachable s → g ∉ teamNames s →
  run cmds (submit prob g stat tm s) = Some (s2, out) →
  let s1 := submit prob g stat tm s in
  is_Some (teams s1 !! g)
  ∧ submissions (team_of (teams s1) g)
    = submissions (team_of (teams s) g) ++ [mkSubmission prob stat tm]
  ∧ teamNames s1 = teamNames s
  ∧ is_Some (teams s2 !! g)
  ∧ (g ∉ teamNames s2)
  ∧ (g ∉ map fst (calculateRanking s2).1)
  ∧ (g ∉ map fst (lastRanking s2))
  ∧ (∀ o, o ∈ out ++ (printScoreboard s2).1 → row_team o ≠ Some g)
  ∧ queryRanking g s2
    = Msg "[Info]Complete query ranking."
      :: (if frozen s2
          then [Msg "[Warning]Scoreboard is frozen. The ranking may be inaccurate until it were scrolled."]
          else [])
      ++ [RankLine g 0]
  ∧ (∀ p st, ∃ answer,
       querySubmission g p st s2 = Msg "[Info]Complete query submission." :: answer).
Proof.
  intros HI%reachable_Inv Hg Hrun s1.
  pose proof (Inv_submit prob g stat tm s HI) as HI1. fold s1 in HI1, Hrun.
  destruct (run_Inv _ _ _ _ HI1 Hrun) as [HI2 (Hk & _ & Hnew)].
  pose proof (run_out _ _ _ _ HI1 Hrun) as Hrows.
  pose proof (submit_team prob g stat tm s) as Hteam. cbv zeta in Hteam. fold s1 in Hteam.
  assert (is_Some (teams s1 !! g)) as Hk1 by (by rewrite Hteam).
  assert (g ∉ teamNames s2) as Hg2.
  { intros Hin. destruct (Hnew g Hin) as [Hin1|Hnone]; [done|].
    rewrite Hnone in Hk1. by destruct Hk1. }
  assert (g ∉ map fst (lastRanking s2)) as Hcache.
  { intros (p & -> & Hp)%list_elem_of_fmap. by apply Hg2, (inv_ranking s2 HI2). }
  split_and!; try done.
  - unfold team_of at 1. by rewrite Hteam.
  - by apply Hk.
  - rewrite calculateRanking_spec. simpl. rewrite number_ranks_fst.
    by rewrite ranking_names_registered.
  - intros o [Ho|Ho]%elem_of_app Hrow.
    + by apply Hg2, (Hrows o g).
    + by apply Hg2, (printScoreboard_rows s2 HI2 o g).
  - unfold queryRanking. rewrite bool_decide_eq_true_2 by (by apply Hk). simpl.
    do 2 f_equal. destruct (bool_decide (lastRanking s2 = [])); simpl.
    + fold (alphabetical_rank (teamNames s2) g).
      by rewrite alphabetical_rank_absent.
    + by rewrite rank_in_unranked.
  - intros p st. unfold querySubmission.
    rewrite bool_decide_eq_true_2 by (by apply Hk). simpl. eauto.
Qed.

(** ** The problem list of a run *)

(** [start] names the problems in ascending order as long as the narrowing
    to [char] does not wrap, that is for at most 191 problems ('A' is 65). *)
Lemma problem_names_ascending k :
  0 ≤ k ≤ 191 → StronglySorted (λ a b, String.ltb a b = true) (problem_names k).
Proof.
  intros Hk.
  assert (Forall (λ n, StronglySorted (λ a b, String.ltb a b = true)
                         (problem_names (Z.of_nat n))) (seq 0 192)) as Hall
    by (apply (bool_decide_unpack _); vm_compute; exact I).
  rewrite Forall_forall in Hall. rewrite <- (Z2Nat.id k) by lia.
  apply Hall, elem_of_seq. lia.
Qed.

Lemma reachable_problemList s :
  reachable s →
  problemList s = if started s then problem_names (problemCount s) else [].
Proof. intros HI%reachable_Inv. apply (inv_problems s HI). Qed.

(** In a run with at most 191 problems the problem list is ascending, so the
    first problem of the list with a property is the one with the smallest
    identifier. *)
Lemma reachable_problems_ascending s :
  reachable s → problemCount s ≤ 191 →
  StronglySorted (λ a b, String.ltb a b = true) (problemList s).
Proof.
  intros Hr Hk. rewrite (reachable_problemList s Hr).
  destruct (started s); [|constructor].
  destruct (decide (0 ≤ problemCount s)) as [Hpos|Hneg].
  - by apply problem_names_ascending.
  - unfold problem_names. replace (Z.to_nat (problemCount s)) with 0%nat by lia.
    constructor.
Qed.

Lemma reachable_NoDup s : reachable s → NoDup (teamNames s).
Proof. intros HI%reachable_Inv. apply (inv_nodup s HI). Qed.

(** Every iteration of the loop of a [scroll] in a run starts from a loop
    head with distinct registered names. *)
Lemma reachable_scroll_head s :
  reachable s →
  NoDup (teamNames (scroll_enter s).1) ∧ loop_head (scroll_enter s).1.
Proof.
  intros HI%reachable_Inv. split; [|apply scroll_enter_loop_head].
  rewrite scroll_enter_Inv by done. apply (inv_nodup s HI).
Qed.

Lemma reveal_next_head s s' out :
  NoDup (teamNames s) → loop_head s → scroll_step s = Revealed s' out →
  NoDup (teamNames s') ∧ loop_head s'.
Proof.
  intros Hnd Hhead Hstep. split; [|by eapply scroll_step_loop_head].
  apply scroll_step_revealed in Hstep as (_ & (Hn & _) & _). by rewrite Hn.
Qed.

(** ** Examples *)

Lemma C1_witness :
  let s := times_decide in
  let amy := rank_info (teams s) (problemList s) "amy" in
  NoDup (teamNames s)
  ∧ "amy" ∈ teamNames s ∧ "Zed" ∈ teamNames s ∧ "amy" ≠ "Zed"
  ∧ info_solved amy = 2 ∧ info_penalty amy = 40 ∧ info_times amy ≡ₚ [5; 15]
  ∧ String.ltb "Zed" "amy" = true
  ∧ rank_in (calculateRanking s).1 "amy" = 1
  ∧ rank_in (calculateRanking s).1 "Zed" = 2.
Proof.
  intros s amy.
  assert (NoDup (teamNames s)) as H1 by (apply (bool_decide_unpack _); vm_compute; exact I).
  assert ("amy" ∈ teamNames s) as H2 by (apply (bool_decide_unpack _); vm_compute; exact I).
  assert ("Zed" ∈ teamNames s) as H3 by (apply (bool_decide_unpack _); vm_compute; exact I).
  assert ("amy" ≠ "Zed") as H4 by (apply (bool_decide_unpack _); vm_compute; exact I).
  assert ("Zed" ≠ "amy") as H5 by (apply (bool_decide_unpack _); vm_compute; exact I).
  assert (Z.of_nat (length (teamNames s)) = 2) as Hlen by (vm_compute; reflexivity).
  destruct (C1_ranking_total_order s "amy" "Zed" H1 H2 H3 H4)
    as (_ & _ & Hsolved & _ & Hpenalty & Htimes & _ & _ & _ & Hlt & _ & Hamy).
  destruct (C1_ranking_total_order s "Zed" "amy" H1 H3 H2 H5)
    as (_ & _ & _ & _ & _ & _ & _ & _ & _ & _ & _ & Hzed).
  assert (rank_in (calculateRanking s).1 "amy" < rank_in (calculateRanking s).1 "Zed")
    as Hbefore by (apply Hlt; vm_compute; reflexivity).
  rewrite Hlen in Hamy, Hzed.
  split_and!; [exact H1|exact H2|exact H3|exact H4| | | | | |].
  - etransitivity; [exact Hsolved|]. vm_compute. reflexivity.
  - apply Hpenalty. vm_compute. split; [intros Hgt; discriminate Hgt|reflexivity].
  - etransitivity; [exact Htimes|]. vm_compute. reflexivity.
  - vm_compute. reflexivity.
  - lia.
  - lia.
Defined.

Lemma C3_witness :
  loop_head three_teams_head
  ∧ ∃ t r, (t, r) ∈ lastRanking three_teams_head ∧ has_pending three_teams_head t
      ∧ ∀ u r', (u, r') ∈ lastRanking three_teams_head →
          has_pending three_teams_head u → r' ≤ r.
Proof.
  assert (loop_head three_teams_head) as Hh by (vm_compute; reflexivity).
  split; [exact Hh|].
  pose proof (C3_reveal_selection three_teams_head Hh) as H.
  destruct (scroll_step three_teams_head) as [s'|s' out] eqn:E.
  - vm_compute in E. discriminate E.
  - destruct H as (t & r & prob & H1 & H2 & H3 & _). exists t, r. auto.
Defined.

Lemma C4_witness :
  let s := three_teams_head in
  let s' := step_state (scroll_step s) in
  NoDup (teamNames s) ∧ loop_head s
  ∧ scroll_step s = Revealed s' [ScrollChange "c" "a" 1 5]
  ∧ ∃ replaced,
      (replaced, rank_in (lastRanking s') "c" + 1) ∈ lastRanking s'
      ∧ (replaced, rank_in (lastRanking s') "c") ∈ lastRanking s.
Proof.
  intros s s'.
  assert (NoDup (teamNames s)) as H1 by (apply (bool_decide_unpack _); vm_compute; exact I).
  assert (loop_head s) as H2 by (vm_compute; reflexivity).
  assert (scroll_step s = Revealed s' [ScrollChange "c" "a" 1 5]) as H3
    by (vm_compute; reflexivity).
  split_and!; [exact H1|exact H2|exact H3|].
  destruct (C4_rank_change_line s s' _ H1 H2 H3) as (_ & Hlt & _).
  destruct Hlt as (replaced & _ & Hnew & Hold); [vm_compute; reflexivity|].
  exists replaced. split; [exact Hnew|exact Hold].
Defined.

Lemma C6_witness :
  agree_visible hidden_accept nothing_submitted
  ∧ queue hidden_accept "a" "A" ≠ queue nothing_submitted "a" "A"
  ∧ (calculateRanking hidden_accept).1 = (calculateRanking nothing_submitted).1.
Proof.
  assert (agree_visible hidden_accept nothing_submitted) as Ha.
  { split_and!; [vm_compute; reflexivity..|].
    intros n p Hn Hp. vm_compute in Hn, Hp.
    apply list_elem_of_singleton in Hn as ->. apply list_elem_of_singleton in Hp as ->.
    vm_compute. reflexivity. }
  split_and!; [exact Ha|vm_compute; discriminate|].
  exact (proj1 (C6_ranking_ignores_hidden hidden_accept nothing_submitted Ha)).
Defined.

Lemma C7_witness :
  let s := three_teams_head in
  let s' := step_state (scroll_step s) in
  NoDup (teamNames s) ∧ loop_head s
  ∧ scroll_step s = Revealed s' [ScrollChange "c" "a" 1 5]
  ∧ rank_in (lastRanking s') "c" ≤ rank_in (lastRanking s) "c".
Proof.
  intros s s'.
  assert (NoDup (teamNames s)) as H1 by (apply (bool_decide_unpack _); vm_compute; exact I).
  assert (loop_head s) as H2 by (vm_compute; reflexivity).
  assert (scroll_step s = Revealed s' [ScrollChange "c" "a" 1 5]) as H3
    by (vm_compute; reflexivity).
  split_and!; [exact H1|exact H2|exact H3|].
  exact (proj2 (proj2 (C7_reveal_never_worsens s s' _ H1 H2 H3))).
Defined.

Lemma state_after_reachable cmds :
  is_Some (run cmds new_ICPCSystem) → reachable (state_after cmds).
Proof.
  unfold state_after, reachable. intros [[s out] Hrun]. rewrite Hrun. eauto.
Qed.

Lemma C9_witness :
  reachable solved_then_frozen
  ∧ freeze_team <$> teams solved_then_frozen = teams solved_then_frozen.
Proof.
  assert (reachable solved_then_frozen) as Hr.
  { apply state_after_reachable. vm_compute. eexists. reflexivity. }
  split; [exact Hr|].
  exact (proj1 (proj2 (C9_flags_agree solved_then_frozen Hr))).
Defined.

Lemma C10_witness :
  let cmds := [FLUSH; FREEZE; SCROLL; QUERY_RANKING "ghost"] in
  let s1 := submit "A" "ghost" "Accepted" 5 one_team in
  let s2 := default s1 (fst <$> run cmds s1) in
  let out := default [] (snd <$> run cmds s1) in
  reachable one_team ∧ ("ghost" ∉ teamNames one_team)
  ∧ run cmds s1 = Some (s2, out)
  ∧ queryRanking "ghost" s2
    = [Msg "[Info]Complete query ranking."; RankLine "ghost" 0].
Proof.
  intros cmds s1 s2 out.
  assert (reachable one_team) as H1.
  { apply state_after_reachable. vm_compute. eexists. reflexivity. }
  assert ("ghost" ∉ teamNames one_team) as H2
    by (apply (bool_decide_unpack _); vm_compute; exact I).
  assert (run cmds s1 = Some (s2, out)) as H3 by (vm_compute; reflexivity).
  split_and!; [exact H1|exact H2|exact H3|].
  destruct (C10_unregistered_submit one_team "A" "ghost" "Accepted" 5 cmds s2 out
              H1 H2 H3) as (_ & _ & _ & _ & _ & _ & _ & _ & Hq & _).
  exact Hq.
Defined.

(** * Further properties of the engine *)

(** ** What every command of a run preserves *)

(** The system one reveal leaves, for a system of a run. *)
Lemma scroll_step_form s s' out :
  Inv s → loop_head s → scroll_step s = Revealed s' out →
  hasFrozen (selection s) = true
  ∧ s' = set_lastRanking (number_ranks (ranking_names (revealed s))) (revealed s).
Proof.
  intros HI Hhead Hstep.
  pose proof (scroll_step_revealed _ _ _ Hstep) as (Hsel & _).
  destruct (revealed_Inv s HI Hhead Hsel) as [_ HI3].
  split; [done|].
  rewrite scroll_step_unfold in Hstep. cbv zeta in Hstep. rewrite Hsel in Hstep.
  cbn [negb] in Hstep.
  assert (teamNames (revealed s) = teamNames s) as Hnames by done.
  pose proof (reveal_registered s Hhead Hsel) as Ht.
  remember (revealed s) as s3 eqn:E3.
  rewrite (touch_all_known (teamNames s)) in Hstep
    by (intros n Hn; apply (Inv_known s3); [done|by rewrite Hnames]).
  rewrite set_teams_id in Hstep.
  destruct (_ <? _); injection Hstep as <- _; [|done].
  change (teams (set_lastRanking (number_ranks (ranking_names s3)) s3))
    with (teams s3).
  rewrite touch_known; [by destruct s3|].
  apply (Inv_known s3); [done|by rewrite Hnames].
Qed.

Lemma freeze_Inv_form s :
  Inv s → (freeze s).1 = if frozen s then s else set_frozen true s.
Proof.
  intros HI. unfold freeze. destruct (frozen s) eqn:Hf; [done|]. simpl.
  rewrite freeze_teams_id by done. destruct s; simpl in *. by subst.
Qed.

Section Preserved.
Context (R : ICPCSystem → ICPCSystem → Prop).
Context (R_refl : ∀ s, R s s).
Context (R_trans : ∀ s1 s2 s3, R s1 s2 → R s2 s3 → R s1 s3).
Context (R_cache : ∀ s r, R s (set_lastRanking r s)).
Context (R_frozen : ∀ s b, R s (set_frozen b s)).
Context (R_reveal :
  ∀ s, Inv s → loop_head s → hasFrozen (selection s) = true → R s (revealed s)).
Context (R_addTeam : ∀ n s, Inv s → R s (addTeam n s).1).
Context (R_start : ∀ d p s s' out, Inv s → start d p s = Some (s', out) → R s s').
Context (R_submit : ∀ prob n stat tm s, Inv s → R s (submit prob n stat tm s)).

Lemma scroll_loop_preserved fuel s s' out :
  Inv s → loop_head s → scroll_loop fuel s = Some (s', out) → R s s'.
Proof.
  revert s out. induction fuel as [|fuel IH]; intros s out HI Hhead; simpl;
    pose proof (scroll_step_Inv s HI Hhead) as Hinv;
    destruct (scroll_step s) as [s1|s1 out1] eqn:Hstep.
  - intros [= <- _]. by subst s1.
  - done.
  - intros [= <- _]. by subst s1.
  - destruct Hinv as (HI1 & Hhead1 & _).
    destruct (scroll_step_form _ _ _ HI Hhead Hstep) as [Hsel Hs1].
    destruct (scroll_loop fuel s1) as [[s2 out2]|] eqn:Hloop; [|done].
    intros [= <- _]. apply (R_trans _ s1); [|by eapply IH].
    rewrite Hs1. apply (R_trans _ (revealed s)); [by apply R_reveal|apply R_cache].
Qed.

Lemma scroll_preserved s s' out : Inv s → scroll s = Some (s', out) → R s s'.
Proof.
  intros HI. unfold scroll. destruct (frozen s) eqn:Hfr; simpl.
  2: { by intros [= <- _]. }
  pose proof (scroll_enter_Inv s HI) as He.
  pose proof (scroll_enter_loop_head s) as Hhead.
  destruct (scroll_enter s) as [s2 out1]. simpl in He, Hhead.
  assert (Inv s2) as HI2 by (subst s2; by apply Inv_set_lastRanking).
  destruct (scroll_loop (scroll_fuel s2) s2) as [[s3 changes]|] eqn:Hloop; [|done].
  destruct (scroll_loop_Inv _ _ _ _ HI2 Hhead Hloop) as (HI3 & _).
  pose proof (printScoreboard_Inv s3 HI3) as Hp.
  destruct (printScoreboard s3) as [board s4]. simpl in Hp. subst s4.
  intros [= <- _].
  apply (R_trans _ s2); [subst s2; apply R_cache|].
  apply (R_trans _ s3); [by eapply scroll_loop_preserved|apply R_frozen].
Qed.

Lemma dispatch_preserved c s s' out :
  Inv s → dispatch c s = Some (s', out) → R s s'.
Proof.
  intros HI. destruct c as [n|d p|prob team stat tm| | | |n|team prob stat|]; simpl.
  - intros [= Heq]. assert (s' = (addTeam n s).1) as -> by (by rewrite Heq).
    by apply R_addTeam.
  - by apply R_start.
  - intros [= <- _]. by apply R_submit.
  - intros [= Heq]. pose proof (flush_Inv false s HI) as Hs.
    rewrite Heq in Hs. simpl in Hs. subst s'. apply R_cache.
  - intros [= Heq]. pose proof (freeze_Inv_form s HI) as Hs.
    rewrite Heq in Hs. simpl in Hs. subst s'. destruct (frozen s); [done|apply R_frozen].
  - by apply scroll_preserved.
  - by intros [= <- _].
  - by intros [= <- _].
  - by intros [= <- _].
Qed.

Lemma run_preserved cmds s s' out :
  Inv s → run cmds s = Some (s', out) → R s s'.
Proof.
  revert s out. induction cmds as [|c cmds IH]; intros s out HI; simpl.
  - by intros [= <- _].
  - assert (match dispatch c s with
            | Some (s1, out1) =>
                match run cmds s1 with
                | Some (s2, out2) => Some (s2, out1 ++ out2)
                | None => None
                end
            | None => None
            end = Some (s', out) → R s s') as Hgen.
    { destruct (dispatch c s) as [[s1 out1]|] eqn:Hd; [|done].
      destruct (dispatch_Inv c s s1 out1 HI Hd) as [HI1 _].
      destruct (run cmds s1) as [[s2 out2]|] eqn:Hr; [|done].
      intros [= <- _]. apply (R_trans _ s1); [by eapply dispatch_preserved|by eapply IH]. }
    destruct c; try exact Hgen.
    by intros [= <- _].
Qed.
End Preserved.

Lemma submit_team_of prob t stat tm s n :
  team_of (teams (submit prob t stat tm s)) n =
    if decide (n = t)
    then mkTeam (name (team_of (teams s) t))
           (<[prob := submit_status (frozen s) (mkSubmission prob stat tm)
                        (status_of (team_of (teams s) t) prob)]>
              (problems (team_of (teams s) t)))
           (submissions (team_of (teams s) t) ++ [mkSubmission prob stat tm])
    else team_of (teams s) n.
Proof.
  unfold team_of at 1. destruct (decide (n = t)) as [->|Hne].
  - by rewrite submit_team.
  - by rewrite submit_other.
Qed.

Lemma submit_status_of prob t stat tm s n p :
  status_of (team_of (teams (submit prob t stat tm s)) n) p =
    if decide (n = t ∧ p = prob)
    then submit_status (frozen s) (mkSubmission prob stat tm)
           (status_of (team_of (teams s) t) prob)
    else status_of (team_of (teams s) n) p.
Proof.
  rewrite submit_team_of. destruct (decide (n = t)) as [->|Hn].
  - unfold status_of at 1. simpl. destruct (decide (p = prob)) as [->|Hp].
    + by rewrite lookup_insert_eq, decide_True.
    + rewrite lookup_insert_ne by done. rewrite decide_False; [done|]. by intros [_ ?].
  - rewrite decide_False; [done|]. by intros [? _].
Qed.

Lemma addTeam_team_of n s m :
  status_of (team_of (teams (addTeam n s).1) m) = status_of (team_of (teams s) m)
  ∧ submissions (team_of (teams (addTeam n s).1) m) = submissions (team_of (teams s) m).
Proof.
  unfold addTeam. destruct (started s); [done|].
  destruct (bool_decide_reflect (is_Some (teams s !! n))) as [Hk|Hk]; [done|]. simpl.
  unfold team_of. destruct (decide (n = m)) as [->|Hne].
  - rewrite lookup_insert_eq. destruct (teams s !! m) eqn:Hm; [|done].
    by destruct Hk.
  - by rewrite lookup_insert_ne.
Qed.

Lemma start_teams d p s s' out :
  start d p s = Some (s', out) → teams s' = teams s.
Proof.
  unfold start. destruct (started s); [by intros [= <- _]|].
  destruct (p <? 0); [done|]. by intros [= <- _].
Qed.

Lemma config_kept_run cmds s s' out :
  Inv s → run cmds s = Some (s', out) → config_kept s s'.
Proof.
  apply run_preserved; clear.
  - by intros s Hs.
  - intros s1 s2 s3 H12 H23 Hs. destruct (H12 Hs) as (Hs2 & ? & ? & ? & ?).
    destruct (H23 Hs2) as (? & ? & ? & ? & ?). split_and!; congruence.
  - by intros s r Hs.
  - by intros s b Hs.
  - by intros s _ _ _ Hs.
  - intros n s _ Hs. unfold addTeam. by rewrite Hs.
  - intros d p s s' out _ Hst Hs. unfold start in Hst. rewrite Hs in Hst.
    by injection Hst as <- _.
  - by intros prob n stat tm s _ Hs.
Qed.

Lemma submit_status_solved frz sub ps :
  solved ps = true →
  solved (submit_status frz sub ps) = true
  ∧ solveTime (submit_status frz sub ps) = solveTime ps
  ∧ wrongAttempts (submit_status frz sub ps) = wrongAttempts ps.
Proof.
  intros Hs. unfold submit_status, apply_visible. rewrite Hs.
  by destruct (frz && negb (wasSolvedBeforeFreeze ps)).
Qed.

Lemma solved_kept_run cmds s s' out :
  Inv s → run cmds s = Some (s', out) → solved_kept s s'.
Proof.
  apply run_preserved; clear.
  - by intros s n p Hs.
  - intros s1 s2 s3 H12 H23 n p Hs. destruct (H12 n p Hs) as (Hs2 & Ht & Hw).
    destruct (H23 n p Hs2) as (? & ? & ?). split_and!; congruence.
  - by intros s r n p Hs.
  - by intros s b n p Hs.
  - intros s _ _ _ n p Hs. rewrite revealed_team_of.
    destruct (decide (n = lowestTeam (selection s))) as [->|]; [|done].
    rewrite status_of_reveal. case_decide; [|done]. subst p.
    unfold replay. simpl. by rewrite foldl_replay_solved.
  - intros n s _ m p Hs. by rewrite (proj1 (addTeam_team_of n s m)).
  - intros d p s s' out _ Hst n q Hs. by rewrite (start_teams _ _ _ _ _ Hst).
  - intros prob t stat tm s _ n p Hs. rewrite submit_status_of.
    case_decide as Hnp; [|done]. destruct Hnp as [-> ->].
    by apply submit_status_solved.
Qed.

(** ** What a whole scroll does *)

Lemma same_view_trans s1 s2 s3 : same_view s1 s2 → same_view s2 s3 → same_view s1 s3.
Proof.
  intros (Hn1 & Hp1 & Ht1) (Hn2 & Hp2 & Ht2). split_and!; [congruence..|].
  intros n. by rewrite Ht2, Ht1.
Qed.

Lemma scroll_enter_view s : same_view s (scroll_enter s).1.
Proof.
  unfold scroll_enter, flush. rewrite calculateRanking_spec.
  pose proof (printScoreboard_state
    (set_lastRanking (number_ranks (ranking_names s))
       (set_teams (touch_all (teamNames s) (teams s)) s))) as Hp.
  destruct (printScoreboard _) as [board s2]. simpl in *. subst s2.
  split_and!; [done..|]. intros n. simpl. by rewrite !team_of_touch_all.
Qed.

Lemma printScoreboard_view s : same_view s (printScoreboard s).2.
Proof.
  rewrite printScoreboard_state. split_and!; [done..|].
  intros n. simpl. by rewrite !team_of_touch_all.
Qed.

Lemma has_pending_view s s' n : same_view s s' → has_pending s' n ↔ has_pending s n.
Proof.
  intros (_ & Hp & Ht). unfold has_pending, queue. by rewrite Hp, Ht.
Qed.

Section ScrollPreserved.
Context (R : ICPCSystem → ICPCSystem → Prop).
Context (R_trans : ∀ s1 s2 s3, R s1 s2 → R s2 s3 → R s1 s3).
Context (R_view : ∀ s s', same_view s s' → R s s').
Context (R_reveal :
  ∀ s, loop_head s → hasFrozen (selection s) = true → R s (revealed s)).

Lemma scroll_loop_keeps fuel s s' out :
  loop_head s → scroll_loop fuel s = Some (s', out) → R s s'.
Proof.
  revert s out. induction fuel as [|fuel IH]; intros s out Hhead; simpl;
    destruct (scroll_step s) as [s1|s1 out1] eqn:Hstep; try done.
  - intros [= <- _]. apply scroll_step_finished in Hstep as [_ ->].
    apply R_view, same_view_touch.
  - intros [= <- _]. apply scroll_step_finished in Hstep as [_ ->].
    apply R_view, same_view_touch.
  - destruct (scroll_loop fuel s1) as [[s2 out2]|] eqn:Hloop; [|done].
    intros [= <- _].
    pose proof (scroll_step_loop_head _ _ _ Hstep) as Hhead1.
    apply scroll_step_revealed in Hstep as (Hsel & Hv & _).
    apply (R_trans _ (revealed s)); [by apply R_reveal|].
    apply (R_trans _ s1); [by apply R_view|by eapply IH].
Qed.

Lemma scroll_keeps s s' out :
  frozen s = true → scroll s = Some (s', out) → R s s'.
Proof.
  intros Hfr. unfold scroll. rewrite Hfr. simpl.
  pose proof (scroll_enter_loop_head s) as Hhead.
  pose proof (scroll_enter_view s) as Hview.
  destruct (scroll_enter s) as [s2 out1]. simpl in Hhead, Hview.
  destruct (scroll_loop (scroll_fuel s2) s2) as [[s3 changes]|] eqn:Hloop; [|done].
  pose proof (printScoreboard_view s3) as Hp.
  destruct (printScoreboard s3) as [board s4]. simpl in Hp.
  intros [= <- _].
  apply (R_trans _ s2); [by apply R_view|].
  apply (R_trans _ s3); [by eapply scroll_loop_keeps|].
  apply R_view. destruct Hp as (? & ? & ?). by split_and!.
Qed.
End ScrollPreserved.

Lemma scroll_loop_drained fuel s s' out :
  loop_head s → scroll_loop fuel s = Some (s', out) →
  ∀ n, n ∈ teamNames s' → ¬ has_pending s' n.
Proof.
  revert s out. induction fuel as [|fuel IH]; intros s out Hhead; simpl;
    destruct (scroll_step s) as [s1|s1 out1] eqn:Hstep; try done.
  - intros [= <- _] n Hn Hp. apply scroll_step_finished in Hstep as [Hno ->].
    apply (has_pending_view s), candidate_pending in Hp; [|apply same_view_touch].
    destruct (selection_spec s Hhead) as [Hiff _].
    assert (hasFrozen (selection s) = true) by (apply Hiff; eauto). congruence.
  - intros [= <- _] n Hn Hp. apply scroll_step_finished in Hstep as [Hno ->].
    apply (has_pending_view s), candidate_pending in Hp; [|apply same_view_touch].
    destruct (selection_spec s Hhead) as [Hiff _].
    assert (hasFrozen (selection s) = true) by (apply Hiff; eauto). congruence.
  - destruct (scroll_loop fuel s1) as [[s2 out2]|] eqn:Hloop; [|done].
    intros [= <- _]. eapply IH; [|done]. by eapply scroll_step_loop_head.
Qed.

(** X1. [scroll] on a board that is not frozen prints its error line and
    changes nothing.  On a frozen board it ends with the board unfrozen and
    with every queue of frozen submissions of a registered team for a
    problem of the contest empty: nothing the scoreboard can show stays
    hidden. *)
Theorem scroll_reveals_everything (s : ICPCSystem) :
  (frozen s = false →
     scroll s = Some (s, [Msg "[Error]Scroll failed: scoreboard has not been frozen."]))
  ∧ (frozen s = true → ∀ s' out, scroll s = Some (s', out) →
       frozen s' = false
       ∧ ∀ n p, n ∈ teamNames s' → p ∈ problemList s' → queue s' n p = []).
Proof.
  split.
  - intros Hfr. unfold scroll. by rewrite Hfr.
  - intros Hfr s' out. unfold scroll. rewrite Hfr. simpl.
    pose proof (scroll_enter_loop_head s) as Hhead.
    destruct (scroll_enter s) as [s2 out1]. simpl in Hhead.
    destruct (scroll_loop (scroll_fuel s2) s2) as [[s3 changes]|] eqn:Hloop; [|done].
    pose proof (scroll_loop_drained _ _ _ _ Hhead Hloop) as Hdr.
    pose proof (printScoreboard_view s3) as Hp.
    destruct (printScoreboard s3) as [board s4]. simpl in Hp.
    intros [= <- _]. split; [done|]. intros n p Hn Hpl.
    destruct Hp as (Hnames & Hprobs & Hteams). simpl in Hn, Hpl.
    rewrite Hnames in Hn. rewrite Hprobs in Hpl.
    destruct (queue (set_frozen false s4) n p) eqn:Hq; [done|].
    destruct (Hdr n Hn). exists p. split; [done|].
    unfold queue in *. simpl in Hq. rewrite Hteams in Hq. by rewrite Hq.
Qed.

Lemma reveal_outside s :
  loop_head s → hasFrozen (selection s) = true →
  (∀ n p, n ∉ teamNames s ∨ p ∉ problemList s →
     status_of (team_of (teams (revealed s)) n) p = status_of (team_of (teams s) n) p)
  ∧ (∀ n, submissions (team_of (teams (revealed s)) n)
          = submissions (team_of (teams s) n)).
Proof.
  intros Hhead Hsel.
  destruct (reveal_queues s Hhead Hsel) as (Ht & Hp & _). split.
  - intros n p Hout. rewrite revealed_team_of.
    destruct (decide (n = lowestTeam (selection s))) as [->|]; [|done].
    rewrite status_of_reveal. case_decide; [|done]. subst p. by destruct Hout.
  - intros n. rewrite revealed_team_of.
    by destruct (decide (n = lowestTeam (selection s))) as [->|].
Qed.

Lemma scroll_outside (s s' : ICPCSystem) (out : list Output) :
  frozen s = true → scroll s = Some (s', out) →
  teamNames s' = teamNames s ∧ problemList s' = problemList s
  ∧ (∀ n p, n ∉ teamNames s ∨ p ∉ problemList s →
       status_of (team_of (teams s') n) p = status_of (team_of (teams s) n) p)
  ∧ (∀ n, submissions (team_of (teams s') n) = submissions (team_of (teams s) n)).
Proof.
  apply (scroll_keeps (λ s s',
    teamNames s' = teamNames s ∧ problemList s' = problemList s
    ∧ (∀ n p, n ∉ teamNames s ∨ p ∉ problemList s →
         status_of (team_of (teams s') n) p = status_of (team_of (teams s) n) p)
    ∧ (∀ n, submissions (team_of (teams s') n) = submissions (team_of (teams s) n)))).
  - intros s1 s2 s3 (Hn1 & Hp1 & Ho1 & Hl1) (Hn2 & Hp2 & Ho2 & Hl2).
    split_and!; [congruence..| |].
    + intros n p Hout. rewrite Ho2, Ho1; [done..|]. by rewrite Hn1, Hp1.
    + intros n. by rewrite Hl2, Hl1.
  - intros s1 s2 (Hn & Hp & Ht). split_and!; [done..| |].
    + intros n p _. by rewrite Ht.
    + intros n. by rewrite Ht.
  - intros s1 Hhead Hsel. destruct (reveal_outside s1 Hhead Hsel) as [Ho Hl].
    by split_and!.
Qed.

(** X2. [scroll] never looks outside the ranking and the problem list: the
    problem states of a team that is not registered, and of any team for a
    problem that is not one of the contest's, are after the scroll what they
    were before, frozen submissions included; and no ledger changes.  The
    registered teams and the problems stay the same. *)
Theorem scroll_ignores_outsiders (s s' : ICPCSystem) (out : list Output) :
  frozen s = true → scroll s = Some (s', out) →
  teamNames s' = teamNames s ∧ problemList s' = problemList s
  ∧ (∀ n p, n ∉ teamNames s ∨ p ∉ problemList s →
       status_of (team_of (teams s') n) p = status_of (team_of (teams s) n) p)
  ∧ (∀ n, submissions (team_of (teams s') n) = submissions (team_of (teams s) n)).
Proof. apply scroll_outside. Qed.

(** ** Configuration, solved problems and ledgers over a run *)

(** X3. Once the contest has started it stays started, and the registered
    teams, the problem list, the problem count and the duration never change
    again, whatever commands follow: [ADDTEAM] and a second [START] only print
    their error line and leave the system as it is. *)
Theorem configuration_fixed_after_start (s s' : ICPCSystem) (cmds : list Command)
    (out : list Output) :
  reachable s → started s = true → run cmds s = Some (s', out) →
  started s' = true ∧ teamNames s' = teamNames s ∧ problemList s' = problemList s
  ∧ problemCount s' = problemCount s ∧ durationTime s' = durationTime s
  ∧ (∀ n, addTeam n s' = (s', [Msg "[Error]Add failed: competition has started."]))
  ∧ (∀ d p, start d p s'
            = Some (s', [Msg "[Error]Start failed: competition has started."])).
Proof.
  intros HI%reachable_Inv Hst Hrun.
  destruct (config_kept_run _ _ _ _ HI Hrun Hst) as (Hst' & ? & ? & ? & ?).
  split_and!; try done.
  - intros n. unfold addTeam. by rewrite Hst'.
  - intros d p. unfold start. by rewrite Hst'.
Qed.

(** X4. A problem a team has solved stays solved for the rest of the run,
    and its solve time and its number of wrong attempts never change:
    later submissions, accepted or not, hidden or not, a freeze and a scroll
    leave them as they are. *)
Theorem solved_is_final (s s' : ICPCSystem) (cmds : list Command) (out : list Output)
    (n p : string) :
  reachable s → run cmds s = Some (s', out) →
  solved (status_of (team_of (teams s) n) p) = true →
  solved (status_of (team_of (teams s') n) p) = true
  ∧ solveTime (status_of (team_of (teams s') n) p)
    = solveTime (status_of (team_of (teams s) n) p)
  ∧ wrongAttempts (status_of (team_of (teams s') n) p)
    = wrongAttempts (status_of (team_of (teams s) n) p).
Proof.
  intros HI%reachable_Inv Hrun. by apply (solved_kept_run _ _ _ _ HI Hrun).
Qed.

Lemma dispatch_ledger c s s' out n :
  Inv s → dispatch c s = Some (s', out) →
  submissions (team_of (teams s') n)
  = submissions (team_of (teams s) n) ++ submitted_by n [c].
Proof.
  intros HI. destruct c as [m|d p|prob team stat tm| | | |m|team prob stat|]; simpl;
    rewrite ?app_nil_r.
  - intros [= Heq]. assert (s' = (addTeam m s).1) as -> by (by rewrite Heq).
    apply addTeam_team_of.
  - intros Hst. by rewrite (start_teams _ _ _ _ _ Hst).
  - intros [= <- _]. rewrite submit_team_of.
    destruct (decide (n = team)) as [->|Hne]; simpl.
    + by rewrite decide_True.
    + rewrite decide_False by done. by rewrite app_nil_r.
  - intros [= Heq]. pose proof (flush_Inv false s HI) as Hs.
    rewrite Heq in Hs. simpl in Hs. by subst s'.
  - intros [= Heq]. pose proof (freeze_Inv_form s HI) as Hs.
    rewrite Heq in Hs. simpl in Hs. subst s'. by destruct (frozen s).
  - intros Hs. destruct (frozen s) eqn:Hfr.
    + by destruct (scroll_outside s s' out Hfr Hs) as (_ & _ & _ & ->).
    + unfold scroll in Hs. rewrite Hfr in Hs. by injection Hs as <- _.
  - by intros [= <- _].
  - by intros [= <- _].
  - by intros [= <- _].
Qed.

Lemma run_ledger cmds s s' out n :
  Inv s → run cmds s = Some (s', out) →
  submissions (team_of (teams s') n)
  = submissions (team_of (teams s) n) ++ submitted_by n cmds.
Proof.
  revert s out. induction cmds as [|c cmds IH]; intros s out HI; simpl.
  - intros [= <- _]. by rewrite app_nil_r.
  - assert (match dispatch c s with
            | Some (s1, out1) =>
                match run cmds s1 with
                | Some (s2, out2) => Some (s2, out1 ++ out2)
                | None => None
                end
            | None => None
            end = Some (s', out) →
            submissions (team_of (teams s') n)
            = submissions (team_of (teams s) n)
              ++ submitted_by n [c] ++ submitted_by n cmds) as Hgen.
    { destruct (dispatch c s) as [[s1 out1]|] eqn:Hd; [|done].
      destruct (dispatch_Inv c s s1 out1 HI Hd) as [HI1 _].
      destruct (run cmds s1) as [[s2 out2]|] eqn:Hr; [|done].
      intros [= <- _]. rewrite (IH _ _ HI1 Hr), (dispatch_ledger _ _ _ _ n HI Hd).
      by rewrite app_assoc. }
    destruct c; try (simpl in Hgen; rewrite ?app_nil_r in Hgen; exact Hgen).
    intros [= <- _]. by rewrite app_nil_r.
Qed.

(** X5. The ledger is append-only and complete: after any run the ledger of
    a team is its earlier ledger followed by exactly the submissions the
    [SUBMIT] commands made for it, in their order.  Nothing is dropped or
    reordered by a freeze, a scroll or a failed command, and a team that was
    never registered has its ledger too. *)
Theorem ledger_records_every_submit (s s' : ICPCSystem) (cmds : list Command)
    (out : list Output) (n : string) :
  reachable s → run cmds s = Some (s', out) →
  submissions (team_of (teams s') n)
  = submissions (team_of (teams s) n) ++ submitted_by n cmds.
Proof. intros HI%reachable_Inv. by apply run_ledger. Qed.

(** ** [querySubmission] *)

Lemma find_app_split {A} (P : A → bool) (l1 l2 : list A) :
  find P (l1 ++ l2) = match find P l1 with Some x => Some x | None => find P l2 end.
Proof.
  induction l1 as [|x l1 IH]; simpl; [done|]. by destruct (P x).
Qed.

Lemma find_rev_last {A} (P : A → bool) (l1 l2 : list A) x :
  P x = true → (∀ y, y ∈ l2 → P y = false) → find P (rev (l1 ++ x :: l2)) = Some x.
Proof.
  intros Hx Hl2. rewrite rev_app_distr. simpl. rewrite <- app_assoc, find_app_split.
  rewrite find_absent; [simpl; by rewrite Hx|].
  intros y Hy. apply Hl2. by apply list_elem_of_In, in_rev, list_elem_of_In.
Qed.

Lemma matches_spec prob stat sub :
  matches prob stat sub = true ↔
    (prob = "ALL" ∨ problem sub = prob) ∧ (stat = "ALL" ∨ status sub = stat).
Proof.
  unfold matches. rewrite andb_true_iff, !orb_true_iff, !String.eqb_eq. done.
Qed.

(** X6. [querySubmission] fails exactly when the team has no entry in the
    team table.  Otherwise it answers with the most recent submission of the
    team's ledger that passes both filters, where ["ALL"] passes everything
    and any other filter must equal the submission's problem or status; when
    no submission of the ledger passes, it says so. *)
Theorem query_submission_latest (s : ICPCSystem) (team prob stat : string) :
  let ledger := submissions (team_of (teams s) team) in
  (querySubmission team prob stat s
     = [Msg "[Error]Query submission failed: cannot find the team."]
   ↔ teams s !! team = None)
  ∧ (∀ sub, matches prob stat sub = true ↔
       (prob = "ALL" ∨ problem sub = prob) ∧ (stat = "ALL" ∨ status sub = stat))
  ∧ (is_Some (teams s !! team) →
       (∀ l1 sub l2, ledger = l1 ++ sub :: l2 → matches prob stat sub = true →
          (∀ y, y ∈ l2 → matches prob stat y = false) →
          querySubmission team prob stat s
          = [Msg "[Info]Complete query submission.";
             SubLine team (problem sub) (status sub) (time sub)])
       ∧ ((∀ y, y ∈ ledger → matches prob stat y = false) →
          querySubmission team prob stat s
          = [Msg "[Info]Complete query submission.";
             Msg "Cannot find any submission."])).
Proof.
  intros ledger. split_and!.
  - unfold querySubmission.
    destruct (bool_decide_reflect (is_Some (teams s !! team))) as [Hk|Hk]; simpl.
    + split; [done|]. intros Hnone. rewrite Hnone in Hk. by destruct Hk.
    + split; [|done]. intros _. by destruct (teams s !! team); [destruct Hk|].
  - apply matches_spec.
  - intros Hk. unfold querySubmission. rewrite bool_decide_eq_true_2 by done. simpl.
    fold ledger. split.
    + intros l1 sub l2 -> Hsub Hl2. by rewrite find_rev_last.
    + intros Hnone. rewrite find_absent; [done|].
      intros y Hy. apply Hnone. by apply list_elem_of_In, in_rev, list_elem_of_In.
Qed.

(** X7. A submission can be queried back right after it was made, by its
    own problem and status or by ["ALL"], whether the board is frozen or
    not and whether the team was registered or not: the ledger does not
    hide frozen submissions. *)
Theorem submit_then_query (s : ICPCSystem) (prob team stat : string) (tm : Z)
    (pf sf : string) :
  pf = "ALL" ∨ pf = prob → sf = "ALL" ∨ sf = stat →
  querySubmission team pf sf (submit prob team stat tm s)
  = [Msg "[Info]Complete query submission."; SubLine team prob stat tm].
Proof.
  intros Hpf Hsf. unfold querySubmission.
  rewrite bool_decide_eq_true_2 by (by rewrite submit_team). cbn [negb].
  rewrite submit_team_of, decide_True by done. cbn [submissions].
  rewrite (find_rev_last _ _ [] (mkSubmission prob stat tm)); [done| |].
  - apply matches_spec. simpl. destruct Hpf as [->| ->], Hsf as [->| ->]; auto.
  - intros y Hy. by apply elem_of_nil in Hy.
Qed.

(** ** The frozen board *)

Lemma submit_frozen_visible prob t stat tm s n p :
  Inv s → frozen s = true →
  visible_fields (status_of (team_of (teams (submit prob t stat tm s)) n) p)
  = visible_fields (status_of (team_of (teams s) n) p).
Proof.
  intros HI Hfr. rewrite submit_status_of. case_decide as Hnp; [|done].
  destruct Hnp as [-> ->]. pose proof (Inv_status_of s t prob HI) as Hflags.
  unfold submit_status, apply_visible. rewrite Hfr. simpl.
  destruct (wasSolvedBeforeFreeze (status_of (team_of (teams s) t) prob)) eqn:Hw;
    simpl; [|done].
  by rewrite Hflags.
Qed.

(** X8. While the board is frozen no submission moves the ranking: after a
    [submit] on a frozen board the ranking calculator gives the same ranking
    and the same solved count, penalty and solve times for every team as
    before, whatever the verdict, the problem and the team. *)
Theorem frozen_ranking_stands_still (s : ICPCSystem) (prob team stat : string) (tm : Z) :
  reachable s → frozen s = true →
  let s' := submit prob team stat tm s in
  (calculateRanking s').1 = (calculateRanking s).1
  ∧ (∀ n, rank_info (teams s') (problemList s') n
          = rank_info (teams s) (problemList s) n)
  ∧ frozen s' = true.
Proof.
  intros HI%reachable_Inv Hfr s'.
  assert (∀ n, rank_info (teams s') (problemList s') n
               = rank_info (teams s) (problemList s) n) as Hinfo.
  { intros n. apply rank_info_visible. intros p _. by apply submit_frozen_visible. }
  split_and!; [|done..].
  rewrite !calculateRanking_spec. simpl. f_equal. unfold ranking_names.
  apply std_sort_ext. intros a b _ _. unfold before. by rewrite !Hinfo.
Qed.

(** ** [flush] *)

Lemma touch_all_knows ns ts n : n ∈ ns → is_Some (touch_all ns ts !! n).
Proof.
  revert ts. induction ns as [|m ns IH]; intros ts Hn; [by apply elem_of_nil in Hn|].
  rewrite touch_all_cons. apply elem_of_cons in Hn as [->|Hn]; [|by apply IH].
  assert (is_Some (touch m ts !! m)) as Hm by (by rewrite touch_self).
  clear IH. revert Hm. generalize (touch m ts). induction ns as [|k ns IH];
    intros ts' Hm; [done|].
  rewrite touch_all_cons. apply IH. by rewrite touch_is_Some.
Qed.

Lemma touch_all_idem ns ts : touch_all ns (touch_all ns ts) = touch_all ns ts.
Proof. apply touch_all_known. intros n Hn. by apply touch_all_knows. Qed.

Lemma flush_form silent s :
  (flush silent s).1
  = set_lastRanking (number_ranks (ranking_names s))
      (set_teams (touch_all (teamNames s) (teams s)) s).
Proof. unfold flush. by rewrite calculateRanking_spec. Qed.

(** X9. [flush] is idempotent: flushing a second time, silently or not,
    leaves the system exactly as the first flush left it, cached ranking
    included.  The ranking it caches is the one [calculateRanking] gives for
    the system before the flush. *)
Theorem flush_idempotent (s : ICPCSystem) (silent1 silent2 : bool) :
  (flush silent2 (flush silent1 s).1).1 = (flush silent1 s).1
  ∧ lastRanking (flush silent1 s).1 = (calculateRanking s).1
  ∧ (calculateRanking (flush silent1 s).1).1 = (calculateRanking s).1.
Proof.
  assert (ranking_names (flush silent1 s).1 = ranking_names s) as Hr.
  { apply ranking_names_view. rewrite flush_form. split_and!; [done..|].
    intros n. simpl. apply team_of_touch_all. }
  split_and!.
  - rewrite (flush_form silent2), Hr. rewrite !flush_form. simpl.
    by rewrite touch_all_idem.
  - by rewrite flush_form, calculateRanking_spec.
  - by rewrite !calculateRanking_spec, Hr.
Qed.

(** ** Totals and the scoreboard *)

(** The loop of [printScoreboard] computes the totals of [getTeamRankInfo]. *)
Lemma score_fold t init pl :
  foldl (score_step t) (info_solved init, info_penalty init) pl =
    (info_solved (foldl (rank_info_step t) init pl),
     info_penalty (foldl (rank_info_step t) init pl)).
Proof.
  revert init. induction pl as [|p pl IH]; intros init; simpl; [done|].
  rewrite <- IH. f_equal. rewrite score_step_status, rank_info_step_status. cbv zeta.
  by destruct (solved (status_of t p) && wasSolvedBeforeFreeze (status_of t p)).
Qed.

(** X10. What [getTeamRankInfo] returns: the solved count is the number of
    problems of the contest for which both flags of the team are set; the
    penalty is the sum over these problems of the solve time plus 20 for
    every wrong attempt, reduced to a 32-bit [int], hence that sum itself
    whenever it is in the range of [int]; the times are the solve times of
    these problems, each once, in descending order.  A problem that is not
    solved contributes nothing, however many wrong attempts it has. *)
Theorem rank_info_totals (ts : gmap string Team) (pl : list string) (n : string) :
  let t := team_of ts n in
  let info := rank_info ts pl n in
  let total := sum_Z (map (problem_penalty t) (counted_problems t pl)) in
  info_name info = n
  ∧ info_solved info = Z.of_nat (length (counted_problems t pl))
  ∧ info_penalty info = wrap_int total
  ∧ (- 2 ^ 31 ≤ total < 2 ^ 31 → info_penalty info = total)
  ∧ info_times info ≡ₚ map (λ p, solveTime (status_of t p)) (counted_problems t pl)
  ∧ StronglySorted (λ x y, y ≤ x) (info_times info)
  ∧ Z.of_nat (length (info_times info)) = info_solved info.
Proof.
  intros t info total. unfold info, rank_info.
  rewrite rank_info_fold by reflexivity.
  cbn [info_name info_solved info_penalty info_times app]. rewrite !Z.add_0_l.
  fold total. split_and!; [done..| | | |].
  - intros Hrange. by apply wrap_int_small.
  - unfold sort_descending. apply std_sort_perm.
  - apply sort_descending_sorted.
  - unfold sort_descending. by rewrite std_sort_length, length_map.
Qed.

Lemma score_row_totals ts pl n r :
  score_row (team_of ts n) pl r =
    ScoreRow (name (team_of ts n)) r (info_solved (rank_info ts pl n))
      (info_penalty (rank_info ts pl n)) (map (cell_of (team_of ts n)) pl).
Proof.
  unfold score_row, rank_info.
  by rewrite (score_fold (team_of ts n) (mkTeamRankInfo n 0 0 [])).
Qed.

Lemma printScoreboard_out s :
  (printScoreboard s).1 =
    map (λ p, score_row (team_of (teams s) p.1) (problemList s) p.2)
      (number_ranks (ranking_names s)).
Proof.
  unfold printScoreboard. rewrite calculateRanking_spec, print_rows_out. simpl.
  apply map_ext. intros p. by rewrite team_of_touch_all.
Qed.

Lemma printScoreboard_out_view s s' :
  same_view s s' → (printScoreboard s').1 = (printScoreboard s).1.
Proof.
  intros Hv. rewrite !printScoreboard_out, (ranking_names_view s s' Hv).
  destruct Hv as (_ & Hp & Ht). rewrite Hp. apply map_ext. intros p. by rewrite Ht.
Qed.

(** X11. The scoreboard has one row per registered team, in ranking order:
    the row of a team shows its name, its rank, the solved count and the
    penalty of its rank information (the printer recomputes them and always
    agrees with the ranking calculator), and one cell per problem of the
    contest.  A cell is a solved mark with the wrong attempts when the
    problem counts; otherwise a frozen mark with the wrong attempts and the
    number of queued submissions when the queue is not empty; otherwise the
    wrong attempts when there are some, and a dot when there are none or the
    team has no state for the problem. *)
Theorem scoreboard_rows (s : ICPCSystem) :
  reachable s →
  (printScoreboard s).1 =
    map (λ p : string * Z,
           ScoreRow p.1 p.2
             (info_solved (rank_info (teams s) (problemList s) p.1))
             (info_penalty (rank_info (teams s) (problemList s) p.1))
             (map (cell_of (team_of (teams s) p.1)) (problemList s)))
        (calculateRanking s).1
  ∧ length (printScoreboard s).1 = length (teamNames s)
  ∧ (∀ t p,
       let ps := status_of t p in
       (counted ps = true → cell_of t p = CellSolved (wrongAttempts ps))
       ∧ (counted ps = false → frozenSubs ps ≠ [] →
            cell_of t p = CellFrozen (wrongAttempts ps) (length (frozenSubs ps)))
       ∧ (counted ps = false → frozenSubs ps = [] → 0 < wrongAttempts ps →
            cell_of t p = CellWrong (wrongAttempts ps))
       ∧ (counted ps = false → frozenSubs ps = [] → wrongAttempts ps ≤ 0 →
            cell_of t p = CellNone)).
Proof.
  intros HI%reachable_Inv. split_and!.
  - rewrite printScoreboard_out, calculateRanking_spec. simpl.
    apply map_ext_in. intros [n r] Hin%list_elem_of_In. simpl.
    apply ranked_registered in Hin as [Hn _].
    by rewrite score_row_totals, Inv_team_name.
  - rewrite printScoreboard_out, length_map. unfold number_ranks, ranking_names.
    by rewrite length_imap, std_sort_length.
  - intros t p ps. unfold cell_of, counted, ps, status_of.
    destruct (problems t !! p) as [q|]; simpl.
    + split_and!.
      * by intros ->.
      * intros -> Hq. by rewrite bool_decide_eq_false_2.
      * intros -> Hq Hw. rewrite bool_decide_eq_true_2 by done. simpl.
        by destruct (Z.ltb_spec 0 (wrongAttempts q)); [|lia].
      * intros -> Hq Hw. rewrite bool_decide_eq_true_2 by done. simpl.
        by destruct (Z.ltb_spec 0 (wrongAttempts q)); [lia|].
    + by split_and!.
Qed.

(** ** What [scroll] prints *)

Lemma scroll_loop_changes fuel s s' out :
  loop_head s → scroll_loop fuel s = Some (s', out) →
  Forall is_change out ∧ (length out + pending s' ≤ pending s)%nat.
Proof.
  revert s out. induction fuel as [|fuel IH]; intros s out Hhead; simpl;
    destruct (scroll_step s) as [s1|s1 out1] eqn:Hstep; try done.
  - intros [= <- <-]. apply scroll_step_finished in Hstep as [_ ->].
    split; [done|]. simpl. by rewrite (pending_view s) by apply same_view_touch.
  - intros [= <- <-]. apply scroll_step_finished in Hstep as [_ ->].
    split; [done|]. simpl. by rewrite (pending_view s) by apply same_view_touch.
  - destruct (scroll_loop fuel s1) as [[s2 out2]|] eqn:Hloop; [|done].
    intros [= <- <-].
    pose proof (scroll_step_loop_head _ _ _ Hstep) as Hhead1.
    destruct (IH _ _ Hhead1 Hloop) as [Hch Hlen].
    apply scroll_step_revealed in Hstep as (Hsel & Hv & _ & _ & _ & Hout).
    pose proof (reveal_pending s Hhead Hsel) as Hlt.
    pose proof (pending_view _ _ Hv) as Hpv.
    assert (Forall is_change out1 ∧ (length out1 ≤ 1)%nat) as [Hc1 Hl1].
    { rewrite Hout. destruct (_ <? _); simpl; [|split; [constructor|lia]].
      split; [|lia]. apply Forall_singleton. by eexists _, _, _, _. }
    split; [by apply Forall_app|]. rewrite length_app. lia.
Qed.

Lemma scroll_enter_out s :
  (scroll_enter s).2 = Msg "[Info]Scroll scoreboard." :: (printScoreboard s).1.
Proof.
  unfold scroll_enter.
  pose proof (flush_form true s) as Hf.
  destruct (flush true s) as [s1 o]. simpl in Hf.
  pose proof (printScoreboard_out_view s s1) as Hv.
  destruct (printScoreboard s1) as [board s2]. simpl in *.
  f_equal. apply Hv. subst s1. split_and!; [done..|].
  intros n. simpl. by rewrite team_of_touch_all.
Qed.

Lemma scroll_queues_empty s s' out :
  frozen s = true → scroll s = Some (s', out) →
  ∀ n p, n ∈ teamNames s' → p ∈ problemList s' → queue s' n p = [].
Proof.
  intros Hfr. unfold scroll. rewrite Hfr. simpl.
  pose proof (scroll_enter_loop_head s) as Hhead.
  destruct (scroll_enter s) as [s2 out1]. simpl in Hhead.
  destruct (scroll_loop (scroll_fuel s2) s2) as [[s3 changes]|] eqn:Hloop; [|done].
  pose proof (scroll_loop_drained _ _ _ _ Hhead Hloop) as Hdr.
  pose proof (printScoreboard_view s3) as Hp.
  destruct (printScoreboard s3) as [board s4]. simpl in Hp.
  intros [= <- _] n p Hn Hpl.
  destruct Hp as (Hnames & Hprobs & Hteams). simpl in Hn, Hpl.
  rewrite Hnames in Hn. rewrite Hprobs in Hpl.
  destruct (queue (set_frozen false s4) n p) eqn:Hq; [done|].
  destruct (Hdr n Hn). exists p. split; [done|].
  unfold queue in *. simpl in Hq. rewrite Hteams in Hq. by rewrite Hq.
Qed.

Lemma board_no_frozen s :
  (∀ n p, n ∈ teamNames s → p ∈ problemList s → queue s n p = []) →
  ∀ row c, row ∈ (printScoreboard s).1 → c ∈ row_cells row → ¬ is_frozen_cell c.
Proof.
  intros Hq row c. rewrite printScoreboard_out.
  intros ([n r] & <- & Hin)%list_elem_of_In%in_map_iff.
  apply list_elem_of_In, ranked_registered in Hin as [Hn _].
  unfold score_row. simpl.
  intros (p & <- & Hp)%list_elem_of_In%in_map_iff. apply list_elem_of_In in Hp.
  specialize (Hq n p Hn Hp). unfold queue, status_of in Hq. unfold cell_of.
  destruct (problems (team_of (teams s) n) !! p) as [ps|]; simpl in *; [|tauto].
  rewrite Hq. simpl. destruct (solved ps && wasSolvedBeforeFreeze ps); [tauto|].
  destruct (0 <? wrongAttempts ps); tauto.
Qed.

(** X12. The output of [scroll] on a frozen board: the header line, the
    scoreboard as [scroll] found it, then rank-change lines only, at most
    one per pair of a registered team and a problem of the contest, then
    the scoreboard of the system [scroll] leaves.  That last scoreboard
    shows no frozen cell. *)
Theorem scroll_output (s s' : ICPCSystem) (out : list Output) :
  frozen s = true → scroll s = Some (s', out) →
  ∃ changes,
    out = Msg "[Info]Scroll scoreboard."
          :: (printScoreboard s).1 ++ changes ++ (printScoreboard s').1
    ∧ Forall is_change changes
    ∧ (length changes ≤ length (teamNames s) * length (problemList s))%nat
    ∧ ∀ row c, row ∈ (printScoreboard s').1 → c ∈ row_cells row → ¬ is_frozen_cell c.
Proof.
  intros Hfr Hscroll.
  pose proof (scroll_queues_empty _ _ _ Hfr Hscroll) as Hempty.
  revert Hscroll. unfold scroll. rewrite Hfr. simpl.
  pose proof (scroll_enter_loop_head s) as Hhead.
  pose proof (scroll_enter_out s) as Hout1.
  pose proof (scroll_enter_view s) as Hv2.
  destruct (scroll_enter s) as [s2 out1]. simpl in Hhead, Hout1, Hv2.
  destruct (scroll_loop (scroll_fuel s2) s2) as [[s3 changes]|] eqn:Hloop; [|done].
  destruct (scroll_loop_changes _ _ _ _ Hhead Hloop) as [Hch Hlen].
  pose proof (printScoreboard_view s3) as Hp.
  pose proof (printScoreboard_out_view s3 (set_frozen false (printScoreboard s3).2)) as Hb.
  destruct (printScoreboard s3) as [board s4]. simpl in Hp, Hb.
  intros [= <- <-]. exists changes.
  split_and!; [|exact Hch| |by apply board_no_frozen].
  - rewrite Hout1, Hb; [done|]. destruct Hp as (? & ? & ?). by split_and!.
  - pose proof (pending_bound s2) as Hb2. destruct Hv2 as (Hn2 & Hp2 & _).
    rewrite Hn2, Hp2 in Hb2. lia.
Qed.

(** ** Querying after a flush *)

(** X13. A rank query right after a flush reports the current rank of a
    registered team: one more than the number of registered teams the
    ranking comparator puts before it, a number between 1 and the number of
    registered teams.  The warning line is printed exactly when the board is
    frozen. *)
Theorem flush_then_query (s : ICPCSystem) (n : string) (silent : bool) :
  reachable s → n ∈ teamNames s →
  queryRanking n (flush silent s).1
  = Msg "[Info]Complete query ranking."
    :: (if frozen s
        then [Msg "[Warning]Scoreboard is frozen. The ranking may be inaccurate until it were scrolled."]
        else [])
    ++ [RankLine n (Z.of_nat (ahead s n) + 1)]
  ∧ rank_in (calculateRanking s).1 n = Z.of_nat (ahead s n) + 1
  ∧ (ahead s n < length (teamNames s))%nat.
Proof.
  intros Hnd%reachable_NoDup Hn.
  pose proof (rank_in_ahead s n Hnd Hn) as Hrank.
  split_and!; [|by rewrite calculateRanking_spec|by apply ahead_bound].
  rewrite flush_form. unfold queryRanking. cbn [teams lastRanking frozen set_lastRanking set_teams].
  rewrite bool_decide_eq_true_2 by by apply touch_all_knows. cbn [negb].
  destruct (registered_ranked s n Hn) as [r Hr].
  rewrite bool_decide_eq_false_2 by (intros Hnil; rewrite Hnil in Hr; by apply elem_of_nil in Hr).
  cbn [negb]. by rewrite Hrank.
Qed.

(** ** The alphabetical fallback *)

Lemma rank_info_nothing ts pl n :
  (∀ p, p ∈ pl → counted (status_of (team_of ts n) p) = false) →
  rank_info ts pl n = mkTeamRankInfo n 0 0 [].
Proof.
  intros Hno. unfold rank_info. rewrite rank_info_fold by reflexivity.
  unfold counted_problems. rewrite filter_none; [done|].
  intros p Hp. by rewrite (Hno p Hp).
Qed.

(** X14. While no registered team has a problem that counts as solved, the
    ranking is the alphabetical order of the registered names: the rank
    [queryRanking] falls back to when nothing was flushed is then the rank
    the ranking calculator gives, for every name. *)
Theorem fallback_rank_is_exact (s : ICPCSystem) :
  reachable s →
  (∀ n p, n ∈ teamNames s → p ∈ problemList s →
     counted (status_of (team_of (teams s) n) p) = false) →
  (calculateRanking s).1 = number_ranks (std_sort String.ltb (teamNames s))
  ∧ ∀ n, rank_in (calculateRanking s).1 n = alphabetical_rank (teamNames s) n.
Proof.
  intros Hnd%reachable_NoDup Hno.
  assert (∀ a b, a ∈ teamNames s → b ∈ teamNames s → before s a b = String.ltb a b)
    as Hbefore.
  { intros a b Ha Hb. unfold before.
    rewrite !rank_info_nothing by (intros p Hp; by apply Hno). done. }
  rewrite calculateRanking_spec. simpl. split.
  - unfold ranking_names. f_equal. by apply std_sort_ext.
  - intros n. destruct (decide (n ∈ teamNames s)) as [Hn|Hn].
    + rewrite rank_in_ahead, alphabetical_rank_registered by done.
      unfold ahead. do 2 f_equal. apply Nat.le_antisymm; apply filter_length_mono.
      * intros u Hu. by rewrite Hbefore.
      * intros u Hu. by rewrite Hbefore.
    + rewrite alphabetical_rank_absent by done. apply rank_in_absent.
      by rewrite ranking_names_perm.
Qed.

(** ** The problem list [start] builds *)

Lemma problem_names_length k : length (problem_names k) = Z.to_nat k.
Proof. unfold problem_names. by rewrite length_map, length_seq. Qed.

Lemma problem_names_lookup k (i : nat) :
  (i < Z.to_nat k)%nat → problem_names k !! i = Some (problem_name (Z.of_nat i)).
Proof.
  intros Hi. unfold problem_names.
  change (map ?f ?l) with (f <$> l).
  by rewrite list_lookup_fmap, lookup_seq_lt.
Qed.

Lemma problem_names_take k k' :
  k ≤ k' → problem_names k = take (Z.to_nat k) (problem_names k').
Proof.
  intros Hk. unfold problem_names.
  change (map ?f ?l) with (f <$> l).
  rewrite <- fmap_take, take_seq. do 2 f_equal. lia.
Qed.

(** X15. [start] on a system of a run that has not started: a negative
    problem count ends the process abnormally; otherwise the contest starts
    with as many problems as asked, the teams untouched.  Up to 26 problems
    are named by the letters from A on; up to 256 problems have distinct
    names; beyond, the one-byte name wraps around and the problem at index
    256 carries the name of the first one. *)
Theorem start_problem_list (s : ICPCSystem) (d p : Z) :
  reachable s → started s = false →
  (p < 0 → start d p s = None)
  ∧ (0 ≤ p →
     ∃ s', start d p s = Some (s', [Msg "[Info]Competition starts."])
       ∧ started s' = true ∧ teamNames s' = teamNames s ∧ teams s' = teams s
       ∧ length (problemList s') = Z.to_nat p
       ∧ (p ≤ 26 → problemList s' = take (Z.to_nat p) alphabet)
       ∧ (p ≤ 256 → NoDup (problemList s'))
       ∧ (256 < p → problemList s' !! 256%nat = problemList s' !! 0%nat)).
Proof.
  intros Hr Hst. pose proof (reachable_problemList s Hr) as Hpl. rewrite Hst in Hpl.
  unfold start. rewrite Hst, Hpl. split.
  - intros Hp. by destruct (Z.ltb_spec p 0); [|lia].
  - intros Hp. destruct (Z.ltb_spec p 0); [lia|].
    eexists. split; [done|]. simpl. split_and!; [done..| | | |].
    + apply problem_names_length.
    + intros H26. by rewrite (problem_names_take p 26).
    + intros H256. rewrite (problem_names_take p 256) by done.
      eapply sublist_NoDup; [|apply sublist_take].
      apply (bool_decide_unpack _). vm_compute. exact I.
    + intros H256. rewrite !problem_names_lookup by lia. done.
Qed.

(** ** The end of a run *)

(** X16. [END] ends the run: the commands before it are executed as they
    would be alone, the closing line is printed last, and no command after
    it is executed, whatever it is. *)
Theorem end_stops_the_run (cmds1 cmds2 : list Command) (s : ICPCSystem) :
  END ∉ cmds1 → run (cmds1 ++ END :: cmds2) s = ended (run cmds1 s).
Proof.
  revert s. induction cmds1 as [|c cmds1 IH]; intros s Hend; [done|].
  apply not_elem_of_cons in Hend as [Hc Hend].
  assert (∀ r, match r with
               | Some (s1, out1) =>
                   match run (cmds1 ++ END :: cmds2) s1 with
                   | Some (s2, out2) => Some (s2, out1 ++ out2)
                   | None => None
                   end
               | None => None
               end
               = ended (match r with
                        | Some (s1, out1) =>
                            match run cmds1 s1 with
                            | Some (s2, out2) => Some (s2, out1 ++ out2)
                            | None => None
                            end
                        | None => None
                        end)) as Hstep.
  { intros [[s1 out1]|]; [|done]. rewrite IH by done.
    destruct (run cmds1 s1) as [[s2 out2]|]; [|done]. simpl. by rewrite app_assoc. }
  destruct c; try done;
    match goal with
    | |- run ((?c :: _) ++ _) _ = _ => exact (Hstep (dispatch c s))
    end.
Qed.

(** ** Freezing only delays *)

Lemma replay_idem ps : replay (replay ps) = replay ps.
Proof. done. Qed.

Lemma replay_empty ps : frozenSubs ps = [] → replay ps = ps.
Proof. intros Hq. unfold replay. rewrite Hq. destruct ps; simpl in *. by subst. Qed.

Lemma scroll_replay_view (s s' : ICPCSystem) (out : list Output) :
  frozen s = true → scroll s = Some (s', out) →
  ∀ n p, replay (status_of (team_of (teams s') n) p)
         = replay (status_of (team_of (teams s) n) p).
Proof.
  apply (scroll_keeps (λ s s',
    ∀ n p, replay (status_of (team_of (teams s') n) p)
           = replay (status_of (team_of (teams s) n) p))).
  - intros s1 s2 s3 H1 H2 n p. by rewrite H2, H1.
  - intros s1 s2 (_ & _ & Ht) n p. by rewrite Ht.
  - intros s1 _ _ n p. rewrite revealed_team_of.
    destruct (decide (n = lowestTeam (selection s1))) as [->|]; [|done].
    rewrite status_of_reveal. by case_decide; [subst p|].
Qed.

(** X17. What [scroll] does to the problem states: for every registered team
    and every problem of the contest, the state after the scroll is the
    state before it with its queue of frozen submissions replayed in order
    and then cleared; a state whose queue is empty is left as it is. *)
Theorem scroll_replays_queues (s s' : ICPCSystem) (out : list Output) :
  frozen s = true → scroll s = Some (s', out) →
  ∀ n p, n ∈ teamNames s → p ∈ problemList s →
    status_of (team_of (teams s') n) p = replay (status_of (team_of (teams s) n) p)
    ∧ (queue s n p = [] →
       status_of (team_of (teams s') n) p = status_of (team_of (teams s) n) p).
Proof.
  intros Hfr Hscroll n p Hn Hp.
  destruct (scroll_outside _ _ _ Hfr Hscroll) as (Hnames & Hprobs & _).
  pose proof (scroll_queues_empty _ _ _ Hfr Hscroll n p) as Hq.
  rewrite Hnames, Hprobs in Hq. specialize (Hq Hn Hp).
  pose proof (scroll_replay_view _ _ _ Hfr Hscroll n p) as Hr.
  rewrite (replay_empty _ Hq) in Hr. split; [done|].
  intros Hq0. by rewrite Hr, replay_empty.
Qed.

Lemma hidden_fold ps subs :
  wasSolvedBeforeFreeze ps = false →
  foldl (λ a sub, submit_status true sub a) ps subs
  = set_frozenSubs (frozenSubs ps ++ subs) ps.
Proof.
  revert ps. induction subs as [|sub subs IH]; intros ps Hw; simpl.
  - rewrite app_nil_r. by destruct ps.
  - unfold submit_status at 2. rewrite Hw. simpl.
    rewrite IH by done. simpl. by rewrite <- app_assoc.
Qed.

Lemma replay_step_queue q ps sub :
  replay_step (set_frozenSubs q ps) sub = set_frozenSubs q (replay_step ps sub).
Proof.
  unfold replay_step. simpl.
  by destruct (String.eqb (status sub) "Accepted"), (solved ps).
Qed.

Lemma foldl_replay_queue q ps subs :
  foldl replay_step (set_frozenSubs q ps) subs
  = set_frozenSubs q (foldl replay_step ps subs).
Proof.
  revert ps. induction subs as [|sub subs IH]; intros ps; simpl; [done|].
  by rewrite replay_step_queue, IH.
Qed.

Lemma foldl_replay_frozenSubs ps subs :
  frozenSubs (foldl replay_step ps subs) = frozenSubs ps.
Proof.
  revert ps. induction subs as [|sub subs IH]; intros ps; simpl; [done|].
  rewrite IH. unfold replay_step.
  by destruct (String.eqb (status sub) "Accepted"), (solved ps).
Qed.

Lemma visible_fold ps subs :
  foldl (λ a sub, submit_status false sub a) ps subs = foldl replay_step ps subs.
Proof.
  revert ps. induction subs as [|sub subs IH]; intros ps; simpl; [done|].
  rewrite IH. f_equal. unfold submit_status. simpl. by rewrite replay_step_apply.
Qed.

(** Replaying the submissions a frozen board has queued gives the state the
    same submissions give on a board that is not frozen. *)
Lemma deferred_is_immediate ps subs :
  frozenSubs ps = [] → solved ps = wasSolvedBeforeFreeze ps →
  replay (foldl (λ a sub, submit_status true sub a) ps subs)
  = foldl (λ a sub, submit_status false sub a) ps subs.
Proof.
  intros Hq Hflags. rewrite visible_fold.
  destruct (wasSolvedBeforeFreeze ps) eqn:Hw.
  - rewrite foldl_replay_solved by done.
    assert (foldl (λ a sub, submit_status true sub a) ps subs = ps) as ->.
    { induction subs as [|sub subs IH]; simpl; [done|].
      unfold submit_status at 2. rewrite Hw. simpl.
      unfold apply_visible. rewrite Hflags. simpl. exact IH. }
    by apply replay_empty.
  - rewrite hidden_fold, Hq by done. simpl. unfold replay. simpl.
    rewrite foldl_replay_queue. simpl.
    pose proof (foldl_replay_frozenSubs ps subs) as Hf. rewrite Hq in Hf.
    destruct (foldl replay_step ps subs); simpl in *. by subst.
Qed.

Lemma run_submits cmds s s' out :
  Forall is_submit cmds → run cmds s = Some (s', out) →
  frozen s' = frozen s ∧ teamNames s' = teamNames s ∧ problemList s' = problemList s
  ∧ ∀ n p, status_of (team_of (teams s') n) p
           = foldl (λ a sub, submit_status (frozen s) sub a)
               (status_of (team_of (teams s) n) p) (submitted_on n p cmds).
Proof.
  revert s out. induction cmds as [|c cmds IH]; intros s out Hall; simpl.
  - by intros [= <- _].
  - apply Forall_cons in Hall as [Hc Hall].
    destruct c as [?|? ?|prob team stat tm| | | |?|? ? ?|]; try done. simpl.
    destruct (run cmds (submit prob team stat tm s)) as [[s2 out2]|] eqn:Hrun; [|done].
    intros [= <- _]. destruct (IH _ _ Hall Hrun) as (Hf & Hn & Hp & Hs).
    split_and!; [done..|]. intros n p. rewrite Hs, foldl_app, submit_status_of.
    change (frozen (submit prob team stat tm s)) with (frozen s).
    f_equal. by case_decide as Hnp; [destruct Hnp as [-> ->]|].
Qed.

Lemma ranking_names_agree s1 s2 :
  agree_visible s1 s2 → ranking_names s1 = ranking_names s2.
Proof.
  intros (Hn & Hp & Hv). unfold ranking_names. rewrite <- Hn. apply std_sort_ext.
  intros a b Ha Hb. unfold before. rewrite <- Hp.
  by rewrite (rank_info_visible (teams s1) (teams s2) _ a),
             (rank_info_visible (teams s1) (teams s2) _ b)
    by (intros p Hpl; by apply Hv).
Qed.

Lemma cell_of_status t1 t2 p :
  status_of t1 p = status_of t2 p → cell_of t1 p = cell_of t2 p.
Proof.
  unfold status_of, cell_of.
  destruct (problems t1 !! p) as [ps1|], (problems t2 !! p) as [ps2|]; simpl;
    [by intros ->|by intros ->|by intros <-|done].
Qed.

Lemma board_agree s1 s2 :
  Inv s1 → Inv s2 →
  teamNames s1 = teamNames s2 → problemList s1 = problemList s2 →
  (∀ n p, n ∈ teamNames s1 → p ∈ problemList s1 →
     status_of (team_of (teams s1) n) p = status_of (team_of (teams s2) n) p) →
  (calculateRanking s1).1 = (calculateRanking s2).1
  ∧ (printScoreboard s1).1 = (printScoreboard s2).1.
Proof.
  intros HI1 HI2 Hn Hp Hs.
  assert (ranking_names s1 = ranking_names s2) as Hr.
  { apply ranking_names_agree. split_and!; [done..|].
    intros n p Hin Hpl. by rewrite Hs. }
  split; [by rewrite !calculateRanking_spec, Hr|].
  rewrite !printScoreboard_out, <- Hr, <- Hp.
  apply map_ext_in. intros [n r] Hin%list_elem_of_In.
  apply ranked_registered in Hin as [Hin _]. simpl.
  rewrite !score_row_totals, !Inv_team_name by (done || by rewrite <- Hn).
  f_equal.
  - f_equal. apply rank_info_visible. intros p Hpl. by rewrite Hs.
  - f_equal. apply rank_info_visible. intros p Hpl. by rewrite Hs.
  - apply map_ext_in. intros p Hpl%list_elem_of_In. by apply cell_of_status, Hs.
Qed.

(** X18. Freezing only delays.  Take a system of a run that is not frozen
    and has no queued submission for a registered team on a problem of the
    contest.  Freezing it, making any sequence of submissions and scrolling
    leaves every registered team, on every problem of the contest, in the
    state the same submissions give without the freeze; the ranking and the
    scoreboard are the same, and the board is no longer frozen. *)
Theorem freeze_only_delays (s sf s1 s2 : ICPCSystem) (subs : list Command)
    (outf out1 out2 : list Output) :
  reachable s → frozen s = false →
  (∀ n p, n ∈ teamNames s → p ∈ problemList s → queue s n p = []) →
  Forall is_submit subs →
  run subs (freeze s).1 = Some (sf, outf) → scroll sf = Some (s1, out1) →
  run subs s = Some (s2, out2) →
  (∀ n p, n ∈ teamNames s → p ∈ problemList s →
     status_of (team_of (teams s1) n) p = status_of (team_of (teams s2) n) p)
  ∧ (calculateRanking s1).1 = (calculateRanking s2).1
  ∧ (printScoreboard s1).1 = (printScoreboard s2).1
  ∧ frozen s1 = false.
Proof.
  intros HI%reachable_Inv Hfr Hq Hall Hrunf Hscroll Hrun2.
  rewrite freeze_Inv_form, Hfr in Hrunf by done.
  pose proof (Inv_set_frozen true s HI) as HIf0.
  destruct (run_Inv _ _ _ _ HIf0 Hrunf) as [HIf _].
  destruct (run_Inv _ _ _ _ HI Hrun2) as [HI2 _].
  destruct (scroll_Inv _ _ _ HIf Hscroll) as (HI1 & _ & _ & Hun).
  destruct (run_submits _ _ _ _ Hall Hrunf) as (Hff & Hnf & Hpf & Hsf).
  destruct (run_submits _ _ _ _ Hall Hrun2) as (Hf2 & Hn2 & Hp2 & Hs2).
  simpl in Hff, Hnf, Hpf, Hsf. rewrite Hfr in Hs2.
  destruct (scroll_outside _ _ _ Hff Hscroll) as (Hn1 & Hp1 & _).
  assert (∀ n p, n ∈ teamNames s → p ∈ problemList s →
    status_of (team_of (teams s1) n) p = status_of (team_of (teams s2) n) p) as Hs.
  { intros n p Hn Hp.
    pose proof (scroll_replay_view _ _ _ Hff Hscroll n p) as Hr.
    rewrite replay_empty in Hr.
    2: { apply (scroll_queues_empty _ _ _ Hff Hscroll); congruence. }
    rewrite Hr, Hsf, Hs2. apply deferred_is_immediate.
    - by apply Hq.
    - by apply Inv_status_of. }
  split_and!; [done| | |by apply Hun].
  - apply board_agree; [done|done|congruence|congruence|].
    intros n p Hn Hp. apply Hs; congruence.
  - apply board_agree; [done|done|congruence|congruence|].
    intros n p Hn Hp. apply Hs; congruence.
Qed.

(** ** The [QUERY_SUBMISSION] line *)

Lemma no_char_get c s i : no_char c s = true → String.get i s ≠ Some c.
Proof.
  revert i. induction s as [|d s IH]; intros i; simpl; [done|].
  intros [Hd Hs]%andb_true_iff. destruct i as [|i]; [|by apply IH].
  intros [= ->]. by rewrite Ascii.eqb_refl in Hd.
Qed.

Lemma prefix_get pat s i c :
  starts_with pat s = true → String.get i pat = Some c → String.get i s = Some c.
Proof.
  revert s i. induction pat as [|a pat IH]; intros s i; [by destruct i|].
  destruct s as [|b s]; simpl; [done|].
  intros [->%Ascii.eqb_eq Hp]%andb_true_iff.
  destruct i as [|i]; simpl; [done|]. by apply IH.
Qed.

Lemma get_app_l s t i :
  (i < String.length s)%nat → String.get i (s +:+ t) = String.get i s.
Proof.
  revert i. induction s as [|a s IH]; intros i; simpl; [lia|].
  destruct i as [|i]; [done|]. intros Hi. apply IH. lia.
Qed.

Lemma get_app_r s t i :
  String.get (String.length s + i) (s +:+ t) = String.get i t.
Proof. induction s as [|a s IH]; simpl; [done|]. exact IH. Qed.

Lemma find_status_after prob stat :
  no_char "="%char prob = true →
  find_pos "STATUS=" (prob +:+ " AND STATUS=" +:+ stat)
  = Some (String.length prob + 5)%nat.
Proof.
  intros Hno. induction prob as [|a prob IH]; [reflexivity|].
  assert (starts_with "STATUS=" (String a prob +:+ " AND STATUS=" +:+ stat) = false)
    as Hpre.
  { destruct (starts_with _ _) eqn:Hp; [|done].
    apply (prefix_get _ _ 6 "="%char) in Hp; [|done].
    destruct (decide (6 < String.length (String a prob))%nat) as [Hlt|Hge].
    - rewrite get_app_l in Hp by done. by apply no_char_get in Hp.
    - replace 6%nat with (String.length (String a prob)
                          + (6 - String.length (String a prob)))%nat in Hp by lia.
      rewrite get_app_r in Hp.
      assert (6 - String.length (String a prob) < 6)%nat as Hk by (simpl; lia).
      revert Hp Hk. generalize (6 - String.length (String a prob))%nat. intros k.
      do 6 (destruct k as [|k]; [done|]). lia. }
  simpl in Hno. apply andb_true_iff in Hno as [_ Hno].
  change (find_pos "STATUS=" (String a prob +:+ " AND STATUS=" +:+ stat))
    with (if starts_with "STATUS=" (String a prob +:+ " AND STATUS=" +:+ stat)
          then Some O
          else S <$> find_pos "STATUS=" (prob +:+ " AND STATUS=" +:+ stat)).
  by rewrite Hpre, IH.
Qed.

Lemma substring_app_l s t : String.substring 0 (String.length s) (s +:+ t) = s.
Proof.
  induction s as [|a s IH]; simpl; [by destruct t|]. by rewrite IH.
Qed.

Lemma substring_app_r s t n m :
  String.substring (String.length s + n) m (s +:+ t) = String.substring n m t.
Proof. induction s as [|a s IH]; simpl; [done|]. exact IH. Qed.

Lemma substring_all s : String.substring 0 (String.length s) s = s.
Proof. induction s as [|a s IH]; simpl; [done|]. by rewrite IH. Qed.

Lemma length_app_str s t :
  String.length (s +:+ t) = (String.length s + String.length t)%nat.
Proof. induction s as [|a s IH]; simpl; [done|]. by rewrite IH. Qed.

(** X19. A well-formed query line is read back: when what follows the team
    name and the word after it is [ PROBLEM=p AND STATUS=s], with no [=] in
    [p], [main] passes the problem [p] and the status [s] to
    [querySubmission], whatever characters [s] is made of. *)
Theorem query_line_round_trip (prob stat : string) :
  let rest := " PROBLEM=" +:+ prob +:+ " AND STATUS=" +:+ stat in
  no_char "="%char prob = true → Z.of_nat (String.length rest) < 2 ^ 64 →
  parse_query_rest rest = Some (prob, stat).
Proof.
  intros rest Hno Hlen.
  assert (String.length rest
          = 21 + String.length prob + String.length stat)%nat as Hsize.
  { unfold rest. rewrite !length_app_str. simpl. lia. }
  assert (str_find rest "PROBLEM=" = 1) as Hp by reflexivity.
  assert (str_find rest "STATUS=" = Z.of_nat (String.length prob) + 14) as Hs.
  { unfold str_find, rest.
    change (find_pos "STATUS=" (" PROBLEM=" +:+ prob +:+ " AND STATUS=" +:+ stat))
      with (S <$> (S <$> (S <$> (S <$> (S <$> (S <$> (S <$> (S <$> (S <$>
              find_pos "STATUS=" (prob +:+ " AND STATUS=" +:+ stat)))))))))).
    rewrite find_status_after by done. simpl. lia. }
  unfold parse_query_rest. rewrite Hp, Hs. unfold substr, wrap_size, npos.
  rewrite Hsize.
  rewrite !Z.mod_small by lia.
  destruct (Z.ltb_spec (Z.of_nat (21 + String.length prob + String.length stat)) (1 + 8));
    [lia|].
  destruct (Z.ltb_spec (Z.of_nat (21 + String.length prob + String.length stat))
              (Z.of_nat (String.length prob) + 14 + 7)); [lia|].
  replace (Z.to_nat (1 + 8)) with 9%nat by lia.
  replace (Z.to_nat (Z.min (Z.of_nat (String.length prob) + 14 - 1 - 13) _))
    with (String.length prob) by lia.
  replace (Z.to_nat (Z.of_nat (String.length prob) + 14 + 7))
    with (9 + (String.length prob + 12))%nat by lia.
  replace (Z.to_nat (Z.min (2 ^ 64 - 1) _)) with (String.length stat) by lia.
  unfold rest.
  change (String.substring 9 ?m (" PROBLEM=" +:+ ?t)) with (String.substring 0 m t).
  change (String.substring (9 + ?n) ?m (" PROBLEM=" +:+ ?t)) with (String.substring n m t).
  rewrite substring_app_l, substring_app_r.
  change (String.substring 12 ?m (" AND STATUS=" +:+ ?t)) with (String.substring 0 m t).
  by rewrite substring_all.
Qed.

Lemma starts_with_length pat s :
  starts_with pat s = true → (String.length pat ≤ String.length s)%nat.
Proof.
  revert s. induction pat as [|a pat IH]; intros s; simpl; [lia|].
  destruct s as [|b s]; [done|]. intros [_ Hp]%andb_true_iff.
  apply IH in Hp. simpl. lia.
Qed.

Lemma find_pos_bound pat s i :
  find_pos pat s = Some i → (i + String.length pat ≤ String.length s)%nat.
Proof.
  revert i. induction s as [|b s IH]; intros i; simpl.
  - destruct (starts_with pat "") eqn:Hp; [|done].
    intros [= <-]. by apply starts_with_length in Hp.
  - destruct (starts_with pat (String b s)) eqn:Hp.
    + intros [= <-]. by apply starts_with_length in Hp.
    + destruct (find_pos pat s) as [j|]; [|done]. intros [= <-].
      specialize (IH j eq_refl). simpl. lia.
Qed.

(** X20. The query line that ends the process: [main] dies of the uncaught
    [std::out_of_range] of [substr] exactly when what follows the team name
    and the word after it has fewer than 7 characters, for instance when the
    line stops after the team name.  Any longer rest is passed on, keyword
    or no keyword. *)
Theorem query_line_abort (rest : string) :
  Z.of_nat (String.length rest) < 2 ^ 64 - 8 →
  parse_query_rest rest = None ↔ (String.length rest < 7)%nat.
Proof.
  intros Hlen. unfold parse_query_rest, str_find.
  pose proof (find_pos_bound "PROBLEM=" rest) as Hp.
  pose proof (find_pos_bound "STATUS=" rest) as Hs.
  assert (wrap_size (npos + 8) = 7) as H7 by reflexivity.
  assert (wrap_size (npos + 7) = 6) as H6 by reflexivity.
  assert (∀ pos len, pos ≤ Z.of_nat (String.length rest) →
            is_Some (substr rest pos len)) as Hok.
  { intros pos len Hpos. unfold substr. cbv zeta.
    by destruct (Z.ltb_spec (Z.of_nat (String.length rest)) pos); [lia|]. }
  assert (∀ i : nat, (i + 8 ≤ String.length rest)%nat →
            wrap_size (Z.of_nat i + 8) ≤ Z.of_nat (String.length rest)) as Hw8.
  { intros i Hi. unfold wrap_size. rewrite Z.mod_small; lia. }
  assert (∀ j : nat, (j + 7 ≤ String.length rest)%nat →
            wrap_size (Z.of_nat j + 7) ≤ Z.of_nat (String.length rest)) as Hw7.
  { intros j Hj. unfold wrap_size. rewrite Z.mod_small; lia. }
  destruct (find_pos "PROBLEM=" rest) as [i|].
  - specialize (Hp i eq_refl). simpl in Hp.
    destruct (Hok (wrap_size (Z.of_nat i + 8))
                (wrap_size (match find_pos "STATUS=" rest with
                            | Some j => Z.of_nat j
                            | None => npos
                            end - Z.of_nat i - 13))) as [problem ->];
      [by apply Hw8|].
    destruct (find_pos "STATUS=" rest) as [j|].
    + specialize (Hs j eq_refl). simpl in Hs.
      destruct (Hok (wrap_size (Z.of_nat j + 7)) npos) as [stat ->]; [by apply Hw7|].
      split; [done|lia].
    + rewrite H6. destruct (Hok 6 npos) as [stat ->]; [lia|]. split; [done|lia].
  - rewrite H7. destruct (decide (String.length rest < 7)%nat) as [Hlt|Hge].
    + unfold substr at 1. cbv zeta.
      by destruct (Z.ltb_spec (Z.of_nat (String.length rest)) 7); [|lia].
    + destruct (Hok 7 (wrap_size (match find_pos "STATUS=" rest with
                                  | Some j => Z.of_nat j
                                  | None => npos
                                  end - npos - 13))) as [problem ->]; [lia|].
      destruct (find_pos "STATUS=" rest) as [j|].
      * specialize (Hs j eq_refl). simpl in Hs.
        destruct (Hok (wrap_size (Z.of_nat j + 7)) npos) as [stat ->]; [by apply Hw7|].
        split; [done|lia].
      * rewrite H6. destruct (Hok 6 npos) as [stat ->]; [lia|]. split; [done|lia].
Qed.

(** ** Examples of the further properties *)

Lemma scroll_ignores_outsiders_witness :
  let s := frozen_board in
  let s' := result_state (scroll s) in
  frozen s = true ∧ scroll s = Some (s', result_out (scroll s))
  ∧ submissions (team_of (teams s') "b") = submissions (team_of (teams s) "b").
Proof.
  intros s s'.
  assert (frozen s = true) as H1 by (vm_compute; reflexivity).
  assert (scroll s = Some (s', result_out (scroll s))) as H2 by (vm_compute; reflexivity).
  split_and!; [exact H1|exact H2|].
  destruct (scroll_ignores_outsiders s s' _ H1 H2) as (_ & _ & _ & Hl). exact (Hl "b").
Defined.

Lemma configuration_fixed_after_start_witness :
  let s := two_teams in
  let cmds := [ADDTEAM "c"; START 5 7; FREEZE] in
  let s' := result_state (run cmds s) in
  reachable s ∧ started s = true ∧ run cmds s = Some (s', result_out (run cmds s))
  ∧ teamNames s' = teamNames s.
Proof.
  intros s cmds s'.
  assert (reachable s) as H1.
  { apply state_after_reachable. vm_compute. eexists. reflexivity. }
  assert (started s = true) as H2 by (vm_compute; reflexivity).
  assert (run cmds s = Some (s', result_out (run cmds s))) as H3
    by (vm_compute; reflexivity).
  split_and!; [exact H1|exact H2|exact H3|].
  destruct (configuration_fixed_after_start s s' cmds _ H1 H2 H3) as (_ & Hn & _).
  exact Hn.
Defined.

Lemma solved_is_final_witness :
  let s := two_teams in
  let cmds := [SUBMIT "A" "b" "Wrong" 6; FREEZE; SUBMIT "A" "b" "Accepted" 8; SCROLL] in
  let s' := result_state (run cmds s) in
  reachable s ∧ run cmds s = Some (s', result_out (run cmds s))
  ∧ solved (status_of (team_of (teams s) "b") "A") = true
  ∧ solveTime (status_of (team_of (teams s') "b") "A")
    = solveTime (status_of (team_of (teams s) "b") "A").
Proof.
  intros s cmds s'.
  assert (reachable s) as H1.
  { apply state_after_reachable. vm_compute. eexists. reflexivity. }
  assert (run cmds s = Some (s', result_out (run cmds s))) as H2
    by (vm_compute; reflexivity).
  assert (solved (status_of (team_of (teams s) "b") "A") = true) as H3
    by (vm_compute; reflexivity).
  split_and!; [exact H1|exact H2|exact H3|].
  destruct (solved_is_final s s' cmds _ "b" "A" H1 H2 H3) as (_ & Ht & _). exact Ht.
Defined.

Lemma ledger_records_every_submit_witness :
  let s := two_teams in
  let cmds := [FREEZE; SUBMIT "B" "b" "Wrong" 6; SCROLL; SUBMIT "B" "b" "Accepted" 8] in
  let s' := result_state (run cmds s) in
  reachable s ∧ run cmds s = Some (s', result_out (run cmds s))
  ∧ submissions (team_of (teams s') "b")
    = submissions (team_of (teams s) "b") ++ submitted_by "b" cmds.
Proof.
  intros s cmds s'.
  assert (reachable s) as H1.
  { apply state_after_reachable. vm_compute. eexists. reflexivity. }
  assert (run cmds s = Some (s', result_out (run cmds s))) as H2
    by (vm_compute; reflexivity).
  split_and!; [exact H1|exact H2|].
  exact (ledger_records_every_submit s s' cmds _ "b" H1 H2).
Defined.

Lemma submit_then_query_witness :
  querySubmission "a" "ALL" "Accepted" (submit "A" "a" "Accepted" 7 two_teams)
  = [Msg "[Info]Complete query submission."; SubLine "a" "A" "Accepted" 7].
Proof.
  apply (submit_then_query two_teams "A" "a" "Accepted" 7 "ALL" "Accepted").
  - left. reflexivity.
  - right. reflexivity.
Defined.

Lemma frozen_ranking_stands_still_witness :
  let s := frozen_board in
  reachable s ∧ frozen s = true
  ∧ (calculateRanking (submit "B" "b" "Accepted" 9 s)).1 = (calculateRanking s).1.
Proof.
  intros s.
  assert (reachable s) as H1.
  { apply state_after_reachable. vm_compute. eexists. reflexivity. }
  assert (frozen s = true) as H2 by (vm_compute; reflexivity).
  split_and!; [exact H1|exact H2|].
  exact (proj1 (frozen_ranking_stands_still s "B" "b" "Accepted" 9 H1 H2)).
Defined.

Lemma scoreboard_rows_witness :
  reachable two_teams ∧ length (printScoreboard two_teams).1 = length (teamNames two_teams).
Proof.
  assert (reachable two_teams) as H1.
  { apply state_after_reachable. vm_compute. eexists. reflexivity. }
  split; [exact H1|].
  destruct (scoreboard_rows two_teams H1) as (_ & Hl & _). exact Hl.
Defined.

Lemma scroll_output_witness :
  let s := frozen_board in
  let s' := result_state (scroll s) in
  frozen s = true ∧ scroll s = Some (s', result_out (scroll s))
  ∧ ∃ changes,
      result_out (scroll s)
      = Msg "[Info]Scroll scoreboard."
        :: (printScoreboard s).1 ++ changes ++ (printScoreboard s').1
      ∧ Forall is_change changes.
Proof.
  intros s s'.
  assert (frozen s = true) as H1 by (vm_compute; reflexivity).
  assert (scroll s = Some (s', result_out (scroll s))) as H2 by (vm_compute; reflexivity).
  split_and!; [exact H1|exact H2|].
  destruct (scroll_output s s' _ H1 H2) as (changes & Hout & Hch & _).
  exists changes. split; [exact Hout|exact Hch].
Defined.

Lemma flush_then_query_witness :
  reachable two_teams ∧ "b" ∈ teamNames two_teams
  ∧ rank_in (calculateRanking two_teams).1 "b" = Z.of_nat (ahead two_teams "b") + 1.
Proof.
  assert (reachable two_teams) as H1.
  { apply state_after_reachable. vm_compute. eexists. reflexivity. }
  assert ("b" ∈ teamNames two_teams) as H2
    by (apply (bool_decide_unpack _); vm_compute; exact I).
  split_and!; [exact H1|exact H2|].
  destruct (flush_then_query two_teams "b" false H1 H2) as (_ & Hr & _). exact Hr.
Defined.

Lemma fallback_rank_is_exact_witness :
  let s := unsolved_teams in
  reachable s
  ∧ (∀ n p, n ∈ teamNames s → p ∈ problemList s →
       counted (status_of (team_of (teams s) n) p) = false)
  ∧ (calculateRanking s).1 = number_ranks (std_sort String.ltb (teamNames s)).
Proof.
  intros s.
  assert (reachable s) as H1.
  { apply state_after_reachable. vm_compute. eexists. reflexivity. }
  assert (∀ n p, n ∈ teamNames s → p ∈ problemList s →
            counted (status_of (team_of (teams s) n) p) = false) as H2.
  { assert (Forall (λ n, Forall (λ p, counted (status_of (team_of (teams s) n) p) = false)
                           (problemList s)) (teamNames s)) as Hall
      by (apply (bool_decide_unpack _); vm_compute; exact I).
    intros n p Hn Hp. rewrite Forall_forall in Hall.
    specialize (Hall n Hn). rewrite Forall_forall in Hall. exact (Hall p Hp). }
  split_and!; [exact H1|exact H2|].
  exact (proj1 (fallback_rank_is_exact s H1 H2)).
Defined.

Lemma start_problem_list_witness :
  reachable new_ICPCSystem ∧ started new_ICPCSystem = false
  ∧ ∃ s', start 10 3 new_ICPCSystem = Some (s', [Msg "[Info]Competition starts."])
          ∧ problemList s' = ["A"; "B"; "C"].
Proof.
  assert (reachable new_ICPCSystem) as H1 by (exists [], []; reflexivity).
  assert (started new_ICPCSystem = false) as H2 by reflexivity.
  split_and!; [exact H1|exact H2|].
  destruct (proj2 (start_problem_list new_ICPCSystem 10 3 H1 H2))
    as (s' & Hs & _ & _ & _ & _ & Hal & _); [lia|].
  exists s'. split; [exact Hs|]. apply Hal. lia.
Defined.

Lemma end_stops_the_run_witness :
  (END ∉ [ADDTEAM "a"; FLUSH])
  ∧ run ([ADDTEAM "a"; FLUSH] ++ END :: [ADDTEAM "b"]) new_ICPCSystem
    = ended (run [ADDTEAM "a"; FLUSH] new_ICPCSystem).
Proof.
  assert (END ∉ [ADDTEAM "a"; FLUSH]) as H1.
  { intros Hin. apply elem_of_cons in Hin as [Hin|Hin]; [discriminate Hin|].
    apply elem_of_cons in Hin as [Hin|Hin]; [discriminate Hin|].
    by apply elem_of_nil in Hin. }
  split; [exact H1|].
  exact (end_stops_the_run [ADDTEAM "a"; FLUSH] [ADDTEAM "b"] new_ICPCSystem H1).
Defined.

Lemma scroll_replays_queues_witness :
  let s := frozen_board in
  let s' := result_state (scroll s) in
  frozen s = true ∧ scroll s = Some (s', result_out (scroll s))
  ∧ "b" ∈ teamNames s ∧ "A" ∈ problemList s
  ∧ status_of (team_of (teams s') "b") "A"
    = replay (status_of (team_of (teams s) "b") "A").
Proof.
  intros s s'.
  assert (frozen s = true) as H1 by (vm_compute; reflexivity).
  assert (scroll s = Some (s', result_out (scroll s))) as H2 by (vm_compute; reflexivity).
  assert ("b" ∈ teamNames s) as H3 by (apply (bool_decide_unpack _); vm_compute; exact I).
  assert ("A" ∈ problemList s) as H4 by (apply (bool_decide_unpack _); vm_compute; exact I).
  split_and!; [exact H1|exact H2|exact H3|exact H4|].
  exact (proj1 (scroll_replays_queues s s' _ H1 H2 "b" "A" H3 H4)).
Defined.

Lemma freeze_only_delays_witness :
  let s := two_teams in
  let sf := result_state (run some_submits (freeze s).1) in
  let s1 := result_state (scroll sf) in
  let s2 := result_state (run some_submits s) in
  reachable s ∧ frozen s = false
  ∧ (∀ n p, n ∈ teamNames s → p ∈ problemList s → queue s n p = [])
  ∧ Forall is_submit some_submits
  ∧ run some_submits (freeze s).1
    = Some (sf, result_out (run some_submits (freeze s).1))
  ∧ scroll sf = Some (s1, result_out (scroll sf))
  ∧ run some_submits s = Some (s2, result_out (run some_submits s))
  ∧ (printScoreboard s1).1 = (printScoreboard s2).1.
Proof.
  intros s sf s1 s2.
  assert (reachable s) as H1.
  { apply state_after_reachable. vm_compute. eexists. reflexivity. }
  assert (frozen s = false) as H2 by (vm_compute; reflexivity).
  assert (∀ n p, n ∈ teamNames s → p ∈ problemList s → queue s n p = []) as H3.
  { assert (Forall (λ n, Forall (λ p, queue s n p = []) (problemList s))
              (teamNames s)) as Hall
      by (apply (bool_decide_unpack _); vm_compute; exact I).
    intros n p Hn Hp. rewrite Forall_forall in Hall.
    specialize (Hall n Hn). rewrite Forall_forall in Hall. exact (Hall p Hp). }
  assert (Forall is_submit some_submits) as H4 by (repeat constructor).
  assert (run some_submits (freeze s).1
          = Some (sf, result_out (run some_submits (freeze s).1))) as H5
    by (vm_compute; reflexivity).
  assert (scroll sf = Some (s1, result_out (scroll sf))) as H6
    by (vm_compute; reflexivity).
  assert (run some_submits s = Some (s2, result_out (run some_submits s))) as H7
    by (vm_compute; reflexivity).
  split_and!; [exact H1|exact H2|exact H3|exact H4|exact H5|exact H6|exact H7|].
  destruct (freeze_only_delays s sf s1 s2 some_submits _ _ _ H1 H2 H3 H4 H5 H6 H7)
    as (_ & _ & Hb & _).
  exact Hb.
Defined.

Lemma query_line_round_trip_witness :
  parse_query_rest " PROBLEM=A AND STATUS=Accepted" = Some ("A", "Accepted").
Proof.
  apply (query_line_round_trip "A" "Accepted").
  - reflexivity.
  - vm_compute. reflexivity.
Defined.

Lemma query_line_abort_witness : parse_query_rest "" = None.
Proof.
  assert (Z.of_nat (String.length "") < 2 ^ 64 - 8) as H1 by (vm_compute; reflexivity).
  apply (proj2 (query_line_abort "" H1)). simpl. lia.
Defined.

(** ** A submission and the ranks *)

Lemma filter_length_but_one {A} `{!EqDecision A} (P Q : A → Prop)
    `{!∀ x, Decision (P x)} `{!∀ x, Decision (Q x)} (l : list A) x :
  NoDup l → (∀ y, y ∈ l → y ≠ x → P y → Q y) →
  (length (filter P l) ≤ length (filter Q l) + 1)%nat.
Proof.
  induction l as [|y l IH]; intros Hnd Hi; [simpl; lia|].
  apply NoDup_cons in Hnd as [Hy Hnd]. rewrite !filter_cons.
  destruct (decide (y = x)) as [->|Hne].
  - assert (length (filter P l) ≤ length (filter Q l))%nat.
    { apply filter_length_mono. intros z Hz. apply Hi; [set_solver|].
      intros ->. done. }
    destruct (decide (P x)), (decide (Q x)); simpl; lia.
  - assert (length (filter P l) ≤ length (filter Q l) + 1)%nat
      by (apply IH; [done|]; intros z Hz; apply Hi; set_solver).
    destruct (decide (P y)) as [HP|], (decide (Q y)) as [|HQ]; simpl; try lia.
    destruct HQ. apply Hi; [set_solver|done|done].
Qed.

Section Improved.
Context (s s' : ICPCSystem) (t : string).
Context (Hnames : teamNames s' = teamNames s).
Context (Hother : ∀ u, u ≠ t →
  rank_info (teams s') (problemList s') u = rank_info (teams s) (problemList s) u).
Context (Hself :
  rank_info (teams s') (problemList s') t = rank_info (teams s) (problemList s) t
  ∨ info_solved (rank_info (teams s) (problemList s) t)
    < info_solved (rank_info (teams s') (problemList s') t)).

Lemma improved_others u v : u ≠ t → v ≠ t → before s' u v = before s u v.
Proof. intros Hu Hv. unfold before. by rewrite !Hother. Qed.

Lemma improved_self_before u : before s t u = true → before s' t u = true.
Proof.
  pose proof (before_strict s) as Hst.
  destruct (decide (u = t)) as [->|Hne].
  { by rewrite (st_irrefl _ Hst). }
  unfold before. rewrite (Hother u Hne).
  destruct Hself as [->|Hmore]; [done|].
  intros Htu%compare_infos_spec. apply compare_infos_spec. left.
  destruct Htu as [?|[? _]]; lia.
Qed.

Lemma improved_before_self u : before s' u t = true → before s u t = true.
Proof.
  pose proof (before_strict s) as Hst. pose proof (before_strict s') as Hst'.
  destruct (decide (u = t)) as [->|Hne].
  { by rewrite (st_irrefl _ Hst'). }
  intros Hut. destruct (st_connex _ Hst u t Hne) as [?|Htu]; [done|].
  apply improved_self_before in Htu.
  by rewrite (st_asym _ Hst' _ _ Hut) in Htu.
Qed.

Lemma improved_ahead_self : (ahead s' t ≤ ahead s t)%nat.
Proof.
  unfold ahead. rewrite Hnames. apply filter_length_mono.
  intros u _. apply improved_before_self.
Qed.

Lemma improved_ahead_other u :
  NoDup (teamNames s) → u ≠ t →
  (ahead s u ≤ ahead s' u ≤ ahead s u + 1)%nat.
Proof.
  intros Hnd Hu. unfold ahead. rewrite Hnames. split.
  - apply filter_length_mono. intros v _.
    destruct (decide (v = t)) as [->|Hv]; [apply improved_self_before|].
    by rewrite improved_others.
  - apply (filter_length_but_one _ _ _ t); [done|].
    intros v _ Hv. by rewrite improved_others.
Qed.
End Improved.

Lemma submit_info_other prob team stat tm s u :
  u ≠ team →
  rank_info (teams (submit prob team stat tm s)) (problemList s) u
  = rank_info (teams s) (problemList s) u.
Proof.
  intros Hne. apply rank_info_team. by rewrite submit_team_of, decide_False.
Qed.

(** The key of the submitting team is unchanged, or it has solved more; it
    is unchanged when the submission is not accepted. *)
Lemma submit_info_self prob team stat tm s :
  let pl := problemList s in
  let s' := submit prob team stat tm s in
  (rank_info (teams s') pl team = rank_info (teams s) pl team
   ∨ info_solved (rank_info (teams s) pl team) < info_solved (rank_info (teams s') pl team))
  ∧ (stat ≠ "Accepted" → rank_info (teams s') pl team = rank_info (teams s) pl team).
Proof.
  intros pl s'.
  remember (team_of (teams s) team) as T eqn:ET.
  remember (team_of (teams s') team) as T' eqn:ET'.
  remember (submit_status (frozen s) (mkSubmission prob stat tm) (status_of T prob))
    as ps' eqn:Eps.
  assert (∀ p, status_of T' p = if decide (p = prob) then ps' else status_of T p)
    as Hst.
  { intros p. rewrite ET', Eps, ET. unfold s'. rewrite submit_status_of.
    destruct (decide (p = prob)) as [->|Hp].
    - by rewrite decide_True.
    - rewrite decide_False; [done|]. by intros [_ ?]. }
  assert (counted ps' = counted (status_of T prob) →
          rank_info (teams s') pl team = rank_info (teams s) pl team) as Hsame.
  { intros Hc. unfold rank_info. rewrite <- ET, <- ET'.
    rewrite (foldl_ext_in (rank_info_step T') (rank_info_step T)); [done|].
    intros acc p _. rewrite !rank_info_step_status, Hst. cbv zeta.
    destruct (decide (p = prob)) as [->|]; [|done].
    fold (counted ps') (counted (status_of T prob)). rewrite Hc.
    destruct (counted (status_of T prob)) eqn:Hc0; [|done].
    assert (ps' = status_of T prob) as ->; [|done].
    rewrite Eps. unfold counted in Hc0. apply andb_true_iff in Hc0 as [Hs Hw].
    unfold submit_status, apply_visible. rewrite Hs, Hw. simpl.
    by rewrite andb_false_r. }
  split.
  - destruct (decide (counted ps' = counted (status_of T prob))) as [Hc|Hc];
      [left; by apply Hsame|].
    destruct (counted (status_of T prob)) eqn:Hc0.
    { destruct Hc. rewrite Eps. unfold counted in Hc0 |- *.
      apply andb_true_iff in Hc0 as [Hs Hw].
      unfold submit_status, apply_visible. rewrite Hs, Hw. simpl.
      rewrite andb_false_r. simpl. by rewrite Hs, Hw. }
    apply not_false_is_true in Hc.
    destruct (decide (prob ∈ pl)) as [Hin|Hout].
    + right. unfold rank_info. cbn [info_solved].
      rewrite !info_solved_fold, <- ET, <- ET'. cbn [info_solved].
      apply Z.add_lt_mono_l, inj_lt.
      apply (filter_length_lt _ _ _ prob); [|done| |].
      * intros p _. rewrite Hst.
        destruct (decide (p = prob)) as [->|]; [|done]. by rewrite Hc0.
      * by rewrite Hc0.
      * by rewrite Hst, decide_True.
    + left. unfold rank_info. rewrite <- ET, <- ET'.
      rewrite (foldl_ext_in (rank_info_step T') (rank_info_step T)); [done|].
      intros acc p Hp. rewrite !rank_info_step_status, Hst.
      rewrite decide_False; [done|]. by intros ->.
  - intros Hstat. apply Hsame. rewrite Eps.
    apply String.eqb_neq in Hstat. generalize (status_of T prob). intros ps0.
    unfold submit_status, apply_visible, counted. simpl. rewrite Hstat.
    by destruct (frozen s), (wasSolvedBeforeFreeze ps0) eqn:Hw, (solved ps0) eqn:Hs;
      simpl; rewrite ?Hw, ?Hs.
Qed.

(** X21. A submission and the true ranks.  After any [submit] of a
    registered team the ranking calculator places that team no lower than
    before, and every other registered team no higher than before and at
    most one place lower.  A submission that is not [Accepted] leaves the
    ranking as it is. *)
Theorem submit_never_worsens (s : ICPCSystem) (prob team stat : string) (tm : Z) :
  reachable s → team ∈ teamNames s →
  let s' := submit prob team stat tm s in
  rank_in (calculateRanking s').1 team ≤ rank_in (calculateRanking s).1 team
  ∧ (∀ u, u ∈ teamNames s → u ≠ team →
       rank_in (calculateRanking s).1 u ≤ rank_in (calculateRanking s').1 u
       ≤ rank_in (calculateRanking s).1 u + 1)
  ∧ (stat ≠ "Accepted" → (calculateRanking s').1 = (calculateRanking s).1).
Proof.
  intros Hnd%reachable_NoDup Ht s'.
  assert (teamNames s' = teamNames s) as Hnames by done.
  assert (problemList s' = problemList s) as Hprobs by done.
  destruct (submit_info_self prob team stat tm s) as [Hself Hwrong].
  cbv zeta in Hself, Hwrong. fold s' in Hself, Hwrong.
  assert (∀ u, u ≠ team →
    rank_info (teams s') (problemList s') u = rank_info (teams s) (problemList s) u)
    as Hother.
  { intros u Hu. rewrite Hprobs. by apply submit_info_other. }
  rewrite <- Hprobs in Hself at 1 3.
  rewrite !calculateRanking_spec. cbn [fst].
  split_and!.
  - rewrite !rank_in_ahead by (done || by rewrite Hnames).
    pose proof (improved_ahead_self s s' team Hnames Hother Hself). lia.
  - intros u Hu Hne. rewrite !rank_in_ahead by (done || by rewrite Hnames).
    pose proof (improved_ahead_other s s' team Hnames Hother Hself u Hnd Hne). lia.
  - intros Hstat. f_equal. unfold ranking_names. rewrite Hnames.
    apply std_sort_ext. intros a b _ _. unfold before.
    assert (∀ u, rank_info (teams s') (problemList s') u
                 = rank_info (teams s) (problemList s) u) as Hall.
    { intros u. destruct (decide (u = team)) as [->|Hu]; [|by apply Hother].
      rewrite Hprobs. by apply Hwrong. }
    by rewrite !Hall.
Qed.

Lemma submit_never_worsens_witness :
  let s := two_teams in
  let s' := submit "A" "a" "Accepted" 3 s in
  reachable s ∧ "a" ∈ teamNames s
  ∧ rank_in (calculateRanking s').1 "a" ≤ rank_in (calculateRanking s).1 "a".
Proof.
  intros s s'.
  assert (reachable s) as H1.
  { apply state_after_reachable. vm_compute. eexists. reflexivity. }
  assert ("a" ∈ teamNames s) as H2 by (apply (bool_decide_unpack _); vm_compute; exact I).
  split_and!; [exact H1|exact H2|].
  exact (proj1 (submit_never_worsens s "A" "a" "Accepted" 3 H1 H2)).
Defined.

(** ** Registration *)

(** X22. What every run keeps of its registered teams: their names are
    pairwise distinct, each has an entry in the team table carrying its own
    name, the cached ranking names registered teams only, and registering a registered name again is refused, before the
    start as a duplicate and after it because the contest has started, the
    system staying as it is. *)
Theorem registered_teams_are_distinct (s : ICPCSystem) :
  reachable s →
  NoDup (teamNames s)
  ∧ (∀ n, n ∈ teamNames s → ∃ t, teams s !! n = Some t ∧ name t = n)
  ∧ (∀ p, p ∈ lastRanking s → p.1 ∈ teamNames s)
  ∧ (∀ n, n ∈ teamNames s →
       addTeam n s
       = (s, [Msg (if started s then "[Error]Add failed: competition has started."
                   else "[Error]Add failed: duplicated team name.")])).
Proof.
  intros HI%reachable_Inv. split_and!.
  - apply (inv_nodup s HI).
  - apply (inv_registered s HI).
  - apply (inv_ranking s HI).
  - intros n Hn. unfold addTeam. destruct (started s); [done|].
    by rewrite bool_decide_eq_true_2 by by apply Inv_known.
Qed.

Lemma registered_teams_are_distinct_witness :
  reachable two_teams ∧ NoDup (teamNames two_teams).
Proof.
  assert (reachable two_teams) as H1.
  { apply state_after_reachable. vm_compute. eexists. reflexivity. }
  split; [exact H1|].
  exact (proj1 (registered_teams_are_distinct two_teams H1)).
Defined.

Lemma rank_info_totals_witness :
  let s := penalty_overflow in
  let t := team_of (teams s) "a" in
  sum_Z (map (problem_penalty t) (counted_problems t (problemList s))) = 4000000000
  ∧ info_penalty (rank_info (teams s) (problemList s) "a") = -294967296
  ∧ info_solved (rank_info (teams s) (problemList s) "a") = 2.
Proof.
  intros s t.
  destruct (rank_info_totals (teams s) (problemList s) "a")
    as (_ & Hsolved & Hpenalty & _).
  split_and!.
  - vm_compute. reflexivity.
  - etransitivity; [exact Hpenalty|]. vm_compute. reflexivity.
  - etransitivity; [exact Hsolved|]. vm_compute. reflexivity.
Defined.
